(** * Poezio: the message buffer and the tab list of the core

    A shallow embedding of [src/text_buffer.py] (class [TextBuffer]) and of
    the tab, timed-event and keyboard logic of [src/core/core.py] (class
    [Core]), with the properties of the specification stated over it.

    Conventions.
    - Python integers are [Z]; list positions handed to stdpp's lookup are
      converted only after the range test the interpreter performs.
    - Python objects that are compared by identity carry a number that
      stands for their address.
    - A method is a function from the object's state to an outcome and the
      state it leaves behind: it returns, raises, or loops forever. *)

From Stdlib Require Import ZArith String Ascii Lia Bool DecimalString.
From stdpp Require Import base option list strings gmap.

Local Open Scope string_scope.
Local Open Scope list_scope.
Local Open Scope Z_scope.

(** ** Exceptions and the state monad of a method *)

Inductive exn : Type :=
  | IndexError
  | ValueError
  | AssertionError
  | AttributeError
  | CorrectionError (reason : string).

Inductive outcome (A : Type) : Type :=
  | Return (a : A)
  | Raise (e : exn)
  | Diverge.
Arguments Return {A} a.
Arguments Raise {A} e.
Arguments Diverge {A}.

Definition M (St A : Type) : Type := St -> outcome A * St.

Definition ret {St A} (a : A) : M St A := fun s => (Return a, s).
Definition raise {St A} (e : exn) : M St A := fun s => (Raise e, s).
Definition diverge {St A} : M St A := fun s => (Diverge, s).
Definition get {St} : M St St := fun s => (Return s, s).
Definition put {St} (s : St) : M St unit := fun _ => (Return tt, s).
Definition bind {St A B} (c : M St A) (k : A -> M St B) : M St B :=
  fun s =>
    match c s with
    | (Return a, s') => k a s'
    | (Raise e, s') => (Raise e, s')
    | (Diverge, s') => (Diverge, s')
    end.

Declare Scope py_scope.
Delimit Scope py_scope with py.
Notation "x <- c ;; k" := (bind c (fun x => k))
  (at level 100, c at next level, right associativity) : py_scope.
Notation "c ;;; k" := (bind c (fun _ => k))
  (at level 100, right associativity) : py_scope.

(** ** Python lists *)

Module PyList.
Section Ops.
Context {A : Type}.

(** [l[i]] accepts [-len(l) <= i < len(l)]; a negative index counts from
    the end. *)
Definition norm_index (n : nat) (i : Z) : option nat :=
  if (0 <=? i) && (i <? Z.of_nat n) then Some (Z.to_nat i)
  else if (- Z.of_nat n <=? i) && (i <? 0) then Some (Z.to_nat (Z.of_nat n + i))
  else None.

Definition getitem (l : list A) (i : Z) : option A :=
  n ← norm_index (length l) i; l !! n.

Definition setitem (l : list A) (i : Z) (x : A) : option (list A) :=
  n ← norm_index (length l) i; Some (<[n := x]> l).

(** [l.pop(i)] *)
Definition pop_at (l : list A) (i : Z) : option (list A) :=
  n ← norm_index (length l) i; Some (delete n l).

(** [l.pop()] *)
Definition pop (l : list A) : option (list A) :=
  pop_at l (-1).

(** [l.insert(i, x)]: the position is clamped into [0, len(l)]. *)
Definition insert (l : list A) (i : Z) (x : A) : list A :=
  let n := Z.of_nat (length l) in
  let i := if i <? 0 then Z.max 0 (i + n) else Z.min i n in
  take (Z.to_nat i) l ++ x :: drop (Z.to_nat i) l.

Context `{EqDecision A}.

(** [l.index(x)] *)
Fixpoint index (x : A) (l : list A) : option nat :=
  match l with
  | [] => None
  | y :: l' => if decide (y = x) then Some 0%nat else S <$> index x l'
  end.

(** [l.remove(x)]: the first element equal to [x]. *)
Fixpoint remove (x : A) (l : list A) : option (list A) :=
  match l with
  | [] => None
  | y :: l' => if decide (y = x) then Some l' else (y ::.) <$> remove x l'
  end.
End Ops.
End PyList.

(** ** text_buffer.py *)

(** [datetime] values, [User] objects and colours are produced outside the
    buffer, which only stores them and compares users by identity. *)
Definition datetime : Type := Z.
Definition User : Type := nat.
Definition colour : Type := Z.

Set Warnings "-register-all".
Module Message.
Inductive t : Type := mk {
txt : string;
nick_color : option colour;
time : datetime;
str_time : string;
nickname : option string;
user : option User;
identifier : option string;
highlight : bool;
me : bool;
old_message : option t;
revisions : Z
}.
End Message.
Abbreviation Message := Message.t.

(** A window attached to a buffer: its scroll position and the lines it has
    built (windows.py is outside the buffer). *)
Record Window : Type := mkWindow {
  pos : Z;
  built_lines : Z
}.

Record TextBuffer : Type := mkTextBuffer {
  messages_nb_limit : Z;
  messages : list Message;
  windows : list Window
}.

Definition set_messages (l : list Message) (b : TextBuffer) : TextBuffer :=
  mkTextBuffer (messages_nb_limit b) l (windows b).

Definition set_windows (w : list Window) (b : TextBuffer) : TextBuffer :=
  mkTextBuffer (messages_nb_limit b) (messages b) w.

(** [TextBuffer.__init__] *)
Definition TextBuffer_init (limit : Z) : TextBuffer :=
  mkTextBuffer limit [] [].

(** [s.replace('\t', '    ')] *)
Fixpoint replace_tabs (s : string) : string :=
  match s with
  | EmptyString => EmptyString
  | String c s' =>
      if Ascii.eqb c "009"%char then "    " +:+ replace_tabs s'
      else String c (replace_tabs s')
  end.

(** [s[n:]] *)
Fixpoint str_from (n : nat) (s : string) : string :=
  match n, s with
  | O, _ => s
  | S n', String _ s' => str_from n' s'
  | S _, EmptyString => EmptyString
  end.

Definition x19 : string := String (ascii_of_nat 25) EmptyString.

(** What the buffer takes from its environment: the clock's formatting
    ([time.strftime] with the long and the short format), the theme's colour
    of a /me message as text, the [show_timestamps] option, and the window's
    [build_new_message] and [scroll_up]. *)
Class TextEnv : Type := {
  strftime_date_time : datetime -> string;
  strftime_time : datetime -> string;
  COLOR_ME_MESSAGE : string;
  show_timestamps : bool;
  build_new_message : Window -> Message -> bool -> bool -> bool -> Z * Window;
  scroll_up : Window -> Z -> Window
}.

Section TextBuffer.
Context {env : TextEnv}.

(** [last_message] *)
Definition last_message (b : TextBuffer) : option Message :=
  last (messages b).

(** [make_message]; [now] is the value of [datetime.now()]. *)
Definition make_message (now : datetime)
    (txt : string) (time : option datetime) (nickname : option string)
    (nick_color : option colour) (history : bool) (user : option User)
    (identifier : option string) (str_time : option string)
    (highlight : bool) (old_message : option Message) (revisions : Z)
    : Message :=
  let time := default now time in
  let '(me, txt) :=
    if String.prefix "/me " txt
    then (true, (x19 +:+ COLOR_ME_MESSAGE +:+ "}") +:+ str_from 4 txt)
    else (false, txt) in
  Message.mk
    (replace_tabs txt +:+ x19 +:+ "o")
    nick_color
    time
    (match str_time with
     | None => if history then strftime_date_time time else strftime_time time
     | Some _ => ""
     end)
    nickname
    user
    identifier
    highlight
    me
    old_message
    revisions.

(** [while len(self.messages) > self.messages_nb_limit: self.messages.pop(0)] *)
Fixpoint evict (limit : Z) (l : list Message) : outcome (list Message) :=
  if Z.of_nat (length l) >? limit then
    match l with
    | [] => Raise IndexError
    | _ :: l' => evict limit l'
    end
  else Return l.

(** The loop over [self.windows] of [add_message]: the lines built by the
    first window are the value, every window that is scrolled up follows. *)
Fixpoint notify_windows (msg : Message) (history highlight : bool)
    (ws : list Window) (ret_val : option Z) : option Z * list Window :=
  match ws with
  | [] => (ret_val, [])
  | window :: ws' =>
      let '(nb, window) :=
        build_new_message window msg history highlight show_timestamps in
      let ret_val := match ret_val with None => Some nb | Some _ => ret_val end in
      let window := if negb (pos window =? 0) then scroll_up window nb else window in
      let '(r, ws'') := notify_windows msg history highlight ws' ret_val in
      (r, window :: ws'')
  end.

(** [add_message] *)
Definition add_message (now : datetime)
    (txt : string) (time : option datetime) (nickname : option string)
    (nick_color : option colour) (history : bool) (user : option User)
    (highlight : bool) (identifier : option string)
    (str_time : option string) : M TextBuffer Z :=
  (self <- get ;;
   let msg := make_message now txt time nickname nick_color history user
                identifier str_time highlight None 0 in
   put (set_messages (messages self ++ [msg]) self) ;;;
   self <- get ;;
   match evict (messages_nb_limit self) (messages self) with
   | Return l =>
       put (set_messages l self) ;;;
       self <- get ;;
       let '(ret_val, ws) :=
         notify_windows msg history highlight (windows self) None in
       put (set_windows ws self) ;;;
       ret (match ret_val with
            | Some nb => if nb =? 0 then 1 else nb
            | None => 1
            end)
   | Raise e => put (set_messages [] self) ;;; raise e
   | Diverge => diverge
   end)%py.

(** The body of the loop of [modify_message] at a message that has the
    identifier looked for. *)
Definition replace_message (now : datetime) (i : nat) (msg : Message)
    (txt : string) (new_id : option string) (highlight : bool)
    (time : option datetime) (user : option User) : M TextBuffer Message :=
  (if bool_decide (is_Some (Message.user msg))
      && negb (bool_decide (Message.user msg = user))
   then raise (CorrectionError "wrong user")
   else if Z.of_nat (String.length (Message.str_time msg)) >? 8
   then raise (CorrectionError "delayed message")
   else
     let message :=
       make_message now txt
         (Some (default (Message.time msg) time))
         (Message.nickname msg) (Message.nick_color msg) false
         (Message.user msg) new_id None highlight (Some msg)
         (Message.revisions msg + 1) in
     self <- get ;;
     put (set_messages (<[i := message]> (messages self)) self) ;;;
     ret message)%py.

(** [for i in range(len(self.messages) - 1, -1, -1)], with [k] positions
    left to visit: [k - 1], ..., [0]. *)
Fixpoint modify_loop (now : datetime) (k : nat)
    (txt : string) (old_id new_id : option string) (highlight : bool)
    (time : option datetime) (user : option User) : M TextBuffer Message :=
  match k with
  | O => raise (CorrectionError "nothing to replace")
  | S i =>
      (self <- get ;;
       match messages self !! i with
       | None => raise IndexError
       | Some msg =>
           if bool_decide (Message.identifier msg = old_id)
           then replace_message now i msg txt new_id highlight time user
           else modify_loop now i txt old_id new_id highlight time user
       end)%py
  end.

(** [modify_message] *)
Definition modify_message (now : datetime)
    (txt : string) (old_id new_id : option string) (highlight : bool)
    (time : option datetime) (user : option User) : M TextBuffer Message :=
  (self <- get ;;
   modify_loop now (length (messages self)) txt old_id new_id highlight
     time user)%py.

End TextBuffer.

(** *** What the properties are stated with *)


(** [latest_match l old_id i msg]: [msg] stands at position [i] of [l], has
    the identifier [old_id], and no message after it has. *)
Definition latest_match (l : list Message) (old_id : option string)
    (i : nat) (msg : Message) : Prop :=
  l !! i = Some msg /\ Message.identifier msg = old_id /\
  forall j m, (i < j)%nat -> l !! j = Some m -> Message.identifier m <> old_id.

(** [no_match l old_id]: no message of [l] has the identifier [old_id]. *)
Definition no_match (l : list Message) (old_id : option string) : Prop :=
  forall j m, l !! j = Some m -> Message.identifier m <> old_id.

(** Following [old_message] [n] times. *)
Fixpoint previous_revision (n : nat) (m : Message) : option Message :=
  match n with
  | O => Some m
  | S n' =>
      match Message.old_message m with
      | Some m' => previous_revision n' m'
      | None => None
      end
  end.

(** *** Runs of the two operations *)

(** The arguments of one call of [modify_message]. *)
Record correction : Type := mkCorrection {
  c_now : datetime;
  c_txt : string;
  c_old_id : option string;
  c_new_id : option string;
  c_highlight : bool;
  c_time : option datetime;
  c_user : option User
}.

(** The arguments of one call of [add_message]. *)
Record addition : Type := mkAddition {
  a_now : datetime;
  a_txt : string;
  a_time : option datetime;
  a_nickname : option string;
  a_nick_color : option colour;
  a_history : bool;
  a_user : option User;
  a_highlight : bool;
  a_identifier : option string;
  a_str_time : option string
}.

Section Runs.
Context {env : TextEnv}.

Definition correct (c : correction) : M TextBuffer Message :=
  modify_message (c_now c) (c_txt c) (c_old_id c) (c_new_id c)
    (c_highlight c) (c_time c) (c_user c).

Definition append (a : addition) : M TextBuffer Z :=
  add_message (a_now a) (a_txt a) (a_time a) (a_nickname a)
    (a_nick_color a) (a_history a) (a_user a) (a_highlight a)
    (a_identifier a) (a_str_time a).

(** The message [add_message] builds from its arguments. *)
Definition appended (a : addition) : Message :=
  make_message (a_now a) (a_txt a) (a_time a) (a_nickname a)
    (a_nick_color a) (a_history a) (a_user a) (a_identifier a)
    (a_str_time a) (a_highlight a) None 0.

(** Calls of [add_message] one after the other. *)
Fixpoint append_all (adds : list addition) : M TextBuffer unit :=
  match adds with
  | [] => ret tt
  | a :: adds' => (append a ;;; append_all adds')%py
  end.

(** Calls of [modify_message] one after the other, up to the first that
    does not return; the value is the list of the messages returned. *)
Fixpoint correct_all (cs : list correction) : M TextBuffer (list Message) :=
  match cs with
  | [] => ret []
  | c :: cs' =>
      (message <- correct c ;;
       l <- correct_all cs' ;;
       ret (message :: l))%py
  end.

(** [corrections_of i cs b b']: the calls [cs] of [modify_message], made
    one after the other from [b], all return, each of them finds its
    [old_id] at position [i], and they leave [b']. *)
Inductive corrections_of (i : nat) :
    list correction -> TextBuffer -> TextBuffer -> Prop :=
  | corrections_nil b : corrections_of i [] b b
  | corrections_cons c cs b b1 b2 msg message :
      latest_match (messages b) (c_old_id c) i msg ->
      correct c b = (Return message, b1) ->
      corrections_of i cs b1 b2 ->
      corrections_of i (c :: cs) b b2.
End Runs.

(** ** core/core.py *)

(** *** Tabs and timed events *)

(** Modelled from the spec: the classes of tabs.py, which is not among the
    sources. A tab is an object of one of the kinds Gap, Conversation,
    RosterInfo and Other; a Gap is a placeholder whose truth value is false,
    any other tab is true. [tab_id] is the identity of the object, which is
    what [==] compares. *)
Inductive tab_class : Type :=
  | GapTab
  | RosterInfoTab
  | ConversationTab
  | OtherTab.

Record Tab : Type := mkTab {
  tab_id : nat;
  tab_class_of : tab_class
}.

#[global] Instance tab_class_eq_dec : EqDecision tab_class.
Proof. solve_decision. Defined.

#[global] Instance Tab_eq_dec : EqDecision Tab.
Proof. solve_decision. Defined.

(** [isinstance(tab, cls)] *)
Definition isinstance (tab : Tab) (cls : tab_class) : bool :=
  bool_decide (tab_class_of tab = cls).

(** [bool(tab)] *)
Definition tab_bool (tab : Tab) : bool := negb (isinstance tab GapTab).

(** Modelled from the spec: [Tab.nb] (tabs.py), the number of a tab, is its
    slot position in the list of tabs; a tab that stands in no slot gets the
    length of the list. *)
Definition nb (tab : Tab) (tabs : list Tab) : Z :=
  match PyList.index tab tabs with
  | Some n => Z.of_nat n
  | None => Z.of_nat (length tabs)
  end.

(** Modelled from the spec: timed_events.py is not among the sources. A
    timed event is an object with a deadline, asked by [has_timed_out(now)]
    whether it has expired, and a callback; [callback] is the truth value of
    what the callback returns when the event is called. *)
Record TimedEvent : Type := mkTimedEvent {
  event_id : nat;
  has_timed_out : datetime -> bool;
  callback : bool
}.

(** The calls the core makes on other objects, in the order it makes them. *)
Inductive call : Type :=
  | on_lose_focus (tab : Tab)
  | on_gain_focus (tab : Tab)
  | on_close (tab : Tab)
  | refresh_window
  | doupdate
  | event_call (event : TimedEvent)
  | input_do_command (tab : Tab) (key : string)
  | input_prompt (tab : Tab)
  | event_set
  | key_func_call (key : string)
  | on_input (tab : Tab) (key : string) (raw : bool)
  | command_win (arg : string)
  | go_to_previous_tab.

(** The attributes of [Core] that the tab list, the timed events and the main
    loop read and write. [create_gaps] is the option of that name;
    [timed_events] is the set in the order its iteration yields; [key_func]
    holds the keys of the dictionary of that name; [allocated] counts the
    objects created, and numbers the next one; [calls] is the trace of the
    calls made. *)
Record Core : Type := mkCore {
  tabs : list Tab;
  _current_tab_nb : Z;
  create_gaps : bool;
  timed_events : list TimedEvent;
  paused : bool;
  key_func : gset string;
  allocated : nat;
  calls : list call
}.

Definition set_tabs (l : list Tab) (c : Core) : Core :=
  mkCore l (_current_tab_nb c) (create_gaps c) (timed_events c) (paused c)
    (key_func c) (allocated c) (calls c).

Definition set__current_tab_nb (v : Z) (c : Core) : Core :=
  mkCore (tabs c) v (create_gaps c) (timed_events c) (paused c)
    (key_func c) (allocated c) (calls c).

Definition set_timed_events (l : list TimedEvent) (c : Core) : Core :=
  mkCore (tabs c) (_current_tab_nb c) (create_gaps c) l (paused c)
    (key_func c) (allocated c) (calls c).

Definition set_allocated (n : nat) (c : Core) : Core :=
  mkCore (tabs c) (_current_tab_nb c) (create_gaps c) (timed_events c)
    (paused c) (key_func c) n (calls c).

Definition set_calls (l : list call) (c : Core) : Core :=
  mkCore (tabs c) (_current_tab_nb c) (create_gaps c) (timed_events c)
    (paused c) (key_func c) (allocated c) l.

(** *** Access to [self.tabs] *)

Definition lift_option {St A} (e : exn) (o : option A) : M St A :=
  match o with
  | Some a => ret a
  | None => raise e
  end.

Definition emit (c : call) : M Core unit :=
  (self <- get ;; put (set_calls (calls self ++ [c]) self))%py.

(** [len(self.tabs)] *)
Definition len_tabs : M Core Z :=
  (self <- get ;; ret (Z.of_nat (length (tabs self))))%py.

(** [self.tabs[i]] *)
Definition tabs_getitem (i : Z) : M Core Tab :=
  (self <- get ;; lift_option IndexError (PyList.getitem (tabs self) i))%py.

(** [self.tabs[i] = tab] *)
Definition tabs_setitem (i : Z) (tab : Tab) : M Core unit :=
  (self <- get ;;
   l <- lift_option IndexError (PyList.setitem (tabs self) i tab) ;;
   put (set_tabs l self))%py.

(** [self.tabs.pop(i)] and [self.tabs.pop()] *)
Definition tabs_pop_at (i : Z) : M Core unit :=
  (self <- get ;;
   l <- lift_option IndexError (PyList.pop_at (tabs self) i) ;;
   put (set_tabs l self))%py.

Definition tabs_pop : M Core unit :=
  (self <- get ;;
   l <- lift_option IndexError (PyList.pop (tabs self)) ;;
   put (set_tabs l self))%py.

(** [self.tabs.insert(i, tab)] *)
Definition tabs_insert (i : Z) (tab : Tab) : M Core unit :=
  (self <- get ;; put (set_tabs (PyList.insert (tabs self) i tab) self))%py.

(** [self.tabs.append(tab)] *)
Definition tabs_append (tab : Tab) : M Core unit :=
  (self <- get ;; put (set_tabs (tabs self ++ [tab]) self))%py.

(** [self.tabs.remove(tab)] *)
Definition tabs_remove (tab : Tab) : M Core unit :=
  (self <- get ;;
   l <- lift_option ValueError (PyList.remove tab (tabs self)) ;;
   put (set_tabs l self))%py.

(** [self.tabs.index(tab)] *)
Definition tabs_index (tab : Tab) : M Core Z :=
  (self <- get ;;
   n <- lift_option ValueError (PyList.index tab (tabs self)) ;;
   ret (Z.of_nat n))%py.

(** [tabs.GapTab()]: a new object. *)
Definition new_GapTab : M Core Tab :=
  (self <- get ;;
   put (set_allocated (S (allocated self)) self) ;;;
   ret (mkTab (allocated self) GapTab))%py.

(** *** The cursor *)

(** The getter of the property [current_tab_nb]. *)
Definition current_tab_nb : M Core Z :=
  (self <- get ;; ret (_current_tab_nb self))%py.

(** The setter of the property [current_tab_nb]. *)
Definition current_tab_nb_setter (value : Z) : M Core unit :=
  (self <- get ;;
   if value >=? Z.of_nat (length (tabs self)) then
     put (set__current_tab_nb 0 self)
   else if value <? 0 then
     put (set__current_tab_nb (Z.of_nat (length (tabs self)) - 1) self)
   else
     put (set__current_tab_nb value self))%py.

(** [current_tab] *)
Definition current_tab : M Core Tab :=
  (v <- current_tab_nb ;;
   current_tab_nb_setter v ;;;
   v <- current_tab_nb ;;
   tabs_getitem v)%py.

(** [while not self.tabs[self.current_tab_nb]: self.current_tab_nb += step],
    with [step] one of 1 and -1. The loop changes nothing but the cursor,
    which after its first turn runs round the positions of the list: [fuel]
    turns that all meet a Gap, with [fuel] above the length of the list, are
    followed by turns that meet the same Gaps again, for ever. *)
Fixpoint skip_gaps (step : Z) (fuel : nat) : M Core unit :=
  match fuel with
  | O => diverge
  | S fuel' =>
      (v <- current_tab_nb ;;
       tab <- tabs_getitem v ;;
       if negb (tab_bool tab) then
         v <- current_tab_nb ;;
         current_tab_nb_setter (v + step) ;;;
         skip_gaps step fuel'
       else ret tt)%py
  end.

(** [rotate_rooms_right] *)
Definition rotate_rooms_right : M Core unit :=
  (tab <- current_tab ;;
   emit (on_lose_focus tab) ;;;
   v <- current_tab_nb ;;
   current_tab_nb_setter (v + 1) ;;;
   self <- get ;;
   skip_gaps 1 (S (length (tabs self))) ;;;
   tab <- current_tab ;;
   emit (on_gain_focus tab) ;;;
   emit refresh_window)%py.

(** [rotate_rooms_left] *)
Definition rotate_rooms_left : M Core unit :=
  (tab <- current_tab ;;
   emit (on_lose_focus tab) ;;;
   v <- current_tab_nb ;;
   current_tab_nb_setter (v - 1) ;;;
   self <- get ;;
   skip_gaps (-1) (S (length (tabs self))) ;;;
   tab <- current_tab ;;
   emit (on_gain_focus tab) ;;;
   emit refresh_window)%py.

(** *** Moving a tab *)

(** [insert_tab_nogaps] *)
Definition insert_tab_nogaps (old_pos new_pos : Z) : M Core bool :=
  (tab <- tabs_getitem old_pos ;;
   if new_pos <? old_pos then
     tabs_pop_at old_pos ;;;
     tabs_insert new_pos tab ;;;
     ret true
   else if new_pos >? old_pos then
     tabs_insert new_pos tab ;;;
     tabs_remove tab ;;;
     ret true
   else ret false)%py.

(** The loop of [insert_tab_gaps] that removes the first Gap on the right of
    position [i]; the position grows at every turn and the loop ends at the
    length of the list. *)
Fixpoint remove_first_gap (fuel : nat) (i : Z) : M Core unit :=
  match fuel with
  | O => diverge
  | S fuel' =>
      (let i := i + 1 in
       n <- len_tabs ;;
       if i >=? n then ret tt
       else
         tab <- tabs_getitem i ;;
         if negb (tab_bool tab) then tabs_pop_at i
         else remove_first_gap fuel' i)%py
  end.

(** [while isinstance(self.tabs[i], tabs.GapTab): self.tabs.pop(); i -= 1];
    every turn takes one tab off the list. *)
Fixpoint remove_trailing_gaps (fuel : nat) (i : Z) : M Core unit :=
  match fuel with
  | O => diverge
  | S fuel' =>
      (tab <- tabs_getitem i ;;
       if isinstance tab GapTab then
         tabs_pop ;;;
         remove_trailing_gaps fuel' (i - 1)
       else ret tt)%py
  end.

(** [insert_tab_gaps] *)
Definition insert_tab_gaps (old_pos new_pos : Z) : M Core bool :=
  (tab <- tabs_getitem old_pos ;;
   n <- len_tabs ;;
   target <- (if new_pos >=? n then ret None
              else t <- tabs_getitem new_pos ;; ret (Some t)) ;;
   moved <-
     (if negb (from_option tab_bool false target) then
        n <- len_tabs ;;
        (if new_pos <? n then
           t <- tabs_getitem old_pos ;;
           gap <- new_GapTab ;;
           tabs_setitem new_pos t ;;;
           tabs_setitem old_pos gap
         else
           t <- tabs_getitem old_pos ;;
           tabs_append t ;;;
           gap <- new_GapTab ;;
           tabs_setitem old_pos gap) ;;;
        ret true
      else
        if new_pos >? old_pos then
          tabs_insert new_pos tab ;;;
          gap <- new_GapTab ;;
          tabs_setitem old_pos gap ;;;
          i <- tabs_index tab ;;
          self <- get ;;
          remove_first_gap (S (length (tabs self))) i ;;;
          ret true
        else if new_pos <? old_pos then
          gap <- new_GapTab ;;
          tabs_setitem old_pos gap ;;;
          tabs_insert new_pos tab ;;;
          i <- tabs_index tab ;;
          self <- get ;;
          remove_first_gap (S (length (tabs self))) i ;;;
          ret true
        else ret false) ;;
   if moved then
     n <- len_tabs ;;
     self <- get ;;
     remove_trailing_gaps (S (length (tabs self))) (n - 1) ;;;
     ret true
   else ret false)%py.

(** [insert_tab] *)
Definition insert_tab (old_pos new_pos : Z) : M Core bool :=
  (n <- len_tabs ;;
   if (old_pos <=? 0) || (old_pos >=? n) then ret false
   else if new_pos <=? 0 then ret false
   else if new_pos =? old_pos then ret false
   else
     tab <- tabs_getitem old_pos ;;
     if negb (tab_bool tab) then ret false
     else
       self <- get ;;
       if create_gaps self then insert_tab_gaps old_pos new_pos
       else insert_tab_nogaps old_pos new_pos)%py.

(** The default of [new_pos] in [insert_tab]. *)
Definition insert_tab_default_new_pos : Z := 99999.

(** *** Closing a tab *)

(** [while not self.tabs[nb]: self.tabs.pop(); nb -= 1] of [close_tab];
    every turn takes one tab off the list. *)
Fixpoint close_trailing_gaps (fuel : nat) (nb : Z) : M Core unit :=
  match fuel with
  | O => diverge
  | S fuel' =>
      (tab <- tabs_getitem nb ;;
       if negb (tab_bool tab) then
         tabs_pop ;;;
         close_trailing_gaps fuel' (nb - 1)
       else ret tt)%py
  end.

(** [close_tab]; the deletion of the tab's own attributes and the closing of
    its log file, which concern neither the list nor the cursor, are left
    out. [close_tab_whole], further down, has the deletion. *)
Definition close_tab (tab : option Tab) : M Core unit :=
  (tab <- (match tab with
           | Some t => if tab_bool t then ret t else current_tab
           | None => current_tab
           end) ;;
   if isinstance tab RosterInfoTab then ret tt
   else
     emit (on_close tab) ;;;
     self <- get ;;
     let nb := nb tab (tabs self) in
     (if create_gaps self then
        n <- len_tabs ;;
        if nb >=? n - 1 then
          tabs_remove tab ;;;
          self <- get ;;
          close_trailing_gaps (S (length (tabs self))) (nb - 1)
        else
          gap <- new_GapTab ;;
          tabs_setitem nb gap
      else tabs_remove tab) ;;;
     v <- current_tab_nb ;;
     n <- len_tabs ;;
     (if v >=? n then current_tab_nb_setter (n - 1) else ret tt) ;;;
     self <- get ;;
     skip_gaps (-1) (S (length (tabs self))) ;;;
     tab <- current_tab ;;
     emit (on_gain_focus tab) ;;;
     emit refresh_window)%py.

(** *** Timed events *)

(** [self.timed_events.remove(event)] *)
Definition timed_events_remove (event : TimedEvent) : M Core unit :=
  (self <- get ;;
   put (set_timed_events
          (filter (fun e => event_id e <> event_id event) (timed_events self))
          self))%py.

(** The loop of [check_timed_events] over the events that the iteration has
    still to yield. *)
Fixpoint check_timed_events_loop (now : datetime)
    (pending : list TimedEvent) : M Core unit :=
  match pending with
  | [] => ret tt
  | event :: pending' =>
      if has_timed_out event now then
        (emit (event_call event) ;;;
         let res := callback event in
         if negb res then timed_events_remove event (* break *)
         else check_timed_events_loop now pending')%py
      else check_timed_events_loop now pending'
  end.

(** [check_timed_events]; [now] is the value of [datetime.now()]. *)
Definition check_timed_events (now : datetime) : M Core unit :=
  (self <- get ;; check_timed_events_loop now (timed_events self))%py.

(** What [keyboard.get_user_input] gives at one call: [None] after its
    timeout, with the time at which the timed events are then checked, or
    the keys read. *)
Inductive user_input : Type :=
  | timeout (now : datetime)
  | keys (char_list : list string).

(** [read_keyboard], over the results of the calls of
    [keyboard.get_user_input] to come; with no keys ever read it does not
    return. *)
Fixpoint read_keyboard (inputs : list user_input) : M Core (list string) :=
  match inputs with
  | [] => diverge
  | timeout now :: inputs' =>
      (check_timed_events now ;;; read_keyboard inputs')%py
  | keys res :: _ => ret res
  end.

(** *** The main loop *)

(** [replace_key_with_bound]; [bindings] is the section of that name of the
    configuration. *)
Definition replace_key_with_bound (bindings : gmap string string)
    (key : string) : string :=
  let bind := default key (bindings !! key) in
  if bool_decide (bind = "") then key else bind.

(** [replace_line_breaks] *)
Definition replace_line_breaks (key : string) : string :=
  if bool_decide (key = "^J") then String "010"%char EmptyString else key.

(** A [str] is held as its UTF-8 bytes: a byte starts a character when it
    is not one of 128..191, which go on a character of several bytes. *)
Definition starts_char (c : ascii) : bool :=
  let n := nat_of_ascii c in
  ((n <? 128) || (191 <? n))%nat.

(** [len(s)]: the number of the characters of [s]. *)
Fixpoint len (s : string) : nat :=
  match s with
  | EmptyString => 0%nat
  | String c s' => ((if starts_char c then 1 else 0) + len s')%nat
  end.

(** The loop of [separate_chars_from_bindings]; [n] is the length of the
    whole list. A key has a character, as the assertion asks, when it has
    a byte; [len] counts its characters. *)
Fixpoint separate_loop (n : nat) (char_list : list string)
    (res : list (list string)) (current : list string)
    : outcome (list (list string)) :=
  match char_list with
  | [] => Return (if bool_decide (current = []) then res else res ++ [current])
  | char :: char_list' =>
      if negb (0 <? String.length char)%nat then Raise AssertionError
      else
        let char :=
          if bool_decide (char = String "031"%char EmptyString) then "^/"
          else char in
        if (len char =? 1)%nat then
          separate_loop n char_list' res (current ++ [char])
        else if bool_decide (char = "^I") && negb (n =? 1)%nat then
          separate_loop n char_list' res
            (current ++ [String "009"%char EmptyString])
        else
          let '(res, current) :=
            if bool_decide (current = []) then (res, current)
            else (res ++ [current], []) in
          separate_loop n char_list' (res ++ [[char]]) current
  end.

(** [separate_chars_from_bindings] *)
Definition separate_chars_from_bindings (char_list : list string)
    : outcome (list (list string)) :=
  separate_loop (length char_list) char_list [] [].

(** [int(c)] for one character. *)
Definition int_of_char (c : ascii) : option Z :=
  let n := nat_of_ascii c in
  if (48 <=? n)%nat && (n <=? 57)%nat then Some (Z.of_nat (n - 48)) else None.

(** [do_command] *)
Definition do_command (key : string) (raw : bool) : M Core unit :=
  (if bool_decide (key = "") then ret tt
   else tab <- current_tab ;; emit (on_input tab key raw))%py.

(** [KeyDict.get(char, None)] as a truth value. *)
Definition key_func_get (self : Core) (char : string) : bool :=
  (String.prefix "_exc_" char && (5 <? String.length char)%nat)
  || bool_decide (char ∈ key_func self).

(** The body of the loop of [main_loop] over the lists of keys. The calls
    of the functions bound to keys, of [command_win] and of
    [go_to_previous_tab] are recorded, not followed. *)
Definition main_loop_body (char_list : list string) : M Core unit :=
  (self <- get ;;
   if paused self then
     tab <- current_tab ;;
     key <- lift_option IndexError (head char_list) ;;
     emit (input_do_command tab key) ;;;
     tab <- current_tab ;;
     emit (input_prompt tab) ;;;
     emit event_set
   else if (length char_list =? 1)%nat then
     char <- lift_option IndexError (head char_list) ;;
     (if String.prefix "M-" char && (String.length char =? 3)%nat then
        match String.get 2 char ≫= int_of_char with
        | None => ret tt
        | Some n =>
            tab <- current_tab ;;
            self <- get ;;
            if nb tab (tabs self) =? n then emit go_to_previous_tab
            else emit (command_win (String.substring 2 1 char))
        end
      else ret tt) ;;;
     self <- get ;;
     if key_func_get self char then emit (key_func_call char)
     else do_command (replace_line_breaks char) false
   else do_command (String.concat "" char_list) true)%py.

Fixpoint main_loop_for (lists : list (list string)) : M Core unit :=
  match lists with
  | [] => ret tt
  | char_list :: lists' =>
      (main_loop_body char_list ;;; main_loop_for lists')%py
  end.

(** One turn of [while self.running] in [main_loop]; the notice of idleness
    given to the XMPP plugin at the start of the turn is left out. *)
Definition main_loop_turn (bindings : gmap string string)
    (inputs : list user_input) : M Core unit :=
  (res <- read_keyboard inputs ;;
   let big_char_list := map (replace_key_with_bound bindings) res in
   match separate_chars_from_bindings big_char_list with
   | Return lists => main_loop_for lists ;;; emit doupdate
   | Raise e => raise e
   | Diverge => diverge
   end)%py.

(** *** What the properties of the tab list are stated with *)

(** The list of tabs starts with the roster tab and does not end with a
    Gap. *)
Definition tabs_inv (l : list Tab) : Prop :=
  (exists r, l !! 0%nat = Some r /\ isinstance r RosterInfoTab = true) /\
  (forall t, last l = Some t -> tab_bool t = true).

(** The cursor stands on a tab of the list that is no Gap. *)
Definition cursor_ok (self : Core) : Prop :=
  0 <= _current_tab_nb self < Z.of_nat (length (tabs self)) /\
  exists t, tabs self !! Z.to_nat (_current_tab_nb self) = Some t /\
            tab_bool t = true.

(** The list without the Gaps at its end. *)
Fixpoint strip_gaps (l : list Tab) : list Tab :=
  match l with
  | [] => []
  | t :: l' =>
      match strip_gaps l' with
      | [] => if tab_bool t then [t] else []
      | r => t :: r
      end
  end.

(** The list without its first Gap. *)
Fixpoint delete_first_gap (l : list Tab) : list Tab :=
  match l with
  | [] => []
  | t :: l' => if tab_bool t then t :: delete_first_gap l' else l'
  end.

(** The list without the first Gap that stands after position [i]. *)
Definition delete_gap_after (i : nat) (l : list Tab) : list Tab :=
  take (S i) l ++ delete_first_gap (drop (S i) l).

(** The Gap that the next call of [tabs.GapTab()] makes, and the core after
    the call. *)
Definition next_gap (self : Core) : Tab := mkTab (allocated self) GapTab.

Definition allocate (self : Core) : Core :=
  set_allocated (S (allocated self)) self.

(** Where the tabs stand after a move in gap mode: [L] is the list before
    the Gaps at its end are removed. *)
Definition moved_frame (l L : list Tab) (old : nat) (new : Z) (tab : Tab)
    : Prop :=
  (forall j t, Z.of_nat j < new -> j <> old -> l !! j = Some t ->
               L !! j = Some t) /\
  (Z.of_nat (length l) <= new \/
   (exists target, l !! Z.to_nat new = Some target /\
                   tab_bool target = false) ->
   forall j t, j <> old -> l !! j = Some t -> tab_bool t = true ->
               L !! j = Some t) /\
  L !! Z.to_nat (Z.min new (Z.of_nat (length l))) = Some tab /\
  (forall j t, j <> old -> l !! j = Some t -> tab_bool t = true ->
               L !! j = Some t \/ L !! S j = Some t).

(** [g] is the first position, from the destination [new] on, that holds
    a Gap or is [old], the place that the tab moved leaves; it is the
    length of the list when there is none, as when the destination is
    beyond the end. The tabs from the destination to [g] are those that
    a move shifts. *)
Definition first_free (l : list Tab) (old : nat) (new : Z) (g : nat) : Prop :=
  Z.min new (Z.of_nat (length l)) <= Z.of_nat g /\
  (g <= length l)%nat /\
  (forall j t, new <= Z.of_nat j -> (j < g)%nat -> l !! j = Some t ->
               j <> old /\ tab_bool t = true) /\
  (g = old \/ g = length l \/
   exists t, l !! g = Some t /\ tab_bool t = false).

(** The parts of [close_tab], to reason on them one at a time: the choice
    of the tab to close, what is done to the list, and what is done to the
    cursor. *)
Definition close_tab_which (tab : option Tab) : M Core Tab :=
  match tab with
  | Some t => if tab_bool t then ret t else current_tab
  | None => current_tab
  end.

Definition close_tab_list (tab : Tab) : M Core unit :=
  (self <- get ;;
   let nb := nb tab (tabs self) in
   if create_gaps self then
     n <- len_tabs ;;
     if nb >=? n - 1 then
       tabs_remove tab ;;;
       self <- get ;;
       close_trailing_gaps (S (length (tabs self))) (nb - 1)
     else
       gap <- new_GapTab ;;
       tabs_setitem nb gap
   else tabs_remove tab)%py.

Definition close_tab_cursor : M Core unit :=
  (v <- current_tab_nb ;;
   n <- len_tabs ;;
   (if v >=? n then current_tab_nb_setter (n - 1) else ret tt) ;;;
   self <- get ;;
   skip_gaps (-1) (S (length (tabs self))) ;;;
   tab <- current_tab ;;
   emit (on_gain_focus tab) ;;;
   emit refresh_window)%py.

(** The list that closing the tab at position [k] leaves; [g] is the Gap
    put in its place in gap mode when it is not the last tab. *)
Definition closed_tabs (gaps : bool) (l : list Tab) (k : nat) (g : Tab)
    : list Tab :=
  if gaps then
    if decide (S k = length l) then strip_gaps (delete k l)
    else <[k := g]> l
  else delete k l.

(** A method that changes neither the list of tabs nor the option. *)
Definition keeps_tabs {A} (c : M Core A) : Prop :=
  forall self,
    tabs (snd (c self)) = tabs self /\
    create_gaps (snd (c self)) = create_gaps self.

(** The two operations that change the list of tabs. *)
Inductive tab_op : Type :=
  | op_close_tab (tab : option Tab)
  | op_insert_tab (old_pos new_pos : Z).

Definition run_op (op : tab_op) : M Core unit :=
  match op with
  | op_close_tab tab => close_tab tab
  | op_insert_tab old_pos new_pos =>
      (insert_tab old_pos new_pos ;;; ret tt)%py
  end.

(** The operations one after the other, each from the state the one before
    has left, whether it returned or raised. *)
Fixpoint run_ops (ops : list tab_op) (self : Core) : Core :=
  match ops with
  | [] => self
  | op :: ops' => run_ops ops' (snd (run_op op self))
  end.

(** *** Sample data *)

Definition sample_env : TextEnv := {|
  strftime_date_time := fun _ => "2014-03-07 21:15:02";
  strftime_time := fun _ => "21:15:02";
  COLOR_ME_MESSAGE := "5";
  show_timestamps := true;
  build_new_message := fun w _ _ _ _ => (1, mkWindow (pos w) (built_lines w + 1));
  scroll_up := fun w n => mkWindow (pos w + n) (built_lines w)
|}.

Definition sample_addition (txt : string) : addition :=
  mkAddition 0 txt None (Some "nick") None false None false (Some txt) None.

Definition Roster : Tab := mkTab 0 RosterInfoTab.
Definition tab_A : Tab := mkTab 1 ConversationTab.
Definition tab_B : Tab := mkTab 2 ConversationTab.
Definition tab_C : Tab := mkTab 3 ConversationTab.
Definition Gap (n : nat) : Tab := mkTab n GapTab.

(** A core with the tabs [l], the cursor at [v] and the option
    [create_gaps] at [gaps]; ten objects exist already. *)
Definition sample_core (l : list Tab) (v : Z) (gaps : bool) : Core :=
  mkCore l v gaps [] false ∅ 10 [].

(** A timed event with a deadline, expired once the time is past it, and
    the truth value of what its callback returns. *)
Definition sample_event (id : nat) (deadline : datetime) (res : bool)
    : TimedEvent :=
  mkTimedEvent id (fun now => deadline <? now) res.

(** A core with pending timed events. *)
Definition sample_core_events (events : list TimedEvent) : Core :=
  mkCore [Roster] 0 false events false ∅ 10 [].

(** A paused core with the cursor on a conversation. *)
Definition sample_core_paused : Core :=
  mkCore [Roster; tab_A] 1 false [] true ∅ 10 [].

(** The events of a list that have expired at [now]. *)
Definition expired (now : datetime) (events : list TimedEvent)
    : list TimedEvent :=
  filter (fun e => has_timed_out e now = true) events.

(** The buffer of the example of the specification: limit 3, after "a",
    "b", "c" and "d". *)
Definition sample_buffer : TextBuffer :=
  snd (append_all (env := sample_env)
         (map sample_addition ["a"; "b"; "c"; "d"]) (TextBuffer_init 3)).

(** A correction of the message [old_id] into [new_id], by no user. *)
Definition sample_correction (old_id new_id : string) : correction :=
  mkCorrection 0 new_id (Some old_id) (Some new_id) false None None.

(** The euro sign, a key of one character and three bytes. *)
Definition euro_sign : string :=
  String "226"%char (String "130"%char (String "172"%char EmptyString)).

(** ** Further operations *)

(** *** text_buffer.py: what the further properties are stated with *)

(** The string has the character [c]. *)
Fixpoint has_char (c : ascii) (s : string) : bool :=
  match s with
  | EmptyString => false
  | String c' s' => Ascii.eqb c' c || has_char c s'
  end.

(** The two operations on the messages of a buffer. *)
Inductive buffer_op : Type :=
  | op_add_message (a : addition)
  | op_modify_message (c : correction).

Section BufferRuns.
Context {env : TextEnv}.

Definition run_buffer_op (op : buffer_op) : M TextBuffer unit :=
  match op with
  | op_add_message a => (append a ;;; ret tt)%py
  | op_modify_message c => (correct c ;;; ret tt)%py
  end.

(** The operations one after the other, each from the buffer the one before
    has left, whether it returned or raised. *)
Fixpoint run_buffer_ops (ops : list buffer_op) (b : TextBuffer) : TextBuffer :=
  match ops with
  | [] => b
  | op :: ops' => run_buffer_ops ops' (snd (run_buffer_op op b))
  end.
End BufferRuns.

(** *** core/core.py: the list of tabs *)

(** ['%s' % n] for an integer. *)
Definition str_of_int (n : Z) : string := NilZero.string_of_int (Z.to_int n).

(** [get_tab_by_number] *)
Definition get_tab_by_number (number : Z) : M Core (option Tab) :=
  (n <- len_tabs ;;
   if (0 <=? number) && (number <? n) then
     tab <- tabs_getitem number ;;
     ret (Some tab)
   else ret None)%py.

(** [add_tab]; the call of [command_win] is recorded, not followed. *)
Definition add_tab (new_tab : Tab) (focus : bool) : M Core unit :=
  (tabs_append new_tab ;;;
   if focus then
     self <- get ;;
     emit (command_win (str_of_int (nb new_tab (tabs self))))
   else ret tt)%py.

(** [c.lower()] for one character, of the first 256. *)
Definition lower_char (c : ascii) : ascii :=
  let n := nat_of_ascii c in
  if ((65 <=? n) && (n <=? 90)
      || (192 <=? n) && (n <=? 222) && negb (n =? 215))%nat
  then ascii_of_nat (n + 32) else c.

(** [s.lower()] *)
Fixpoint lower (s : string) : string :=
  match s with
  | EmptyString => EmptyString
  | String c s' => String (lower_char c) (lower s')
  end.

(** [on_gaps_config_change] *)
Definition on_gaps_config_change (option value : string) : M Core unit :=
  (if bool_decide (lower value = "false") then
     self <- get ;;
     put (set_tabs (List.filter tab_bool (tabs self)) self)
   else ret tt)%py.

(** [remove_timed_event]; [None] stands for an event that is false. *)
Definition remove_timed_event (event : option TimedEvent) : M Core unit :=
  match event with
  | None => ret tt
  | Some event =>
      (self <- get ;;
       if bool_decide (event_id event ∈ map event_id (timed_events self))
       then timed_events_remove event
       else ret tt)%py
  end.

(** The operations that change the list of tabs, [add_tab] among them. *)
Inductive core_op : Type :=
  | op_add_tab (new_tab : Tab) (focus : bool)
  | op_tab (op : tab_op).

Definition run_core_op (op : core_op) : M Core unit :=
  match op with
  | op_add_tab new_tab focus => add_tab new_tab focus
  | op_tab op => run_op op
  end.

Fixpoint run_core_ops (ops : list core_op) (self : Core) : Core :=
  match ops with
  | [] => self
  | op :: ops' => run_core_ops ops' (snd (run_core_op op self))
  end.

(** The tab that an operation adds, if it adds one. *)
Definition added_tab (op : core_op) : option Tab :=
  match op with
  | op_add_tab new_tab _ => Some new_tab
  | op_tab _ => None
  end.

(** *** core/core.py: the attributes that [close_tab] deletes *)

(** Modelled from the spec: a tab (tabs.py) is made with the attributes
    [key_func] and [commands]. The core, with the tabs that have lost
    these attributes: [deleted] holds their identities. *)
Record CoreTabs : Type := mkCoreTabs {
  core : Core;
  deleted : gset nat
}.

(** A method of the core, which does not touch the attributes of a tab. *)
Definition in_core {A} (c : M Core A) : M CoreTabs A :=
  fun s => let '(out, self) := c (core s) in (out, mkCoreTabs self (deleted s)).

(** [del tab.key_func] and [del tab.commands]: [del] of an attribute that
    the object has no more raises [AttributeError]. *)
Definition del_attributes (tab : Tab) : M CoreTabs unit :=
  (s <- get ;;
   if bool_decide (tab_id tab ∈ deleted s) then raise AttributeError
   else put (mkCoreTabs (core s) ({[tab_id tab]} ∪ deleted s)))%py.

(** The whole of [close_tab]: the parts of [close_tab], with the deletion
    of the attributes of the tab, which comes after the test of the roster
    tab and before the call of [on_close]. *)
Definition close_tab_whole (tab : option Tab) : M CoreTabs unit :=
  (t <- in_core (close_tab_which tab) ;;
   if isinstance t RosterInfoTab then ret tt
   else
     del_attributes t ;;;
     in_core (emit (on_close t) ;;; close_tab_list t ;;; close_tab_cursor))%py.

(** *** core/core.py: the information window *)

(** The attribute [information_win_size] of the core, and the delayed
    events that [pop_information_win_up] has made: the delay of each, and
    the number of lines that [shrink_information_win] gets from it. *)
Record InfoWin : Type := mkInfoWin {
  information_win_size : Z;
  delayed_shrinks : list (Z * Z)
}.

Definition set_information_win_size (v : Z) (w : InfoWin) : InfoWin :=
  mkInfoWin v (delayed_shrinks w).

(** [grow_information_win]; [height] is the height of the current tab. The
    resizing and the refreshing of the windows are left out. *)
Definition grow_information_win (height nb : Z) : M InfoWin Z :=
  (self <- get ;;
   if (information_win_size self >=? height - 5)
      || (information_win_size self + nb >=? height - 4) then ret 0
   else if information_win_size self =? 14 then ret 0
   else
     put (set_information_win_size (information_win_size self + nb) self) ;;;
     self <- get ;;
     if information_win_size self >? 14 then
       let nb := nb - (information_win_size self - 14) in
       put (set_information_win_size 14 self) ;;;
       ret nb
     else ret nb)%py.

(** [shrink_information_win], with the same parts left out. *)
Definition shrink_information_win (nb : Z) : M InfoWin unit :=
  (self <- get ;;
   if information_win_size self =? 0 then ret tt
   else
     put (set_information_win_size (information_win_size self - nb) self) ;;;
     self <- get ;;
     if information_win_size self <? 0 then
       put (set_information_win_size 0 self)
     else ret tt)%py.

(** [pop_information_win_up]: the delayed event is put with the others. *)
Definition pop_information_win_up (height size time : Z) : M InfoWin unit :=
  (if (time <=? 0) || (size <=? 0) then ret tt
   else
     result <- grow_information_win height size ;;
     self <- get ;;
     put (mkInfoWin (information_win_size self)
            (delayed_shrinks self ++ [(time, result)])))%py.

(** The two operations on the size of the information window. *)
Inductive info_op : Type :=
  | op_grow (height nb : Z)
  | op_shrink (nb : Z).

Definition run_info_op (op : info_op) : M InfoWin unit :=
  match op with
  | op_grow height nb => (grow_information_win height nb ;;; ret tt)%py
  | op_shrink nb => shrink_information_win nb
  end.

Fixpoint run_info_ops (ops : list info_op) (w : InfoWin) : InfoWin :=
  match ops with
  | [] => w
  | op :: ops' => run_info_ops ops' (snd (run_info_op op w))
  end.

(** The number of lines of an operation. *)
Definition info_op_nb (op : info_op) : Z :=
  match op with
  | op_grow _ nb => nb
  | op_shrink nb => nb
  end.

(** *** core/core.py: the commands *)

(** The methods of [str] that [execute] calls, on strings of characters of
    the first 256. *)
Module PyStr.

(** [c.isspace()] *)
Definition isspace (c : ascii) : bool :=
  let n := nat_of_ascii c in
  ((9 <=? n) && (n <=? 13) || (28 <=? n) && (n <=? 32)
   || (n =? 133) || (n =? 160))%nat.




(** [s.split()]: the words between the runs of white space; [current] is
    the word that is being read. *)
Fixpoint split_loop (current s : string) : list string :=
  match s with
  | EmptyString => match current with EmptyString => [] | _ => [current] end
  | String c s' =>
      if isspace c then
        match current with EmptyString => [] | _ => [current] end
        ++ split_loop EmptyString s'
      else split_loop (current +:+ String c EmptyString) s'
  end.

Definition split (s : string) : list string := split_loop EmptyString s.


End PyStr.

(** [Command] (structs.py), as [register_command] makes it and [execute]
    reads it: the function, which is its first field, the description, the
    completion, the short description and the usage. A function is known
    by its identity. *)
Module Command.
Record t : Type := mk {
  func : nat;
  desc : string;
  completion : option nat;
  shortdesc : string;
  usage : string
}.
End Command.
Abbreviation Command := Command.t.

(** What [execute] calls: the function of a command with its argument, or
    [information] with the message of an unknown command. *)
Inductive command_call : Type :=
  | func_call (func : nat) (arg : string)
  | information_unknown_command (command : string).

(** The dictionary [commands] of the core, and the calls that [execute]
    has made. *)
Record Commands : Type := mkCommands {
  commands : gmap string Command;
  command_calls : list command_call
}.

(** [register_command] *)
Definition register_command (name : string) (func : nat)
    (desc shortdesc : string) (completion : option nat) (usage : string)
    : M Commands unit :=
  (self <- get ;;
   if bool_decide (is_Some (commands self !! name)) then ret tt
   else
     let desc :=
       if bool_decide (desc = "") && negb (bool_decide (shortdesc = ""))
       then shortdesc else desc in
     put (mkCommands
            (<[name := Command.mk func desc completion shortdesc usage]>
               (commands self))
            (command_calls self)))%py.


(** *** core/core.py: what the further properties are stated with *)

(** The key that [separate_chars_from_bindings] puts in its lists for a key
    read; [n] is the number of the keys read together. *)
Definition separated_key (n : nat) (char : string) : string :=
  if bool_decide (char = String "031"%char EmptyString) then "^/"
  else if bool_decide (char = "^I") && negb (n =? 1)%nat
       then String "009"%char EmptyString
       else char.

(** A list of keys of one character each. *)
Definition plain (keys : list string) : Prop :=
  Forall (fun key => len key = 1%nat) keys.

(** The list of the run [keys], when it has a key. *)
Definition run_of (keys : list string) : list (list string) :=
  match keys with
  | [] => []
  | _ => [keys]
  end.

(** No two lists that stand next to each other are both plain. *)
Fixpoint alternate (lists : list (list string)) : Prop :=
  match lists with
  | [] => True
  | g :: lists' =>
      match lists' with
      | [] => True
      | g' :: _ => ~ (plain g /\ plain g')
      end /\ alternate lists'
  end.

(** The tabs strictly between the positions [a] and [b] are Gaps. *)
Definition gaps_between (l : list Tab) (a b : nat) : Prop :=
  forall i g, (a < i < b)%nat -> l !! i = Some g -> tab_bool g = false.

(** [j] is the position after [c] in the round of the tabs that are no
    Gap: the next position that has no Gap between, or 0 after the last
    position. *)
Definition next_right (l : list Tab) (c j : nat) : Prop :=
  ((c < j)%nat /\ gaps_between l c j) \/ (S c = length l /\ j = 0%nat).

(** [j] is the position before [c] in that round. *)
Definition next_left (l : list Tab) (c j : nat) : Prop :=
  ((j < c)%nat /\ gaps_between l j c) \/ (c = 0%nat /\ S j = length l).

(** ** Properties of the message buffer *)

Section TextBufferFacts.
Context {env : TextEnv}.

Lemma make_message_fields now txt time nickname nick_color history user
    identifier str_time highlight old revisions :
  let m := make_message now txt time nickname nick_color history user
             identifier str_time highlight old revisions in
  Message.old_message m = old /\ Message.revisions m = revisions /\
  Message.identifier m = identifier /\ Message.user m = user /\
  Message.str_time m =
    match str_time with
    | None => if history then strftime_date_time (default now time)
              else strftime_time (default now time)
    | Some _ => ""
    end.
Proof.
  unfold make_message. cbv zeta.
  destruct (String.prefix "/me " txt); cbn; auto.
Qed.

Lemma modify_loop_found now txt old_id new_id highlight time user b :
  forall k i msg,
    (i < k <= length (messages b))%nat ->
    messages b !! i = Some msg ->
    Message.identifier msg = old_id ->
    (forall j m, (i < j < k)%nat -> messages b !! j = Some m ->
                 Message.identifier m <> old_id) ->
    modify_loop now k txt old_id new_id highlight time user b =
    replace_message now i msg txt new_id highlight time user b.
Proof.
  induction k as [|k IH]; intros i msg Hik Hi Hid Hlater; [lia|].
  cbn [modify_loop]. unfold bind at 1, get at 1.
  destruct (decide (i = k)) as [->|Hne].
  - rewrite Hi. rewrite bool_decide_eq_true_2 by done. done.
  - destruct (lookup_lt_is_Some_2 (messages b) k) as [m Hm]; [lia|].
    rewrite Hm. rewrite bool_decide_eq_false_2.
    + apply IH; try done; try lia. intros j m' Hj. apply Hlater. lia.
    + apply (Hlater k m); [lia|done].
Qed.

Lemma modify_loop_not_found now txt old_id new_id highlight time user b :
  forall k,
    (k <= length (messages b))%nat ->
    (forall j m, (j < k)%nat -> messages b !! j = Some m ->
                 Message.identifier m <> old_id) ->
    modify_loop now k txt old_id new_id highlight time user b =
    (Raise (CorrectionError "nothing to replace"), b).
Proof.
  induction k as [|k IH]; intros Hk Hnone; [done|].
  cbn [modify_loop]. unfold bind at 1, get at 1.
  destruct (lookup_lt_is_Some_2 (messages b) k) as [m Hm]; [lia|].
  rewrite Hm. rewrite bool_decide_eq_false_2.
  - apply IH; [lia|]. intros j m' Hj. apply Hnone. lia.
  - apply (Hnone k m); [lia|done].
Qed.

(** The scan either meets a latest message with the identifier or none. *)
Lemma latest_match_or_none (l : list Message) (old_id : option string) :
  (exists i msg, latest_match l old_id i msg) \/ no_match l old_id.
Proof.
  induction l as [|m l IH] using rev_ind.
  - right. intros j m Hj. by rewrite lookup_nil in Hj.
  - destruct (decide (Message.identifier m = old_id)) as [Hid|Hid].
    + left. exists (length l), m. split; [|split; [done|]].
      * by rewrite lookup_app_r, Nat.sub_diag.
      * intros j m' Hj Hm'. apply lookup_lt_Some in Hm'.
        rewrite length_app in Hm'. cbn in Hm'. lia.
    + destruct IH as [(i & msg & Hi & Hmsg & Hlater)|Hnone].
      * left. exists i, msg. split; [|split; [done|]].
        -- rewrite lookup_app_l; [done|]. by eapply lookup_lt_Some.
        -- intros j m' Hj Hm'.
           destruct (decide (j < length l)%nat) as [Hlt|Hge].
           ++ rewrite lookup_app_l in Hm' by done. by eapply Hlater.
           ++ rewrite lookup_app_r in Hm' by lia.
              destruct (j - length l)%nat; by simplify_eq/=.
      * right. intros j m' Hm'.
        destruct (decide (j < length l)%nat) as [Hlt|Hge].
        -- rewrite lookup_app_l in Hm' by done. by eapply Hnone.
        -- rewrite lookup_app_r in Hm' by lia.
           destruct (j - length l)%nat; by simplify_eq/=.
Qed.

Lemma modify_message_found now txt old_id new_id highlight time user b i msg :
  latest_match (messages b) old_id i msg ->
  modify_message now txt old_id new_id highlight time user b =
  replace_message now i msg txt new_id highlight time user b.
Proof.
  intros (Hi & Hid & Hlater). unfold modify_message.
  unfold bind, get. apply modify_loop_found; try done.
  - split; [by eapply lookup_lt_Some|done].
  - intros j m Hj. apply Hlater. lia.
Qed.

Lemma modify_message_not_found now txt old_id new_id highlight time user b :
  no_match (messages b) old_id ->
  modify_message now txt old_id new_id highlight time user b =
  (Raise (CorrectionError "nothing to replace"), b).
Proof.
  intros Hnone. unfold modify_message. unfold bind, get.
  apply modify_loop_not_found; [done|]. intros j m _. apply Hnone.
Qed.

Lemma replace_message_returns now i msg txt new_id highlight time user b
    message b' :
  replace_message now i msg txt new_id highlight time user b =
    (Return message, b') ->
  message =
    make_message now txt (Some (default (Message.time msg) time))
      (Message.nickname msg) (Message.nick_color msg) false
      (Message.user msg) new_id None highlight (Some msg)
      (Message.revisions msg + 1) /\
  b' = set_messages (<[i := message]> (messages b)) b.
Proof.
  unfold replace_message.
  destruct (_ && _); [discriminate|].
  destruct (_ >? 8); [discriminate|].
  unfold bind, get, put, ret. intros [= <- <-]. done.
Qed.

Lemma replace_message_raises now i msg txt new_id highlight time user b
    e b' :
  replace_message now i msg txt new_id highlight time user b =
    (Raise e, b') ->
  b' = b /\
  (e = CorrectionError "wrong user" \/ e = CorrectionError "delayed message").
Proof.
  unfold replace_message.
  destruct (_ && _); [intros [= <- <-]; auto|].
  destruct (_ >? 8); [intros [= <- <-]; auto|].
  unfold bind, get, put, ret. discriminate.
Qed.

Lemma replace_message_total now i msg txt new_id highlight time user b :
  fst (replace_message now i msg txt new_id highlight time user b) <> Diverge.
Proof.
  unfold replace_message.
  destruct (_ && _); [done|]. destruct (_ >? 8); done.
Qed.

Lemma previous_revision_older n : forall m m1 m0,
  previous_revision n m = Some m1 ->
  Message.old_message m1 = Some m0 ->
  previous_revision (S n) m = Some m0.
Proof.
  induction n as [|n IH]; intros m m1 m0 Hn Hold.
  - cbn in Hn. injection Hn as ->. cbn. by rewrite Hold.
  - cbn in Hn. cbn [previous_revision].
    destruct (Message.old_message m) as [m'|]; [|done].
    by apply (IH m' m1 m0).
Qed.

Lemma corrections_of_chain i cs b b' :
  corrections_of i cs b b' ->
  forall m0, messages b !! i = Some m0 ->
  exists m, messages b' !! i = Some m /\
    Message.revisions m = Message.revisions m0 + Z.of_nat (length cs) /\
    previous_revision (length cs) m = Some m0.
Proof.
  induction 1 as [b|c cs b b1 b2 msg message Hlatest Hcall _ IH];
    intros m0 Hm0.
  - exists m0. cbn. split; [done|]. split; [lia|done].
  - unfold correct in Hcall.
    rewrite (modify_message_found _ _ _ _ _ _ _ _ _ _ Hlatest) in Hcall.
    apply replace_message_returns in Hcall as [Hmessage ->].
    destruct Hlatest as (Hi & _ & _).
    assert (msg = m0) as -> by congruence.
    destruct (IH message) as (m & Hm & Hrev & Hprev).
    { cbn. apply list_lookup_insert_eq. by eapply lookup_lt_Some. }
    exists m. split; [done|].
    pose proof (make_message_fields (c_now c) (c_txt c)
      (Some (default (Message.time m0) (c_time c))) (Message.nickname m0)
      (Message.nick_color m0) false (Message.user m0) (c_new_id c) None
      (c_highlight c) (Some m0) (Message.revisions m0 + 1)) as Hf.
    cbv zeta in Hf. rewrite <- Hmessage in Hf.
    destruct Hf as (Hold & Hrevs & _).
    split.
    + rewrite Hrev, Hrevs. cbn [length]. lia.
    + cbn [length].
      (* the chain below [m] ends with [message], whose predecessor is [m0] *)
      by eapply previous_revision_older.
Qed.

Lemma corrections_of_step i c cs b b2 msg :
  latest_match (messages b) (c_old_id c) i msg ->
  (exists message, fst (correct c b) = Return message) ->
  corrections_of i cs (snd (correct c b)) b2 ->
  corrections_of i (c :: cs) b b2.
Proof.
  intros Hlatest [message Hmessage] Hrest.
  apply (corrections_cons i c cs b (snd (correct c b)) b2 msg message);
    try done.
  destruct (correct c b) as [out b1]. cbn in Hmessage. by subst out.
Qed.

(** Corrections that all name the identifier [id], in a buffer where one
    message at most has it, all correct the message of one position. *)
Lemma correct_all_same_id id i : forall cs b m0 l b',
  (forall c, c ∈ cs -> c_old_id c = id) ->
  latest_match (messages b) id i m0 ->
  (forall j m, messages b !! j = Some m -> Message.identifier m = id ->
               j = i) ->
  correct_all cs b = (Return l, b') ->
  corrections_of i cs b b'.
Proof.
  induction cs as [|c cs IH]; intros b m0 l b' Hid Hlatest Huniq Hrun.
  - cbn in Hrun. injection Hrun as _ <-. apply corrections_nil.
  - cbn [correct_all] in Hrun. unfold bind in Hrun.
    destruct (correct c b) as [[message|e|] b1] eqn:Hcall; try discriminate.
    destruct (correct_all cs b1) as [[l'|e|] b2] eqn:Hrest; try discriminate.
    injection Hrun as _ <-.
    assert (c_old_id c = id) as Hc by (apply Hid; left).
    rewrite <- Hc in Hlatest.
    apply (corrections_cons i c cs b b1 b2 m0 message Hlatest Hcall).
    unfold correct in Hcall.
    rewrite (modify_message_found _ _ _ _ _ _ _ _ _ _ Hlatest) in Hcall.
    apply replace_message_returns in Hcall as [Hmessage ->].
    pose proof (make_message_fields (c_now c) (c_txt c)
      (Some (default (Message.time m0) (c_time c))) (Message.nickname m0)
      (Message.nick_color m0) false (Message.user m0) (c_new_id c) None
      (c_highlight c) (Some m0) (Message.revisions m0 + 1)) as Hf.
    cbv zeta in Hf. rewrite <- Hmessage in Hf.
    destruct Hf as (_ & _ & Hnew & _).
    destruct Hlatest as (Hi & _ & Hlater). apply lookup_lt_Some in Hi as Hlt.
    rewrite Hc in Hlater.
    destruct cs as [|c' cs].
    { cbn in Hrest. injection Hrest as _ <-. apply corrections_nil. }
    destruct (decide (c_new_id c = id)) as [Hsame|Hother].
    + apply (IH _ message l'); try done.
      * intros c0 Hc0. apply Hid. by right.
      * cbn [messages set_messages]. split; [|split].
        -- by apply list_lookup_insert_eq.
        -- congruence.
        -- intros j m Hj Hm. rewrite list_lookup_insert_ne in Hm by lia.
           by apply (Hlater j m).
      * cbn [messages set_messages]. intros j m Hm Hidm.
        destruct (decide (j = i)) as [|Hne]; [done|].
        rewrite list_lookup_insert_ne in Hm by done. by apply (Huniq j m).
    + exfalso. cbn [correct_all] in Hrest. unfold bind in Hrest.
      assert (c_old_id c' = id) as Hc' by (apply Hid; right; left).
      unfold correct at 1 in Hrest.
      rewrite modify_message_not_found in Hrest; [discriminate|].
      rewrite Hc'. cbn [messages set_messages]. intros j m Hm Hidm.
      destruct (decide (j = i)) as [->|Hne].
      * rewrite list_lookup_insert_eq in Hm by done. congruence.
      * rewrite list_lookup_insert_ne in Hm by done.
        by apply Hne, (Huniq j m).
Qed.

(** C1. A call of [modify_message] that returns, with [msg] the latest
    message having the identifier [old_id] and standing at position [i],
    returns a message whose [old_message] is [msg] and whose [revisions] is
    one more than those of [msg], and stores it at position [i] of a list
    of the same length, whose other positions are unchanged. Hence after
    [N] calls that return and each correct the message at position [i],
    starting with a message that has no revision, position [i] holds a
    message with [revisions = N] from which [N] steps along [old_message]
    lead to the first message, which has no [old_message]; such are [N]
    calls that return and all name one identifier, when one message at most
    of the buffer has it. *)
Theorem correction_chain_integrity :
  (forall b i msg now txt old_id new_id highlight time user message b',
     latest_match (messages b) old_id i msg ->
     modify_message now txt old_id new_id highlight time user b =
       (Return message, b') ->
     Message.old_message message = Some msg /\
     Message.revisions message = Message.revisions msg + 1 /\
     Message.identifier message = new_id /\
     messages b' !! i = Some message /\
     length (messages b') = length (messages b) /\
     (forall j, j <> i -> messages b' !! j = messages b !! j) /\
     messages_nb_limit b' = messages_nb_limit b /\
     windows b' = windows b)
  /\
  (forall i cs b b' m0,
     corrections_of i cs b b' ->
     messages b !! i = Some m0 ->
     Message.revisions m0 = 0 ->
     Message.old_message m0 = None ->
     exists m root,
       messages b' !! i = Some m /\
       Message.revisions m = Z.of_nat (length cs) /\
       previous_revision (length cs) m = Some root /\
       Message.old_message root = None)
  /\
  (forall id i cs b l b' m0,
     (forall c, c ∈ cs -> c_old_id c = id) ->
     latest_match (messages b) id i m0 ->
     (forall j m, messages b !! j = Some m -> Message.identifier m = id ->
                  j = i) ->
     Message.revisions m0 = 0 ->
     Message.old_message m0 = None ->
     correct_all cs b = (Return l, b') ->
     exists m root,
       messages b' !! i = Some m /\
       Message.revisions m = Z.of_nat (length cs) /\
       previous_revision (length cs) m = Some root /\
       Message.old_message root = None).
Proof.
  split; [|split].
  - intros b i msg now txt old_id new_id highlight time user message b'
      Hlatest Hcall.
    rewrite (modify_message_found _ _ _ _ _ _ _ _ _ _ Hlatest) in Hcall.
    apply replace_message_returns in Hcall as [Hmessage ->].
    pose proof (make_message_fields now txt
      (Some (default (Message.time msg) time)) (Message.nickname msg)
      (Message.nick_color msg) false (Message.user msg) new_id None
      highlight (Some msg) (Message.revisions msg + 1)) as Hf.
    cbv zeta in Hf. rewrite <- Hmessage in Hf.
    destruct Hf as (Hold & Hrevs & Hid & _).
    destruct Hlatest as (Hi & _ & _). apply lookup_lt_Some in Hi.
    cbn. repeat split; try done.
    + by apply list_lookup_insert_eq.
    + by rewrite length_insert.
    + intros j Hj. by apply list_lookup_insert_ne.
  - intros i cs b b' m0 Hrun Hm0 Hrev Hold.
    destruct (corrections_of_chain _ _ _ _ Hrun m0 Hm0) as (m & Hm & Hr & Hp).
    exists m, m0. repeat split; try done. lia.
  - intros id i cs b l b' m0 Hid Hlatest Huniq Hrev Hold Hrun.
    pose proof (correct_all_same_id id i cs b m0 l b' Hid Hlatest Huniq Hrun)
      as Hslot.
    destruct Hlatest as (Hm0 & _).
    destruct (corrections_of_chain _ _ _ _ Hslot m0 Hm0) as (m & Hm & Hr & Hp).
    exists m, m0. repeat split; try done. lia.
Qed.

(** C6. A call of [modify_message] that does not return a message raises
    [CorrectionError] and leaves the buffer as it was; this is what happens
    when no message has the identifier, when the latest message that has
    it carries a user other than the one supplied, and when its [str_time]
    is longer than 8 characters. *)
Theorem correction_rejected_unchanged :
  forall b now txt old_id new_id highlight time user,
    let r := modify_message now txt old_id new_id highlight time user b in
    (no_match (messages b) old_id ->
       r = (Raise (CorrectionError "nothing to replace"), b)) /\
    (forall i msg u,
       latest_match (messages b) old_id i msg ->
       Message.user msg = Some u -> user <> Some u ->
       r = (Raise (CorrectionError "wrong user"), b)) /\
    (forall i msg,
       latest_match (messages b) old_id i msg ->
       (8 < String.length (Message.str_time msg))%nat ->
       exists reason, r = (Raise (CorrectionError reason), b)) /\
    ((forall message, fst r <> Return message) ->
       exists reason, r = (Raise (CorrectionError reason), b)).
Proof.
  intros b now txt old_id new_id highlight time user r. subst r.
  split; [|split; [|split]].
  - apply modify_message_not_found.
  - intros i msg u Hlatest Hu Hne.
    rewrite (modify_message_found _ _ _ _ _ _ _ _ _ _ Hlatest).
    unfold replace_message. rewrite Hu.
    rewrite bool_decide_eq_true_2 by (by eexists).
    rewrite bool_decide_eq_false_2 by congruence. done.
  - intros i msg Hlatest Hlong.
    rewrite (modify_message_found _ _ _ _ _ _ _ _ _ _ Hlatest).
    unfold replace_message.
    destruct (_ && _); [by eexists|].
    destruct (Z.gtb_spec (Z.of_nat (String.length (Message.str_time msg))) 8);
      [by eexists|lia].
  - intros Hfail.
    destruct (latest_match_or_none (messages b) old_id)
      as [(i & msg & Hlatest)|Hnone].
    + rewrite (modify_message_found _ _ _ _ _ _ _ _ _ _ Hlatest) in *.
      destruct (replace_message now i msg txt new_id highlight time user b)
        as [[message|e|] b'] eqn:Hcall.
      * by destruct (Hfail message).
      * apply replace_message_raises in Hcall as [-> [->| ->]]; by eexists.
      * pose proof (replace_message_total now i msg txt new_id highlight
          time user b) as Hnd. rewrite Hcall in Hnd. done.
    + rewrite modify_message_not_found by done. by eexists.
Qed.

(** C10. A message made with a [str_time] argument has the empty
    [str_time], whatever the argument; so [modify_message] never raises
    the delayed-message error when the latest message with the identifier
    was made that way. *)
Theorem supplied_str_time_discarded :
  forall now txt time nickname nick_color history user identifier s
         highlight old revisions,
    let msg := make_message now txt time nickname nick_color history user
                 identifier (Some s) highlight old revisions in
    Message.str_time msg = "" /\
    forall b i now' txt' new_id highlight' time' user',
      latest_match (messages b) identifier i msg ->
      fst (modify_message now' txt' identifier new_id highlight' time'
             user' b)
      <> Raise (CorrectionError "delayed message").
Proof.
  intros now txt time nickname nick_color history user identifier s
    highlight old revisions msg.
  assert (Message.str_time msg = "") as Hstr.
  { subst msg. unfold make_message.
    destruct (String.prefix "/me " txt); done. }
  split; [done|].
  intros b i now' txt' new_id highlight' time' user' Hlatest.
  rewrite (modify_message_found _ _ _ _ _ _ _ _ _ _ Hlatest).
  unfold replace_message. rewrite Hstr.
  destruct (_ && _); [cbn; congruence|]. cbn. done.
Qed.

Lemma evict_drop limit : forall l,
  0 <= limit ->
  evict limit l = Return (drop (length l - Z.to_nat limit) l).
Proof.
  induction l as [|m l IH]; intros Hlimit.
  - cbn [evict length]. rewrite drop_nil.
    destruct (Z.gtb_spec (Z.of_nat 0) limit); [lia|done].
  - cbn [evict].
    destruct (Z.gtb_spec (Z.of_nat (length (m :: l))) limit) as [Hgt|Hle].
    + rewrite IH by done. cbn [length] in *.
      replace (S (length l) - Z.to_nat limit)%nat
        with (S (length l - Z.to_nat limit)) by lia.
      done.
    + cbn [length] in *.
      replace (S (length l) - Z.to_nat limit)%nat with 0%nat by lia.
      done.
Qed.

Lemma evict_negative limit l : limit < 0 -> evict limit l = Raise IndexError.
Proof.
  intros Hlimit. induction l as [|m l IH]; cbn [evict].
  - destruct (Z.gtb_spec (Z.of_nat (length (@nil Message))) limit);
      [done|cbn in *; lia].
  - destruct (Z.gtb_spec (Z.of_nat (length (m :: l))) limit); [done|lia].
Qed.

Lemma append_messages a b :
  0 <= messages_nb_limit b ->
  exists nb b',
    append a b = (Return nb, b') /\
    messages_nb_limit b' = messages_nb_limit b /\
    messages b' =
      drop (length (messages b ++ [appended a])
            - Z.to_nat (messages_nb_limit b))
        (messages b ++ [appended a]).
Proof.
  intros Hlimit. unfold append, add_message, appended.
  unfold bind at 1, get at 1. unfold bind at 1, put at 1.
  unfold bind at 1, get at 1. cbn [messages messages_nb_limit set_messages].
  rewrite evict_drop by done.
  unfold bind, get, put, ret. cbn [windows set_messages].
  destruct (notify_windows _ _ _ _ _) as [ret_val ws].
  eexists _, _. split; [reflexivity|]. done.
Qed.

(** Keeping the last [limit] messages after each arrival keeps the last
    [limit] of all of them. *)
Lemma drop_keep_last (limit : nat) (l r : list Message) :
  drop (length (drop (length l - limit) l ++ r) - limit)
    (drop (length l - limit) l ++ r) =
  drop (length (l ++ r) - limit) (l ++ r).
Proof.
  destruct (decide (length l <= limit)%nat) as [Hle|Hgt].
  - replace (length l - limit)%nat with 0%nat by lia. by rewrite drop_0.
  - rewrite !length_app, length_drop.
    replace (length l - (length l - limit) + length r - limit)%nat
      with (length r) by lia.
    replace (length l + length r - limit)%nat
      with ((length l - limit) + length r)%nat by lia.
    rewrite <- drop_drop.
    f_equal. rewrite drop_app_le by lia. done.
Qed.

Lemma append_all_messages adds : forall b,
  0 <= messages_nb_limit b ->
  (Z.of_nat (length (messages b)) <= messages_nb_limit b) ->
  exists b',
    append_all adds b = (Return tt, b') /\
    messages_nb_limit b' = messages_nb_limit b /\
    messages b' =
      drop (length (messages b ++ map appended adds)
            - Z.to_nat (messages_nb_limit b))
        (messages b ++ map appended adds).
Proof.
  induction adds as [|a adds IH]; intros b Hlimit Hlen.
  - exists b. cbn. rewrite app_nil_r.
    replace (length (messages b) - Z.to_nat (messages_nb_limit b))%nat
      with 0%nat by lia.
    done.
  - destruct (append_messages a b Hlimit) as (nb & b1 & Hcall & Hlim1 & Hmsgs1).
    destruct (IH b1) as (b' & Hrun & Hlim' & Hmsgs').
    { by rewrite Hlim1. }
    { rewrite Hlim1, Hmsgs1, length_drop. lia. }
    exists b'. cbn [append_all]. unfold bind. rewrite Hcall.
    split; [done|]. split; [congruence|].
    rewrite Hmsgs', Hlim1, Hmsgs1.
    rewrite drop_keep_last. cbn [map]. by rewrite <- app_assoc.
Qed.

(** C2. With a limit that is not negative, calls of [add_message] made one
    after the other on a buffer within its limit all return and leave the
    last [messages_nb_limit] of the messages held and added, in their
    order of arrival: never more than the limit (every state met on the
    way is the end of a shorter run), and exactly the limit when more
    messages than the limit were added. *)
Theorem bounded_log :
  forall b adds,
    0 <= messages_nb_limit b ->
    Z.of_nat (length (messages b)) <= messages_nb_limit b ->
    exists b',
      append_all adds b = (Return tt, b') /\
      messages_nb_limit b' = messages_nb_limit b /\
      (let all := messages b ++ map appended adds in
       messages b' =
         drop (length all - Z.to_nat (messages_nb_limit b)) all /\
       exists evicted, all = evicted ++ messages b') /\
      Z.of_nat (length (messages b')) <= messages_nb_limit b /\
      (messages_nb_limit b < Z.of_nat (length adds) ->
       Z.of_nat (length (messages b')) = messages_nb_limit b /\
       messages b' =
         drop (length adds - Z.to_nat (messages_nb_limit b))
           (map appended adds)).
Proof.
  intros b adds Hlimit Hlen.
  destruct (append_all_messages adds b Hlimit Hlen) as (b' & Hrun & Hlim & Hm).
  exists b'. split; [done|]. split; [done|].
  split; [|split].
  - cbv zeta. split; [done|].
    exists (take (length (messages b ++ map appended adds)
                  - Z.to_nat (messages_nb_limit b))
              (messages b ++ map appended adds)).
    by rewrite Hm, take_drop.
  - rewrite Hm, length_drop. lia.
  - intros Hmore. split.
    + rewrite Hm, length_drop, length_app, length_map. lia.
    + rewrite Hm, length_app, length_map.
      rewrite drop_app_ge by lia. f_equal. lia.
Qed.

End TextBufferFacts.

(** ** Properties of the tab list *)

Section PyListFacts.
Context {A : Type}.
Implicit Types l : list A.

Lemma norm_index_inrange (n : nat) (i : Z) :
  0 <= i < Z.of_nat n -> PyList.norm_index n i = Some (Z.to_nat i).
Proof.
  intros Hi. unfold PyList.norm_index.
  destruct (Z.leb_spec 0 i); [|lia].
  destruct (Z.ltb_spec i (Z.of_nat n)); [done|lia].
Qed.

Lemma norm_index_last (n : nat) :
  (0 < n)%nat -> PyList.norm_index n (-1) = Some (n - 1)%nat.
Proof.
  intros Hn. unfold PyList.norm_index. cbn [Z.leb Z.compare andb].
  destruct (Z.leb_spec (- Z.of_nat n) (-1)); [|lia].
  cbn. f_equal. lia.
Qed.

Lemma norm_index_is_Some (n : nat) (i : Z) (k : nat) :
  PyList.norm_index n i = Some k -> (k < n)%nat.
Proof.
  unfold PyList.norm_index.
  destruct (Z.leb_spec 0 i), (Z.ltb_spec i (Z.of_nat n)); cbn;
    try (intros [= <-]; lia);
    destruct (Z.leb_spec (- Z.of_nat n) i), (Z.ltb_spec i 0); cbn;
    try (intros [= <-]; lia); done.
Qed.

Lemma getitem_inrange l (i : Z) :
  0 <= i < Z.of_nat (length l) ->
  PyList.getitem l i = l !! Z.to_nat i.
Proof.
  intros Hi. unfold PyList.getitem. by rewrite norm_index_inrange.
Qed.

Lemma getitem_nat l (n : nat) (x : A) :
  l !! n = Some x -> PyList.getitem l (Z.of_nat n) = Some x.
Proof.
  intros Hn. rewrite getitem_inrange, Nat2Z.id; [done|].
  apply lookup_lt_Some in Hn. lia.
Qed.

Lemma setitem_inrange l (i : Z) (x : A) :
  0 <= i < Z.of_nat (length l) ->
  PyList.setitem l i x = Some (<[Z.to_nat i := x]> l).
Proof.
  intros Hi. unfold PyList.setitem. by rewrite norm_index_inrange.
Qed.

Lemma pop_at_inrange l (i : Z) :
  0 <= i < Z.of_nat (length l) ->
  PyList.pop_at l i = Some (delete (Z.to_nat i) l).
Proof.
  intros Hi. unfold PyList.pop_at. by rewrite norm_index_inrange.
Qed.

Lemma pop_snoc l (x : A) : PyList.pop (l ++ [x]) = Some l.
Proof.
  unfold PyList.pop, PyList.pop_at.
  rewrite norm_index_last by (rewrite length_app; cbn; lia).
  cbn. f_equal. rewrite length_app. cbn.
  replace (length l + 1 - 1)%nat with (length l) by lia.
  by rewrite delete_middle, app_nil_r.
Qed.
End PyListFacts.

Section PyListSearch.
Context `{EqDecision A}.
Implicit Types l : list A.

Lemma index_Some x l i :
  PyList.index x l = Some i <->
  l !! i = Some x /\ forall j, (j < i)%nat -> l !! j <> Some x.
Proof.
  revert i. induction l as [|y l IH]; intros i; cbn.
  - split; [done|]. intros [Hi _]. done.
  - destruct (decide (y = x)) as [->|Hne].
    + split.
      * intros [= <-]. split; [done|]. intros j Hj. lia.
      * intros [Hi Hfirst]. destruct i as [|i]; [done|].
        destruct (Hfirst 0%nat); [lia|done].
    + destruct (PyList.index x l) as [k|] eqn:Hk; cbn.
      * split.
        -- intros [= <-]. destruct (proj1 (IH k) eq_refl) as [Hk1 Hk2].
           split; [done|]. intros [|j] Hj; cbn; [congruence|].
           apply Hk2. lia.
        -- intros [Hi Hfirst]. destruct i as [|i]; cbn in Hi; [congruence|].
           f_equal. symmetry.
           assert (Some k = Some i) as [= ->]; [|done].
           apply IH. split; [done|]. intros j Hj.
           apply (Hfirst (S j)). lia.
      * split; [done|]. intros [Hi Hfirst].
        destruct i as [|i]; cbn in Hi; [congruence|].
        assert (None = Some i); [|done].
        apply IH. split; [done|]. intros j Hj. apply (Hfirst (S j)). lia.
Qed.

Lemma index_None x l : PyList.index x l = None <-> x ∉ l.
Proof.
  induction l as [|y l IH]; cbn.
  - split; [intros _; apply not_elem_of_nil|done].
  - destruct (decide (y = x)) as [->|Hne].
    + split; [done|]. intros []. left.
    + rewrite not_elem_of_cons. destruct (PyList.index x l); cbn.
      * split; [done|]. intros [_ Hl]. by apply IH in Hl.
      * split; [|done]. intros _. split; [done|]. by apply IH.
Qed.

Lemma index_elem_of x l :
  x ∈ l -> exists i, PyList.index x l = Some i.
Proof.
  intros Hx. destruct (PyList.index x l) as [i|] eqn:Hi; [by eexists|].
  by apply index_None in Hi.
Qed.

Lemma remove_index x l i :
  PyList.index x l = Some i -> PyList.remove x l = Some (delete i l).
Proof.
  revert i. induction l as [|y l IH]; intros i; cbn; [done|].
  destruct (decide (y = x)); [by intros [= <-]|].
  destruct (PyList.index x l) as [k|]; cbn; [|done].
  intros [= <-]. by rewrite (IH k).
Qed.

Lemma remove_None x l :
  PyList.index x l = None -> PyList.remove x l = None.
Proof.
  induction l as [|y l IH]; cbn; [done|].
  destruct (decide (y = x)); [done|].
  destruct (PyList.index x l); cbn; [done|]. intros _. by rewrite IH.
Qed.
End PyListSearch.

Section Monad.
Context {St A B : Type}.
Implicit Types (c : M St A) (k : A -> M St B).

Lemma bind_Return c k s a s' :
  c s = (Return a, s') -> bind c k s = k a s'.
Proof. unfold bind. by intros ->. Qed.

Lemma bind_Raise c k s e s' :
  c s = (Raise e, s') -> bind c k s = (Raise e, s').
Proof. unfold bind. by intros ->. Qed.

Lemma bind_Diverge c k s s' :
  c s = (Diverge, s') -> bind c k s = (Diverge, s').
Proof. unfold bind. by intros ->. Qed.
End Monad.

Section Gaps.
Implicit Types (l : list Tab) (t : Tab).

Lemma tab_bool_isinstance t : isinstance t GapTab = negb (tab_bool t).
Proof. unfold tab_bool. by rewrite negb_involutive. Qed.

Lemma roster_tab_bool t : isinstance t RosterInfoTab = true -> tab_bool t = true.
Proof.
  unfold tab_bool, isinstance. intros Hr%bool_decide_eq_true.
  rewrite Hr. done.
Qed.

Lemma strip_gaps_snoc l t :
  strip_gaps (l ++ [t]) = if tab_bool t then l ++ [t] else strip_gaps l.
Proof.
  induction l as [|t' l IH]; cbn.
  - by destruct (tab_bool t).
  - rewrite IH. destruct (tab_bool t); [|done].
    by destruct l.
Qed.

Lemma strip_gaps_prefix l : exists k, strip_gaps l = take k l.
Proof.
  induction l as [|t l IH] using rev_ind.
  - by exists 0%nat.
  - rewrite strip_gaps_snoc. destruct (tab_bool t).
    + exists (length (l ++ [t])). by rewrite firstn_all.
    + destruct IH as [k ->]. exists (k `min` length l)%nat.
      rewrite take_app_le by lia.
      by rewrite <- take_take, firstn_all.
Qed.

Lemma strip_gaps_lookup l j t :
  l !! j = Some t -> tab_bool t = true -> strip_gaps l !! j = Some t.
Proof.
  induction l as [|t' l IH] using rev_ind; [done|].
  intros Hj Ht. rewrite strip_gaps_snoc.
  destruct (tab_bool t') eqn:Ht'; [done|].
  apply IH; [|done].
  destruct (decide (j < length l)%nat).
  - by rewrite lookup_app_l in Hj.
  - rewrite lookup_app_r in Hj by lia.
    destruct (j - length l)%nat; simplify_eq/=. congruence.
Qed.

Lemma strip_gaps_lookup_inv l j t :
  strip_gaps l !! j = Some t -> l !! j = Some t.
Proof.
  destruct (strip_gaps_prefix l) as [k ->].
  intros Hj. by apply lookup_take_Some in Hj as [? ?].
Qed.

Lemma strip_gaps_last l t : last (strip_gaps l) = Some t -> tab_bool t = true.
Proof.
  induction l as [|t' l IH] using rev_ind; [done|].
  rewrite strip_gaps_snoc. destruct (tab_bool t') eqn:Ht'; [|done].
  rewrite last_snoc. by intros [= <-].
Qed.

Lemma strip_gaps_id l :
  (forall t, last l = Some t -> tab_bool t = true) -> strip_gaps l = l.
Proof.
  destruct l as [|t' l _] using rev_ind; [done|].
  intros Hlast. rewrite strip_gaps_snoc.
  rewrite (Hlast t'); [done|]. by rewrite last_snoc.
Qed.

Lemma delete_gap_after_ge i l :
  (length l <= S i)%nat -> delete_gap_after i l = l.
Proof.
  intros Hi. unfold delete_gap_after.
  rewrite drop_ge, firstn_all2 by lia. cbn. by rewrite app_nil_r.
Qed.

Lemma delete_gap_after_gap i l t :
  l !! S i = Some t -> tab_bool t = false ->
  delete_gap_after i l = delete (S i) l.
Proof.
  intros Hi Ht. unfold delete_gap_after.
  rewrite (drop_S l t (S i)) by done. cbn. rewrite Ht.
  by rewrite delete_take_drop.
Qed.

Lemma delete_gap_after_tab i l t :
  l !! S i = Some t -> tab_bool t = true ->
  delete_gap_after i l = delete_gap_after (S i) l.
Proof.
  intros Hi Ht. unfold delete_gap_after.
  rewrite (drop_S l t (S i)) by done. cbn. rewrite Ht.
  rewrite (take_S_r l (S i) t) by done. by rewrite <- app_assoc.
Qed.

Lemma delete_gap_after_lookup_le i l j :
  (j <= i)%nat -> delete_gap_after i l !! j = l !! j.
Proof.
  intros Hj. unfold delete_gap_after.
  destruct (decide (j < length l)%nat) as [Hlt|Hge].
  - rewrite lookup_app_l by (rewrite length_take; lia).
    apply lookup_take_lt. lia.
  - rewrite (lookup_ge_None_2 l) by lia.
    rewrite drop_ge, firstn_all2 by lia. cbn. rewrite app_nil_r.
    apply lookup_ge_None_2. lia.
Qed.

Lemma delete_first_gap_lookup l : forall k t,
  l !! k = Some t -> tab_bool t = true ->
  delete_first_gap l !! k = Some t \/
  exists k', k = S k' /\ delete_first_gap l !! k' = Some t.
Proof.
  induction l as [|x l IH]; intros k t Hk Ht; [done|].
  cbn [delete_first_gap]. destruct (tab_bool x) eqn:Hx.
  - destruct k as [|k]; [by left|]. cbn in Hk.
    destruct (IH k t Hk Ht) as [Hl|(k' & -> & Hl)]; [by left|].
    right. by exists (S k').
  - destruct k as [|k]; cbn in Hk; [congruence|].
    right. by exists k.
Qed.

Lemma delete_gap_after_lookup_gt i l k t :
  (i < k)%nat -> l !! k = Some t -> tab_bool t = true ->
  delete_gap_after i l !! k = Some t \/
  exists k', k = S k' /\ (i < k')%nat /\
             delete_gap_after i l !! k' = Some t.
Proof.
  intros Hik Hk Ht. unfold delete_gap_after.
  apply lookup_lt_Some in Hk as Hlen.
  assert (drop (S i) l !! (k - S i)%nat = Some t) as Hd.
  { rewrite lookup_drop. rewrite <- Hk. f_equal. lia. }
  destruct (delete_first_gap_lookup _ _ _ Hd Ht) as [Hl|(k' & Hk' & Hl)].
  - left. rewrite lookup_app_r by (rewrite length_take; lia).
    rewrite length_take. rewrite <- Hl. f_equal. lia.
  - right. exists (S i + k')%nat. split; [lia|]. split; [lia|].
    rewrite lookup_app_r by (rewrite length_take; lia).
    rewrite length_take. rewrite <- Hl. f_equal. lia.
Qed.
End Gaps.

Section Primitives.
Implicit Types (self : Core) (l : list Tab) (t : Tab).

Lemma set_tabs_id self : set_tabs (tabs self) self = self.
Proof. by destruct self. Qed.

Lemma snoc_cases l : l = [] \/ exists l' t, l = l' ++ [t].
Proof.
  destruct l as [|t l _] using rev_ind; [by left|]. right. by exists l, t.
Qed.

Lemma tabs_getitem_inrange self i t :
  0 <= i -> tabs self !! Z.to_nat i = Some t ->
  tabs_getitem i self = (Return t, self).
Proof.
  intros Hi Ht. unfold tabs_getitem, bind, get, lift_option.
  rewrite getitem_inrange, Ht; [done|].
  apply lookup_lt_Some in Ht. lia.
Qed.

Lemma tabs_getitem_empty self i :
  tabs self = [] -> tabs_getitem i self = (Raise IndexError, self).
Proof.
  intros Hempty. unfold tabs_getitem, bind, get, lift_option.
  rewrite Hempty. unfold PyList.getitem, PyList.norm_index. cbn [length].
  change (Z.of_nat 0) with 0. change (- 0) with 0.
  destruct (Z.leb_spec 0 i), (Z.ltb_spec i 0); try lia; done.
Qed.

Lemma tabs_getitem_nat self (n : nat) t :
  tabs self !! n = Some t -> tabs_getitem (Z.of_nat n) self = (Return t, self).
Proof.
  intros Ht. apply tabs_getitem_inrange; [lia|]. by rewrite Nat2Z.id.
Qed.

Lemma tabs_setitem_nat self (n : nat) t :
  (n < length (tabs self))%nat ->
  tabs_setitem (Z.of_nat n) t self =
  (Return tt, set_tabs (<[n := t]> (tabs self)) self).
Proof.
  intros Hn. unfold tabs_setitem, bind, get, lift_option.
  rewrite setitem_inrange by lia. by rewrite Nat2Z.id.
Qed.

Lemma tabs_pop_at_nat self (n : nat) :
  (n < length (tabs self))%nat ->
  tabs_pop_at (Z.of_nat n) self =
  (Return tt, set_tabs (delete n (tabs self)) self).
Proof.
  intros Hn. unfold tabs_pop_at, bind, get, lift_option.
  rewrite pop_at_inrange by lia. by rewrite Nat2Z.id.
Qed.

Lemma tabs_pop_snoc self l t :
  tabs self = l ++ [t] -> tabs_pop self = (Return tt, set_tabs l self).
Proof.
  intros Hl. unfold tabs_pop, bind, get, lift_option.
  by rewrite Hl, pop_snoc.
Qed.

Lemma tabs_remove_index self t (n : nat) :
  PyList.index t (tabs self) = Some n ->
  tabs_remove t self = (Return tt, set_tabs (delete n (tabs self)) self).
Proof.
  intros Hn. unfold tabs_remove, bind, get, lift_option.
  by rewrite (remove_index _ _ _ Hn).
Qed.

Lemma tabs_remove_absent self t :
  PyList.index t (tabs self) = None ->
  tabs_remove t self = (Raise ValueError, self).
Proof.
  intros Hn. unfold tabs_remove, bind, get, lift_option.
  by rewrite (remove_None _ _ Hn).
Qed.

Lemma tabs_index_Some self t (n : nat) :
  PyList.index t (tabs self) = Some n ->
  tabs_index t self = (Return (Z.of_nat n), self).
Proof.
  intros Hn. unfold tabs_index, bind, get, lift_option. by rewrite Hn.
Qed.
End Primitives.

Section Loops.
Implicit Types (self : Core) (l : list Tab) (t : Tab).

Lemma remove_trailing_gaps_strips fuel : forall self,
  (length (tabs self) < fuel)%nat ->
  strip_gaps (tabs self) <> [] ->
  remove_trailing_gaps fuel (Z.of_nat (length (tabs self)) - 1) self =
  (Return tt, set_tabs (strip_gaps (tabs self)) self).
Proof.
  induction fuel as [|fuel IH]; intros self Hfuel Hne; [lia|].
  destruct (snoc_cases (tabs self)) as [Hnil|(l & t & Hl)].
  { by rewrite Hnil in Hne. }
  cbn [remove_trailing_gaps].
  assert (tabs self !! length l = Some t) as Ht.
  { rewrite Hl, lookup_app_r, Nat.sub_diag by lia. done. }
  replace (Z.of_nat (length (tabs self)) - 1) with (Z.of_nat (length l))
    by (rewrite Hl, length_app; cbn; lia).
  rewrite (bind_Return _ _ _ _ _ (tabs_getitem_nat _ _ _ Ht)).
  rewrite Hl in Hne |- *. rewrite strip_gaps_snoc in Hne |- *.
  rewrite tab_bool_isinstance. destruct (tab_bool t); cbn [negb].
  - unfold ret. by rewrite <- Hl, set_tabs_id.
  - rewrite (bind_Return _ _ _ _ _ (tabs_pop_snoc _ _ _ Hl)).
    specialize (IH (set_tabs l self)). cbn [tabs set_tabs] in IH.
    rewrite IH; [done| |done].
    rewrite Hl, length_app in Hfuel. cbn in Hfuel. lia.
Qed.

Lemma close_trailing_gaps_strips fuel : forall self,
  (length (tabs self) < fuel)%nat ->
  strip_gaps (tabs self) <> [] ->
  close_trailing_gaps fuel (Z.of_nat (length (tabs self)) - 1) self =
  (Return tt, set_tabs (strip_gaps (tabs self)) self).
Proof.
  induction fuel as [|fuel IH]; intros self Hfuel Hne; [lia|].
  destruct (snoc_cases (tabs self)) as [Hnil|(l & t & Hl)].
  { by rewrite Hnil in Hne. }
  cbn [close_trailing_gaps].
  assert (tabs self !! length l = Some t) as Ht.
  { rewrite Hl, lookup_app_r, Nat.sub_diag by lia. done. }
  replace (Z.of_nat (length (tabs self)) - 1) with (Z.of_nat (length l))
    by (rewrite Hl, length_app; cbn; lia).
  rewrite (bind_Return _ _ _ _ _ (tabs_getitem_nat _ _ _ Ht)).
  rewrite Hl in Hne |- *. rewrite strip_gaps_snoc in Hne |- *.
  destruct (tab_bool t); cbn [negb].
  - unfold ret. by rewrite <- Hl, set_tabs_id.
  - rewrite (bind_Return _ _ _ _ _ (tabs_pop_snoc _ _ _ Hl)).
    specialize (IH (set_tabs l self)). cbn [tabs set_tabs] in IH.
    rewrite IH; [done| |done].
    rewrite Hl, length_app in Hfuel. cbn in Hfuel. lia.
Qed.

Lemma remove_first_gap_deletes fuel : forall (i : nat) self,
  (length (tabs self) - i < fuel)%nat ->
  remove_first_gap fuel (Z.of_nat i) self =
  (Return tt, set_tabs (delete_gap_after i (tabs self)) self).
Proof.
  induction fuel as [|fuel IH]; intros i self Hfuel; [lia|].
  cbn [remove_first_gap]. cbv zeta.
  unfold len_tabs at 1. unfold bind at 1 2, get at 1, ret at 1.
  destruct (Z.geb_spec (Z.of_nat i + 1) (Z.of_nat (length (tabs self))))
    as [Hge|Hlt].
  - rewrite delete_gap_after_ge by lia. unfold ret. by rewrite set_tabs_id.
  - destruct (lookup_lt_is_Some_2 (tabs self) (S i)) as [t Ht]; [lia|].
    replace (Z.of_nat i + 1) with (Z.of_nat (S i)) by lia.
    rewrite (bind_Return _ _ _ _ _ (tabs_getitem_nat _ _ _ Ht)).
    destruct (tab_bool t) eqn:Hbool; cbn [negb].
    + rewrite IH by lia. by rewrite (delete_gap_after_tab i _ t).
    + rewrite tabs_pop_at_nat by lia.
      by rewrite (delete_gap_after_gap i _ t).
Qed.

(** A list of Gaps only is emptied, and the loop ends with the error of
    the index: the two loops never run for ever. *)
Lemma remove_trailing_gaps_all_gaps fuel : forall self,
  (length (tabs self) < fuel)%nat ->
  strip_gaps (tabs self) = [] ->
  remove_trailing_gaps fuel (Z.of_nat (length (tabs self)) - 1) self =
  (Raise IndexError, set_tabs [] self).
Proof.
  induction fuel as [|fuel IH]; intros self Hfuel Hnil; [lia|].
  cbn [remove_trailing_gaps].
  destruct (snoc_cases (tabs self)) as [Hempty|(l & t & Hl)].
  - rewrite (bind_Raise _ _ _ _ _ (tabs_getitem_empty self _ Hempty)).
    by rewrite <- Hempty, set_tabs_id.
  - assert (tabs self !! length l = Some t) as Ht.
    { rewrite Hl, lookup_app_r, Nat.sub_diag by lia. done. }
    replace (Z.of_nat (length (tabs self)) - 1) with (Z.of_nat (length l))
      by (rewrite Hl, length_app; cbn; lia).
    rewrite (bind_Return _ _ _ _ _ (tabs_getitem_nat _ _ _ Ht)).
    rewrite Hl, strip_gaps_snoc in Hnil.
    rewrite tab_bool_isinstance.
    destruct (tab_bool t); cbn [negb].
    { by destruct l. }
    rewrite (bind_Return _ _ _ _ _ (tabs_pop_snoc _ _ _ Hl)).
    specialize (IH (set_tabs l self)). cbn [tabs set_tabs] in IH.
    rewrite IH; [done| |done].
    rewrite Hl, length_app in Hfuel. cbn in Hfuel. lia.
Qed.

Lemma close_trailing_gaps_all_gaps fuel : forall self,
  (length (tabs self) < fuel)%nat ->
  strip_gaps (tabs self) = [] ->
  close_trailing_gaps fuel (Z.of_nat (length (tabs self)) - 1) self =
  (Raise IndexError, set_tabs [] self).
Proof.
  induction fuel as [|fuel IH]; intros self Hfuel Hnil; [lia|].
  cbn [close_trailing_gaps].
  destruct (snoc_cases (tabs self)) as [Hempty|(l & t & Hl)].
  - rewrite (bind_Raise _ _ _ _ _ (tabs_getitem_empty self _ Hempty)).
    by rewrite <- Hempty, set_tabs_id.
  - assert (tabs self !! length l = Some t) as Ht.
    { rewrite Hl, lookup_app_r, Nat.sub_diag by lia. done. }
    replace (Z.of_nat (length (tabs self)) - 1) with (Z.of_nat (length l))
      by (rewrite Hl, length_app; cbn; lia).
    rewrite (bind_Return _ _ _ _ _ (tabs_getitem_nat _ _ _ Ht)).
    rewrite Hl, strip_gaps_snoc in Hnil.
    destruct (tab_bool t); cbn [negb].
    { by destruct l. }
    rewrite (bind_Return _ _ _ _ _ (tabs_pop_snoc _ _ _ Hl)).
    specialize (IH (set_tabs l self)). cbn [tabs set_tabs] in IH.
    rewrite IH; [done| |done].
    rewrite Hl, length_app in Hfuel. cbn in Hfuel. lia.
Qed.

(** The same, at a state whose list of tabs is known. *)
Lemma remove_trailing_gaps_at fuel self l i :
  tabs self = l -> i = Z.of_nat (length l) - 1 ->
  (length l < fuel)%nat -> strip_gaps l <> [] ->
  remove_trailing_gaps fuel i self = (Return tt, set_tabs (strip_gaps l) self).
Proof. intros <- ->. apply remove_trailing_gaps_strips. Qed.

Lemma close_trailing_gaps_at fuel self l i :
  tabs self = l -> i = Z.of_nat (length l) - 1 ->
  (length l < fuel)%nat -> strip_gaps l <> [] ->
  close_trailing_gaps fuel i self = (Return tt, set_tabs (strip_gaps l) self).
Proof. intros <- ->. apply close_trailing_gaps_strips. Qed.

Lemma remove_first_gap_at fuel self l (n : nat) :
  tabs self = l -> (length l - n < fuel)%nat ->
  remove_first_gap fuel (Z.of_nat n) self =
  (Return tt, set_tabs (delete_gap_after n l) self).
Proof. intros <-. apply remove_first_gap_deletes. Qed.
End Loops.

Section Steps.
Context {B : Type}.
Implicit Types (self : Core) (l : list Tab) (t : Tab).

Lemma bind_ret {A} (a : A) (k : A -> M Core B) self :
  bind (ret a) k self = k a self.
Proof. done. Qed.

Lemma bind_get (k : Core -> M Core B) self : bind get k self = k self self.
Proof. done. Qed.

Lemma bind_len_tabs (k : Z -> M Core B) self :
  bind len_tabs k self = k (Z.of_nat (length (tabs self))) self.
Proof. done. Qed.

Lemma bind_current_tab_nb (k : Z -> M Core B) self :
  bind current_tab_nb k self = k (_current_tab_nb self) self.
Proof. done. Qed.

Lemma bind_new_GapTab (k : Tab -> M Core B) self :
  bind new_GapTab k self =
  k (mkTab (allocated self) GapTab) (set_allocated (S (allocated self)) self).
Proof. done. Qed.

Lemma bind_emit c (k : unit -> M Core B) self :
  bind (emit c) k self = k tt (set_calls (calls self ++ [c]) self).
Proof. done. Qed.

Lemma bind_tabs_insert i t (k : unit -> M Core B) self :
  bind (tabs_insert i t) k self =
  k tt (set_tabs (PyList.insert (tabs self) i t) self).
Proof. done. Qed.

Lemma bind_tabs_append t (k : unit -> M Core B) self :
  bind (tabs_append t) k self = k tt (set_tabs (tabs self ++ [t]) self).
Proof. done. Qed.

Lemma bind_bind {A A'} (c : M Core A) (k : A -> M Core A')
    (k' : A' -> M Core B) self :
  bind (bind c k) k' self = bind c (fun a => bind (k a) k') self.
Proof. unfold bind. by destruct (c self) as [[a|e|] self']. Qed.
End Steps.

Lemma insert_nat {A} (l : list A) (n : nat) (x : A) :
  (n <= length l)%nat ->
  PyList.insert l (Z.of_nat n) x = take n l ++ x :: drop n l.
Proof.
  intros Hn. unfold PyList.insert.
  destruct (Z.ltb_spec (Z.of_nat n) 0); [lia|].
  rewrite Z.min_l by lia. by rewrite Nat2Z.id.
Qed.

Lemma insert_beyond {A} (l : list A) (i : Z) (x : A) :
  Z.of_nat (length l) <= i -> PyList.insert l i x = l ++ [x].
Proof.
  intros Hi. unfold PyList.insert.
  destruct (Z.ltb_spec i 0); [lia|].
  rewrite Z.min_r by lia. rewrite Nat2Z.id.
  by rewrite firstn_all, drop_all.
Qed.

(** One step of a method: the first call is replaced by its value. *)
Ltac mstep lem := rewrite (bind_Return _ _ _ _ _ lem); cbv beta.
Ltac mstep_by tac := erewrite bind_Return by tac; cbv beta.
Ltac psimpl :=
  cbn [tabs _current_tab_nb create_gaps timed_events paused key_func
       allocated calls set_tabs set__current_tab_nb set_timed_events
       set_allocated set_calls].
Ltac psimpl_all :=
  cbn [tabs _current_tab_nb create_gaps timed_events paused key_func
       allocated calls set_tabs set__current_tab_nb set_timed_events
       set_allocated set_calls] in *.
Ltac msimpl :=
  repeat first
    [ rewrite bind_bind | rewrite bind_ret | rewrite bind_get
    | rewrite bind_len_tabs | rewrite bind_current_tab_nb
    | rewrite bind_new_GapTab | rewrite bind_emit | rewrite bind_tabs_insert
    | rewrite bind_tabs_append ];
  cbv beta; psimpl.

Section InsertGaps.
Implicit Types (self : Core) (l : list Tab) (t : Tab).

Lemma strip_gaps_nonempty l r :
  l !! 0%nat = Some r -> tab_bool r = true -> strip_gaps l <> [].
Proof.
  intros Hr Hbool Hnil.
  pose proof (strip_gaps_lookup l 0 r Hr Hbool) as Hs.
  by rewrite Hnil in Hs.
Qed.

(** The destination is beyond the end of the list. *)
Lemma insert_tab_gaps_end self (old : nat) new tab :
  tabs self !! old = Some tab -> tab_bool tab = true ->
  Z.of_nat (length (tabs self)) <= new ->
  insert_tab_gaps (Z.of_nat old) new self =
  (Return true,
   set_tabs (<[old := next_gap self]> (tabs self) ++ [tab]) (allocate self)).
Proof.
  intros Hold Htab Hnew. unfold insert_tab_gaps.
  mstep (tabs_getitem_nat _ _ _ Hold). msimpl.
  destruct (Z.geb_spec new (Z.of_nat (length (tabs self)))); [|lia].
  msimpl. cbn [from_option negb]. msimpl.
  destruct (Z.ltb_spec new (Z.of_nat (length (tabs self)))); [lia|].
  msimpl. mstep (tabs_getitem_nat _ _ _ Hold). msimpl.
  apply lookup_lt_Some in Hold as Hlt.
  mstep_by ltac:(apply tabs_setitem_nat; cbn; rewrite length_app; lia).
  msimpl. rewrite insert_app_l by done.
  erewrite bind_Return; cycle 1.
  { apply remove_trailing_gaps_at; psimpl.
    - reflexivity.
    - reflexivity.
    - lia.
    - rewrite strip_gaps_snoc, Htab. by destruct (<[old:=_]> (tabs self)). }
  cbv beta. rewrite strip_gaps_snoc, Htab. done.
Qed.

(** The destination is the place of a Gap. *)
Lemma insert_tab_gaps_into_gap self (old new : nat) tab target r :
  tabs self !! old = Some tab -> (0 < old)%nat -> (0 < new)%nat ->
  tabs self !! 0%nat = Some r -> tab_bool r = true ->
  tabs self !! new = Some target -> tab_bool target = false ->
  insert_tab_gaps (Z.of_nat old) (Z.of_nat new) self =
  (Return true,
   set_tabs
     (strip_gaps (<[old := next_gap self]> (<[new := tab]> (tabs self))))
     (allocate self)).
Proof.
  intros Hold Hpos Hpos' Hr Hbool Hnew Hgap. unfold insert_tab_gaps.
  apply lookup_lt_Some in Hold as Hlt. apply lookup_lt_Some in Hnew as Hlt'.
  mstep (tabs_getitem_nat _ _ _ Hold). msimpl.
  destruct (Z.geb_spec (Z.of_nat new) (Z.of_nat (length (tabs self))));
    [lia|].
  msimpl. mstep (tabs_getitem_nat _ _ _ Hnew). msimpl.
  cbn [from_option]. rewrite Hgap. cbn [negb]. msimpl.
  destruct (Z.ltb_spec (Z.of_nat new) (Z.of_nat (length (tabs self))));
    [|lia].
  msimpl. mstep (tabs_getitem_nat _ _ _ Hold). msimpl.
  mstep_by ltac:(apply tabs_setitem_nat; psimpl; lia). msimpl.
  mstep_by ltac:(apply tabs_setitem_nat; psimpl; rewrite length_insert; lia).
  msimpl.
  erewrite bind_Return; cycle 1.
  { apply remove_trailing_gaps_at; psimpl.
    - reflexivity.
    - reflexivity.
    - lia.
    - apply (strip_gaps_nonempty _ r); [|done].
      by rewrite !list_lookup_insert_ne by lia. }
  done.
Qed.

(** The destination is the place of a tab on the right of the tab moved. *)
Lemma insert_tab_gaps_right self (old new : nat) tab target r l1 i :
  tabs self !! old = Some tab -> (0 < old < new)%nat ->
  tabs self !! 0%nat = Some r -> tab_bool r = true ->
  tabs self !! new = Some target -> tab_bool target = true ->
  l1 = <[old := next_gap self]>
         (take new (tabs self) ++ tab :: drop new (tabs self)) ->
  PyList.index tab l1 = Some i ->
  insert_tab_gaps (Z.of_nat old) (Z.of_nat new) self =
  (Return true,
   set_tabs (strip_gaps (delete_gap_after i l1)) (allocate self)).
Proof.
  intros Hold Hpos Hr Hbool Hnew Htarget Hl1 Hi. unfold insert_tab_gaps.
  subst l1. unfold next_gap in *.
  apply lookup_lt_Some in Hold as Hlt. apply lookup_lt_Some in Hnew as Hlt'.
  mstep (tabs_getitem_nat _ _ _ Hold). msimpl.
  destruct (Z.geb_spec (Z.of_nat new) (Z.of_nat (length (tabs self))));
    [lia|].
  msimpl. mstep (tabs_getitem_nat _ _ _ Hnew). msimpl.
  cbn [from_option]. rewrite Htarget. cbn [negb].
  destruct (Z.gtb_spec (Z.of_nat new) (Z.of_nat old)); [|lia].
  msimpl. rewrite insert_nat by lia.
  mstep_by ltac:(apply tabs_setitem_nat; psimpl;
                 rewrite length_app, length_take; cbn; lia).
  msimpl.
  mstep_by ltac:(apply tabs_index_Some; psimpl; exact Hi). msimpl.
  erewrite bind_Return; cycle 1.
  { apply remove_first_gap_at; psimpl; [reflexivity|lia]. }
  cbv beta. msimpl.
  erewrite bind_Return; cycle 1.
  { apply remove_trailing_gaps_at; psimpl.
    - reflexivity.
    - reflexivity.
    - lia.
    - apply (strip_gaps_nonempty _ r); [|done].
      rewrite delete_gap_after_lookup_le by lia.
      rewrite list_lookup_insert_ne by lia.
      rewrite lookup_app_l by (rewrite length_take; lia).
      rewrite lookup_take_lt by lia. done. }
  done.
Qed.

(** The destination is the place of a tab on the left of the tab moved. *)
Lemma insert_tab_gaps_left self (old new : nat) tab target r l1 i :
  tabs self !! old = Some tab -> (0 < new < old)%nat ->
  tabs self !! 0%nat = Some r -> tab_bool r = true ->
  tabs self !! new = Some target -> tab_bool target = true ->
  l1 = take new (<[old := next_gap self]> (tabs self)) ++
       tab :: drop new (<[old := next_gap self]> (tabs self)) ->
  PyList.index tab l1 = Some i ->
  insert_tab_gaps (Z.of_nat old) (Z.of_nat new) self =
  (Return true,
   set_tabs (strip_gaps (delete_gap_after i l1)) (allocate self)).
Proof.
  intros Hold Hpos Hr Hbool Hnew Htarget Hl1 Hi. unfold insert_tab_gaps.
  subst l1. unfold next_gap in *.
  apply lookup_lt_Some in Hold as Hlt. apply lookup_lt_Some in Hnew as Hlt'.
  mstep (tabs_getitem_nat _ _ _ Hold). msimpl.
  destruct (Z.geb_spec (Z.of_nat new) (Z.of_nat (length (tabs self))));
    [lia|].
  msimpl. mstep (tabs_getitem_nat _ _ _ Hnew). msimpl.
  cbn [from_option]. rewrite Htarget. cbn [negb].
  destruct (Z.gtb_spec (Z.of_nat new) (Z.of_nat old)); [lia|].
  destruct (Z.ltb_spec (Z.of_nat new) (Z.of_nat old)); [|lia].
  msimpl.
  mstep_by ltac:(apply tabs_setitem_nat; psimpl; lia).
  msimpl. rewrite insert_nat by (rewrite length_insert; lia).
  mstep_by ltac:(apply tabs_index_Some; psimpl; exact Hi). msimpl.
  erewrite bind_Return; cycle 1.
  { apply remove_first_gap_at; psimpl; [reflexivity|lia]. }
  cbv beta. msimpl.
  erewrite bind_Return; cycle 1.
  { apply remove_trailing_gaps_at; psimpl.
    - reflexivity.
    - reflexivity.
    - lia.
    - apply (strip_gaps_nonempty _ r); [|done].
      rewrite delete_gap_after_lookup_le by lia.
      rewrite lookup_app_l by (rewrite length_take, length_insert; lia).
      rewrite lookup_take_lt by lia.
      by rewrite list_lookup_insert_ne by lia. }
  done.
Qed.

(** The guards of [insert_tab] passed, the move is that of the mode. *)
Lemma insert_tab_accepted self (old : nat) new tab :
  tabs self !! old = Some tab -> tab_bool tab = true ->
  (0 < old)%nat -> 0 < new -> new <> Z.of_nat old ->
  insert_tab (Z.of_nat old) new self =
  if create_gaps self then insert_tab_gaps (Z.of_nat old) new self
  else insert_tab_nogaps (Z.of_nat old) new self.
Proof.
  intros Hold Htab Hpos Hnew Hne. unfold insert_tab.
  apply lookup_lt_Some in Hold as Hlt. msimpl.
  destruct (Z.leb_spec (Z.of_nat old) 0); [lia|].
  destruct (Z.geb_spec (Z.of_nat old) (Z.of_nat (length (tabs self))));
    [lia|]. cbn [orb].
  destruct (Z.leb_spec new 0); [lia|].
  destruct (Z.eqb_spec new (Z.of_nat old)); [lia|].
  mstep (tabs_getitem_nat _ _ _ Hold). rewrite Htab. cbn [negb].
  msimpl. by destruct (create_gaps self).
Qed.

Lemma insert_tab_gaps_moves self (old : nat) new tab r :
  tabs self !! old = Some tab -> tab_bool tab = true ->
  (0 < old)%nat -> 0 < new -> new <> Z.of_nat old ->
  tabs self !! 0%nat = Some r -> tab_bool r = true ->
  exists L,
    insert_tab_gaps (Z.of_nat old) new self =
      (Return true, set_tabs (strip_gaps L) (allocate self)) /\
    L !! 0%nat = Some r /\
    ((forall j, tabs self !! j = Some tab -> j = old) ->
     moved_frame (tabs self) L old new tab).
Proof.
  intros Hold Htab Hpos Hnew Hne Hr Hbool.
  apply lookup_lt_Some in Hold as Hlt.
  set (l := tabs self) in *. set (g := next_gap self).
  assert (tab_bool g = false) as Hg by done.
  destruct (decide (Z.of_nat (length l) <= new)) as [Hend|Hin].
  { (* beyond the end *)
    exists (<[old := g]> (l ++ [tab])). split; [|split].
    - rewrite (insert_tab_gaps_end self old new tab) by done.
      subst l g. rewrite insert_app_l by done.
      by rewrite strip_gaps_snoc, Htab.
    - rewrite list_lookup_insert_ne by lia. by rewrite lookup_app_l by lia.
    - intros _. unfold moved_frame.
      assert (forall j t, j <> old -> l !! j = Some t ->
                <[old := g]> (l ++ [tab]) !! j = Some t) as Hsame.
      { intros j t Hj Ht. rewrite list_lookup_insert_ne by done.
        rewrite lookup_app_l; [done|]. by eapply lookup_lt_Some. }
      split; [|split; [|split]].
      + intros j t _. apply Hsame.
      + intros _ j t Hj Ht _. by apply Hsame.
      + rewrite Z.min_r by lia. rewrite Nat2Z.id.
        rewrite list_lookup_insert_ne by lia.
        by rewrite lookup_app_r, Nat.sub_diag by lia.
      + intros j t Hj Ht _. left. by apply Hsame. }
  assert (exists n : nat, new = Z.of_nat n) as [n ->].
  { exists (Z.to_nat new). lia. }
  assert (n < length l)%nat as Hn by lia.
  assert (n <> old) as Hne' by lia.
  destruct (lookup_lt_is_Some_2 l n Hn) as [target Htarget].
  destruct (tab_bool target) eqn:Hbt; cycle 1.
  { (* onto a Gap *)
    exists (<[old := g]> (<[n := tab]> l)). split; [|split].
    - apply (insert_tab_gaps_into_gap self old n tab target r);
        try done; lia.
    - by rewrite !list_lookup_insert_ne by lia.
    - intros _. unfold moved_frame.
      assert (forall j t, j <> old -> j <> n -> l !! j = Some t ->
                <[old := g]> (<[n := tab]> l) !! j = Some t) as Hsame.
      { intros j t Hj Hj' Ht. by rewrite !list_lookup_insert_ne by done. }
      split; [|split; [|split]].
      + intros j t Hjn Hj Ht. apply Hsame; [done|lia|done].
      + intros _ j t Hj Ht Hnongap. apply Hsame; try done.
        intros ->. congruence.
      + rewrite Z.min_l by lia. rewrite Nat2Z.id.
        rewrite list_lookup_insert_ne by lia.
        by apply list_lookup_insert_eq.
      + intros j t Hj Ht Hnongap. left. apply Hsame; try done.
        intros ->. congruence. }
  (* onto a tab *)
  destruct (decide (old < n)%nat) as [Hright|Hleft].
  - set (l1 := <[old := g]> (take n l ++ tab :: drop n l)).
    assert (l1 !! n = Some tab) as Hl1n.
    { subst l1. rewrite list_lookup_insert_ne by lia.
      rewrite lookup_app_r by (rewrite length_take; lia).
      rewrite length_take.
      by replace (n - n `min` length l)%nat with 0%nat by lia. }
    assert (forall j, (j < n)%nat -> j <> old -> l1 !! j = l !! j) as Hl1lt.
    { intros j Hj Hjo. subst l1. rewrite list_lookup_insert_ne by lia.
      rewrite lookup_app_l by (rewrite length_take; lia).
      by rewrite lookup_take_lt by lia. }
    assert (forall j, (n <= j)%nat -> l1 !! S j = l !! j) as Hl1ge.
    { intros j Hj. subst l1. rewrite list_lookup_insert_ne by lia.
      rewrite lookup_app_r by (rewrite length_take; lia).
      rewrite length_take.
      replace (S j - n `min` length l)%nat with (S (j - n)) by lia.
      change ((tab :: drop n l) !! S (j - n)) with (drop n l !! (j - n)%nat).
      rewrite lookup_drop. f_equal. lia. }
    destruct (index_elem_of tab l1) as [i Hi].
    { by eapply list_elem_of_lookup_2. }
    exists (delete_gap_after i l1). split; [|split].
    + by apply (insert_tab_gaps_right self old n tab target r l1 i).
    + rewrite delete_gap_after_lookup_le by lia. by rewrite Hl1lt by lia.
    + intros Huniq.
      assert (i = n) as ->.
      { apply index_Some in Hi as [Hi Hfirst].
        destruct (decide (i = n)) as [|Hin']; [done|].
        assert (i < n)%nat as Hlti.
        { destruct (decide (n < i)%nat); [|lia].
          by destruct (Hfirst n). }
        destruct (decide (i = old)) as [->|Hio].
        - subst l1. rewrite list_lookup_insert_eq in Hi; [congruence|].
          rewrite length_app, length_take. cbn. lia.
        - rewrite Hl1lt in Hi by done. apply Huniq in Hi. lia. }
      unfold moved_frame. split; [|split; [|split]].
      * intros j t Hjn Hj Ht.
        rewrite delete_gap_after_lookup_le by lia.
        by rewrite Hl1lt by lia.
      * intros [?|(target' & Ht' & Hgap)]; [lia|].
        rewrite Nat2Z.id in Ht'. congruence.
      * rewrite Z.min_l by lia. rewrite Nat2Z.id.
        by rewrite delete_gap_after_lookup_le by lia.
      * intros j t Hj Ht Hnongap.
        destruct (decide (j < n)%nat) as [Hjn|Hjn].
        -- left. rewrite delete_gap_after_lookup_le by lia.
           by rewrite Hl1lt by lia.
        -- assert (l1 !! S j = Some t) as Hsj by (rewrite Hl1ge; [done|lia]).
           destruct (delete_gap_after_lookup_gt n l1 (S j) t)
             as [?|(k' & [= <-] & _ & ?)]; try done; try lia; auto.
  - assert (n < old)%nat as Hlt' by lia.
    set (l' := <[old := g]> l).
    set (l1 := take n l' ++ tab :: drop n l').
    assert (length l' = length l) as Hlen' by apply length_insert.
    assert (l1 !! n = Some tab) as Hl1n.
    { subst l1. rewrite lookup_app_r by (rewrite length_take; lia).
      rewrite length_take.
      by replace (n - n `min` length l')%nat with 0%nat by lia. }
    assert (forall j, (j < n)%nat -> l1 !! j = l !! j) as Hl1lt.
    { intros j Hj. subst l1 l'.
      rewrite lookup_app_l by (rewrite length_take; lia).
      rewrite lookup_take_lt by lia.
      by rewrite list_lookup_insert_ne by lia. }
    assert (forall j, (n <= j)%nat -> j <> old -> l1 !! S j = l !! j)
      as Hl1ge.
    { intros j Hj Hjo. subst l1.
      rewrite lookup_app_r by (rewrite length_take; lia).
      rewrite length_take.
      replace (S j - n `min` length l')%nat with (S (j - n)) by lia.
      change ((tab :: drop n l') !! S (j - n)) with (drop n l' !! (j - n)%nat).
      rewrite lookup_drop. subst l'.
      rewrite list_lookup_insert_ne by lia. f_equal. lia. }
    destruct (index_elem_of tab l1) as [i Hi].
    { by eapply list_elem_of_lookup_2. }
    exists (delete_gap_after i l1). split; [|split].
    + apply (insert_tab_gaps_left self old n tab target r l1 i);
        try done; lia.
    + rewrite delete_gap_after_lookup_le by lia. by rewrite Hl1lt by lia.
    + intros Huniq.
      assert (i = n) as ->.
      { apply index_Some in Hi as [Hi Hfirst].
        destruct (decide (i = n)) as [|Hin']; [done|].
        assert (i < n)%nat as Hlti.
        { destruct (decide (n < i)%nat); [|lia].
          by destruct (Hfirst n). }
        rewrite Hl1lt in Hi by done. apply Huniq in Hi. lia. }
      unfold moved_frame. split; [|split; [|split]].
      * intros j t Hjn Hj Ht.
        rewrite delete_gap_after_lookup_le by lia.
        by rewrite Hl1lt by lia.
      * intros [?|(target' & Ht' & Hgap)]; [lia|].
        rewrite Nat2Z.id in Ht'. congruence.
      * rewrite Z.min_l by lia. rewrite Nat2Z.id.
        by rewrite delete_gap_after_lookup_le by lia.
      * intros j t Hj Ht Hnongap.
        destruct (decide (j < n)%nat) as [Hjn|Hjn].
        -- left. rewrite delete_gap_after_lookup_le by lia.
           by rewrite Hl1lt by lia.
        -- assert (l1 !! S j = Some t) as Hsj
             by (rewrite Hl1ge; [done|lia|done]).
           destruct (delete_gap_after_lookup_gt n l1 (S j) t)
             as [?|(k' & [= <-] & _ & ?)]; try done; try lia; auto.
Qed.
End InsertGaps.

Section Cursor.
Implicit Types (self : Core) (l : list Tab) (t : Tab).

Lemma set__current_tab_nb_id self :
  set__current_tab_nb (_current_tab_nb self) self = self.
Proof. by destruct self. Qed.

(** The setter leaves a position of the list: 0 for a value beyond the
    end, the last one for a negative value, the value itself otherwise. *)
Lemma current_tab_nb_setter_wraps self value :
  (0 < length (tabs self))%nat ->
  exists c : nat,
    current_tab_nb_setter value self =
      (Return tt, set__current_tab_nb (Z.of_nat c) self) /\
    (c < length (tabs self))%nat /\
    (Z.of_nat (length (tabs self)) <= value -> c = 0%nat) /\
    (value < 0 -> c = (length (tabs self) - 1)%nat) /\
    (0 <= value < Z.of_nat (length (tabs self)) -> Z.of_nat c = value).
Proof.
  intros Hlen. unfold current_tab_nb_setter. msimpl.
  destruct (Z.geb_spec value (Z.of_nat (length (tabs self)))) as [Hge|Hlt].
  { exists 0%nat. repeat split; try done; lia. }
  destruct (Z.ltb_spec value 0) as [Hneg|Hpos].
  { exists (length (tabs self) - 1)%nat. unfold put.
    replace (Z.of_nat (length (tabs self) - 1))
      with (Z.of_nat (length (tabs self)) - 1) by lia.
    repeat split; try done; lia. }
  exists (Z.to_nat value). unfold put. rewrite Z2Nat.id by lia.
  repeat split; try done; lia.
Qed.

Lemma current_tab_nb_setter_inrange self (c : nat) :
  (c < length (tabs self))%nat ->
  current_tab_nb_setter (Z.of_nat c) self =
  (Return tt, set__current_tab_nb (Z.of_nat c) self).
Proof.
  intros Hc.
  destruct (current_tab_nb_setter_wraps self (Z.of_nat c))
    as (c' & -> & _ & _ & _ & Heq); [lia|].
  rewrite Heq; [done|lia].
Qed.

(** [current_tab] normalises the cursor and gives the tab under it. *)
Lemma current_tab_normalises self :
  (0 < length (tabs self))%nat ->
  exists (c : nat) t,
    current_tab self = (Return t, set__current_tab_nb (Z.of_nat c) self) /\
    tabs self !! c = Some t /\
    (0 <= _current_tab_nb self < Z.of_nat (length (tabs self)) ->
     Z.of_nat c = _current_tab_nb self).
Proof.
  intros Hlen. unfold current_tab. msimpl.
  destruct (current_tab_nb_setter_wraps self (_current_tab_nb self) Hlen)
    as (c & Hset & Hc & _ & _ & Hin).
  destruct (lookup_lt_is_Some_2 (tabs self) c Hc) as [t Ht].
  exists c, t. mstep Hset. msimpl.
  rewrite (tabs_getitem_nat _ c t) by done. done.
Qed.

Lemma current_tab_at self (c : nat) t :
  _current_tab_nb self = Z.of_nat c -> tabs self !! c = Some t ->
  current_tab self = (Return t, self).
Proof.
  intros Hc Ht. apply lookup_lt_Some in Ht as Hlt.
  unfold current_tab. msimpl. rewrite Hc.
  mstep (current_tab_nb_setter_inrange self c Hlt). msimpl.
  rewrite (tabs_getitem_nat _ c t) by done.
  by rewrite <- Hc, set__current_tab_nb_id.
Qed.

(** On a tab that is no Gap the loop ends at once. *)
Lemma skip_gaps_at_tab step fuel self (c : nat) t :
  _current_tab_nb self = Z.of_nat c -> tabs self !! c = Some t ->
  tab_bool t = true ->
  skip_gaps step (S fuel) self = (Return tt, self).
Proof.
  intros Hc Ht Hbool. cbn [skip_gaps]. msimpl. rewrite Hc.
  mstep (tabs_getitem_nat _ c t Ht). by rewrite Hbool.
Qed.

(** Downwards, the loop stops at the first tab that is no Gap at or below
    the cursor. *)
Lemma skip_gaps_down r fuel : forall self (c : nat),
  tabs self !! 0%nat = Some r -> tab_bool r = true ->
  _current_tab_nb self = Z.of_nat c ->
  (c < length (tabs self))%nat -> (c < fuel)%nat ->
  exists (j : nat) t,
    skip_gaps (-1) fuel self =
      (Return tt, set__current_tab_nb (Z.of_nat j) self) /\
    (j <= c)%nat /\ tabs self !! j = Some t /\ tab_bool t = true.
Proof.
  induction fuel as [|fuel IH]; intros self c Hr Hbool Hc Hlen Hfuel; [lia|].
  destruct (lookup_lt_is_Some_2 (tabs self) c Hlen) as [t Ht].
  destruct (tab_bool t) eqn:Hbt.
  - exists c, t. rewrite (skip_gaps_at_tab _ _ _ c t) by done.
    by rewrite <- Hc, set__current_tab_nb_id.
  - assert (0 < c)%nat as Hpos.
    { destruct c; [|lia]. congruence. }
    cbn [skip_gaps]. msimpl. rewrite Hc.
    mstep (tabs_getitem_nat _ c t Ht). rewrite Hbt. cbn [negb]. msimpl.
    rewrite Hc.
    replace (Z.of_nat c + -1) with (Z.of_nat (c - 1)) by lia.
    mstep_by ltac:(apply current_tab_nb_setter_inrange; lia).
    destruct (IH (set__current_tab_nb (Z.of_nat (c - 1)) self) (c - 1)%nat)
      as (j & t' & Hrun & Hj & Ht' & Hbt'); try done; psimpl; try lia.
    exists j, t'. rewrite Hrun. repeat split; try done. lia.
Qed.

(** Upwards, the loop stops at the first tab that is no Gap at or above
    the cursor, or at position 0. *)
Lemma skip_gaps_up r fuel : forall self (c : nat),
  tabs self !! 0%nat = Some r -> tab_bool r = true ->
  _current_tab_nb self = Z.of_nat c ->
  (c < length (tabs self))%nat -> (length (tabs self) - c < fuel)%nat ->
  exists (j : nat) t,
    skip_gaps 1 fuel self =
      (Return tt, set__current_tab_nb (Z.of_nat j) self) /\
    tabs self !! j = Some t /\ tab_bool t = true.
Proof.
  induction fuel as [|fuel IH]; intros self c Hr Hbool Hc Hlen Hfuel; [lia|].
  destruct (lookup_lt_is_Some_2 (tabs self) c Hlen) as [t Ht].
  destruct (tab_bool t) eqn:Hbt.
  - exists c, t. rewrite (skip_gaps_at_tab _ _ _ c t) by done.
    by rewrite <- Hc, set__current_tab_nb_id.
  - cbn [skip_gaps]. msimpl. rewrite Hc.
    mstep (tabs_getitem_nat _ c t Ht). rewrite Hbt. cbn [negb]. msimpl.
    rewrite Hc.
    destruct (decide (S c < length (tabs self))%nat) as [Hin|Hout].
    + replace (Z.of_nat c + 1) with (Z.of_nat (S c)) by lia.
      mstep_by ltac:(apply current_tab_nb_setter_inrange; lia).
      destruct (IH (set__current_tab_nb (Z.of_nat (S c)) self) (S c))
        as (j & t' & Hrun & Ht' & Hbt'); try done; psimpl; try lia.
      exists j, t'. by rewrite Hrun.
    + destruct (current_tab_nb_setter_wraps self (Z.of_nat c + 1))
        as (c' & Hset & _ & Hzero & _); [lia|].
      rewrite Hzero in Hset by lia. mstep Hset.
      destruct fuel as [|fuel]; [lia|].
      exists 0%nat, r.
      by rewrite (skip_gaps_at_tab _ _ _ 0%nat r).
Qed.

(** [rotate_rooms_right] and [rotate_rooms_left] return, leave the list
    as it is and the cursor on a tab that is no Gap. *)
Lemma rotate_rooms_right_cursor self r :
  tabs self !! 0%nat = Some r -> tab_bool r = true ->
  exists self',
    rotate_rooms_right self = (Return tt, self') /\
    tabs self' = tabs self /\ cursor_ok self'.
Proof.
  intros Hr Hbool. apply lookup_lt_Some in Hr as Hlen.
  unfold rotate_rooms_right.
  destruct (current_tab_normalises self Hlen) as (c & t & Hcur & Ht & _).
  mstep Hcur. msimpl.
  destruct (current_tab_nb_setter_wraps
              (set_calls (calls self ++ [on_lose_focus t])
                 (set__current_tab_nb (Z.of_nat c) self))
              (Z.of_nat c + 1)) as (c' & Hset & Hc' & _); [done|].
  mstep Hset. msimpl.
  match goal with
  | |- context [bind (skip_gaps 1 ?f) _ ?s] =>
      destruct (skip_gaps_up r f s c') as (j & t' & Hrun & Ht' & Hbt');
        psimpl; try done; try lia
  end.
  mstep Hrun. psimpl.
  mstep_by ltac:(apply (current_tab_at _ j t'); psimpl; done).
  msimpl. eexists. split; [reflexivity|].
  unfold cursor_ok. psimpl_all. split; [done|].
  apply lookup_lt_Some in Ht' as Hj. split; [lia|].
  exists t'. by rewrite Nat2Z.id.
Qed.

Lemma rotate_rooms_left_cursor self r :
  tabs self !! 0%nat = Some r -> tab_bool r = true ->
  exists self',
    rotate_rooms_left self = (Return tt, self') /\
    tabs self' = tabs self /\ cursor_ok self'.
Proof.
  intros Hr Hbool. apply lookup_lt_Some in Hr as Hlen.
  unfold rotate_rooms_left.
  destruct (current_tab_normalises self Hlen) as (c & t & Hcur & Ht & _).
  mstep Hcur. msimpl.
  destruct (current_tab_nb_setter_wraps
              (set_calls (calls self ++ [on_lose_focus t])
                 (set__current_tab_nb (Z.of_nat c) self))
              (Z.of_nat c - 1)) as (c' & Hset & Hc' & _); [done|].
  mstep Hset. msimpl. psimpl_all.
  match goal with
  | |- context [bind (skip_gaps (-1) ?f) _ ?s] =>
      destruct (skip_gaps_down r f s c')
        as (j & t' & Hrun & _ & Ht' & Hbt');
        psimpl; try done; try lia
  end.
  mstep Hrun. psimpl.
  mstep_by ltac:(apply (current_tab_at _ j t'); psimpl; done).
  msimpl. eexists. split; [reflexivity|].
  unfold cursor_ok. psimpl_all. split; [done|].
  apply lookup_lt_Some in Ht' as Hj. split; [lia|].
  exists t'. by rewrite Nat2Z.id.
Qed.
End Cursor.

Section KeepsTabs.
Lemma keeps_tabs_ret {A} (a : A) : keeps_tabs (ret a).
Proof. done. Qed.

Lemma keeps_tabs_raise {A} e : keeps_tabs (@raise Core A e).
Proof. done. Qed.

Lemma keeps_tabs_diverge {A} : keeps_tabs (@diverge Core A).
Proof. done. Qed.

Lemma keeps_tabs_bind {A B} (c : M Core A) (k : A -> M Core B) :
  keeps_tabs c -> (forall a, keeps_tabs (k a)) -> keeps_tabs (bind c k).
Proof.
  intros Hc Hk self. unfold bind. specialize (Hc self).
  destruct (c self) as [[a|e|] self']; cbn in Hc; [|done..].
  destruct (Hk a self') as [-> ->]. done.
Qed.

Lemma keeps_tabs_get {A} (k : Core -> M Core A) :
  (forall self, tabs (snd (k self self)) = tabs self /\
                create_gaps (snd (k self self)) = create_gaps self) ->
  keeps_tabs (bind get k).
Proof. intros Hk self. apply Hk. Qed.

Lemma keeps_tabs_emit c : keeps_tabs (emit c).
Proof. done. Qed.

Lemma keeps_tabs_len_tabs : keeps_tabs len_tabs.
Proof. done. Qed.

Lemma keeps_tabs_current_tab_nb : keeps_tabs current_tab_nb.
Proof. done. Qed.

Lemma keeps_tabs_setter value : keeps_tabs (current_tab_nb_setter value).
Proof.
  intros self. unfold current_tab_nb_setter, bind, get, put.
  destruct (_ >=? _); [done|]. by destruct (_ <? _).
Qed.

Lemma keeps_tabs_getitem i : keeps_tabs (tabs_getitem i).
Proof.
  intros self. unfold tabs_getitem, bind, get, lift_option.
  by destruct (PyList.getitem _ _).
Qed.

Lemma keeps_tabs_current_tab : keeps_tabs current_tab.
Proof.
  unfold current_tab.
  apply keeps_tabs_bind; [apply keeps_tabs_current_tab_nb|intros v].
  apply keeps_tabs_bind; [apply keeps_tabs_setter|intros _].
  apply keeps_tabs_bind; [apply keeps_tabs_current_tab_nb|intros v'].
  apply keeps_tabs_getitem.
Qed.

Lemma keeps_tabs_skip_gaps step fuel : keeps_tabs (skip_gaps step fuel).
Proof.
  induction fuel as [|fuel IH]; cbn [skip_gaps];
    [apply keeps_tabs_diverge|].
  apply keeps_tabs_bind; [apply keeps_tabs_current_tab_nb|intros v].
  apply keeps_tabs_bind; [apply keeps_tabs_getitem|intros t].
  destruct (negb (tab_bool t)); [|apply keeps_tabs_ret].
  apply keeps_tabs_bind; [apply keeps_tabs_current_tab_nb|intros v'].
  apply keeps_tabs_bind; [apply keeps_tabs_setter|intros _]. done.
Qed.

Lemma keeps_tabs_close_tab_which tab : keeps_tabs (close_tab_which tab).
Proof.
  destruct tab as [t|]; cbn; [|apply keeps_tabs_current_tab].
  destruct (tab_bool t); [apply keeps_tabs_ret|apply keeps_tabs_current_tab].
Qed.

Lemma keeps_tabs_close_tab_cursor : keeps_tabs close_tab_cursor.
Proof.
  unfold close_tab_cursor.
  apply keeps_tabs_bind; [apply keeps_tabs_current_tab_nb|intros v].
  apply keeps_tabs_bind; [apply keeps_tabs_len_tabs|intros n].
  apply keeps_tabs_bind; [|intros _].
  { destruct (v >=? n); [apply keeps_tabs_setter|apply keeps_tabs_ret]. }
  apply keeps_tabs_get. intros self.
  apply (keeps_tabs_bind (skip_gaps (-1) _)); [apply keeps_tabs_skip_gaps|].
  intros _.
  apply keeps_tabs_bind; [apply keeps_tabs_current_tab|intros t].
  apply keeps_tabs_bind; [apply keeps_tabs_emit|intros _].
  apply keeps_tabs_emit.
Qed.
End KeepsTabs.

Section Close.
Implicit Types (self : Core) (l : list Tab) (t : Tab).

Lemma close_tab_parts tab self :
  close_tab tab self =
  (t <- close_tab_which tab ;;
   if isinstance t RosterInfoTab then ret tt
   else emit (on_close t) ;;; close_tab_list t ;;; close_tab_cursor)%py self.
Proof.
  unfold close_tab. fold (close_tab_which tab).
  unfold bind at 1. symmetry. unfold bind at 1.
  destruct (close_tab_which tab self) as [[t|e|] s1]; [|done..].
  destruct (isinstance t RosterInfoTab); [done|].
  rewrite !bind_emit. reflexivity.
Qed.

Lemma nb_index t l k : PyList.index t l = Some k -> nb t l = Z.of_nat k.
Proof. unfold nb. by intros ->. Qed.

Lemma nb_absent t l : PyList.index t l = None -> nb t l = Z.of_nat (length l).
Proof. unfold nb. by intros ->. Qed.

Lemma close_tab_list_absent self t :
  PyList.index t (tabs self) = None ->
  close_tab_list t self = (Raise ValueError, self).
Proof.
  intros Habs. unfold close_tab_list. msimpl. rewrite (nb_absent _ _ Habs).
  destruct (create_gaps self).
  - msimpl.
    destruct (Z.geb_spec (Z.of_nat (length (tabs self)))
                (Z.of_nat (length (tabs self)) - 1)); [|lia].
    by rewrite (bind_Raise _ _ _ _ _ (tabs_remove_absent _ _ Habs)).
  - by apply tabs_remove_absent.
Qed.

Lemma close_tab_list_closes self t k r :
  PyList.index t (tabs self) = Some k -> (0 < k)%nat ->
  tabs self !! 0%nat = Some r -> tab_bool r = true ->
  exists self',
    close_tab_list t self = (Return tt, self') /\
    tabs self' =
      closed_tabs (create_gaps self) (tabs self) k (next_gap self) /\
    _current_tab_nb self' = _current_tab_nb self /\
    create_gaps self' = create_gaps self.
Proof.
  intros Hk Hpos Hr Hbool. unfold close_tab_list, closed_tabs.
  msimpl. rewrite (nb_index _ _ _ Hk).
  apply index_Some in Hk as Hkt. destruct Hkt as [Hkt _].
  apply lookup_lt_Some in Hkt as Hlt.
  destruct (create_gaps self) eqn:Hgaps.
  - msimpl.
    destruct (Z.geb_spec (Z.of_nat k) (Z.of_nat (length (tabs self)) - 1))
      as [Hlast|Hmid].
    + rewrite decide_True by lia.
      mstep (tabs_remove_index _ _ _ Hk). msimpl.
      assert (length (delete k (tabs self)) = k) as Hlen.
      { rewrite length_delete by done. lia. }
      erewrite close_trailing_gaps_at; psimpl.
      * eexists. split; [reflexivity|]. by psimpl.
      * reflexivity.
      * lia.
      * lia.
      * apply (strip_gaps_nonempty _ r); [|done].
        by rewrite list_lookup_delete_lt by lia.
    + rewrite decide_False by lia. msimpl.
      rewrite tabs_setitem_nat by (psimpl; lia).
      eexists. split; [reflexivity|]. by psimpl.
  - rewrite (tabs_remove_index _ _ _ Hk).
    eexists. split; [reflexivity|]. by psimpl.
Qed.

Lemma closed_tabs_first gaps l k g r :
  l !! 0%nat = Some r -> tab_bool r = true -> (0 < k < length l)%nat ->
  closed_tabs gaps l k g !! 0%nat = Some r.
Proof.
  intros Hr Hbool Hk. unfold closed_tabs. destruct gaps.
  - destruct (decide (S k = length l)).
    + apply strip_gaps_lookup; [|done].
      by rewrite list_lookup_delete_lt by lia.
    + by rewrite list_lookup_insert_ne by lia.
  - by rewrite list_lookup_delete_lt by lia.
Qed.

Lemma tabs_inv_strip_gaps l r :
  l !! 0%nat = Some r -> isinstance r RosterInfoTab = true ->
  tabs_inv (strip_gaps l).
Proof.
  intros Hr Hroster. split.
  - exists r. split; [|done].
    apply strip_gaps_lookup; [done|]. by apply roster_tab_bool.
  - apply strip_gaps_last.
Qed.

Lemma closed_tabs_inv l k g :
  tabs_inv l -> (0 < k < length l)%nat -> tabs_inv (closed_tabs true l k g).
Proof.
  intros [(r & Hr & Hroster) Hlast] Hk. unfold closed_tabs.
  destruct (decide (S k = length l)) as [Hend|Hmid].
  - apply (tabs_inv_strip_gaps _ r); [|done].
    by rewrite list_lookup_delete_lt by lia.
  - split.
    + exists r. by rewrite list_lookup_insert_ne by lia.
    + intros t. rewrite !last_lookup, length_insert.
      rewrite list_lookup_insert_ne by lia.
      rewrite <- last_lookup. apply Hlast.
Qed.

(** The cursor after the list has changed. *)
Lemma close_tab_cursor_ok self r :
  tabs self !! 0%nat = Some r -> tab_bool r = true ->
  0 <= _current_tab_nb self ->
  exists self',
    close_tab_cursor self = (Return tt, self') /\
    tabs self' = tabs self /\ create_gaps self' = create_gaps self /\
    cursor_ok self'.
Proof.
  intros Hr Hbool Hcur. apply lookup_lt_Some in Hr as Hlen.
  unfold close_tab_cursor. msimpl.
  assert (exists (c : nat) s1,
    (if _current_tab_nb self >=? Z.of_nat (length (tabs self))
     then current_tab_nb_setter (Z.of_nat (length (tabs self)) - 1)
     else ret tt) self = (Return tt, s1) /\
    s1 = set__current_tab_nb (Z.of_nat c) self /\
    (c < length (tabs self))%nat) as (c & s1 & Hfix & -> & Hc).
  { destruct (Z.geb_spec (_current_tab_nb self)
                (Z.of_nat (length (tabs self)))) as [Hge|Hlt].
    - destruct (current_tab_nb_setter_wraps self
                  (Z.of_nat (length (tabs self)) - 1) Hlen)
        as (c & Hset & Hc & _).
      by exists c, (set__current_tab_nb (Z.of_nat c) self).
    - exists (Z.to_nat (_current_tab_nb self)), self.
      rewrite Z2Nat.id by lia. rewrite set__current_tab_nb_id.
      split; [done|]. split; [done|lia]. }
  mstep Hfix. msimpl.
  match goal with
  | |- context [bind (skip_gaps (-1) ?f) _ ?s] =>
      destruct (skip_gaps_down r f s c)
        as (j & t' & Hrun & _ & Ht' & Hbt');
        psimpl; try done; try lia
  end.
  mstep Hrun. psimpl.
  mstep_by ltac:(apply (current_tab_at _ j t'); psimpl; done).
  msimpl. eexists. split; [reflexivity|].
  unfold cursor_ok. psimpl_all. split; [done|]. split; [done|].
  apply lookup_lt_Some in Ht' as Hj. split; [lia|].
  exists t'. by rewrite Nat2Z.id.
Qed.
End Close.

Section CloseTab.
Implicit Types (self : Core) (l : list Tab) (t : Tab).

(** The tab that [close_tab] closes is the one given, or the one under the
    cursor once normalised. *)
Lemma close_tab_which_returns self tab :
  (0 < length (tabs self))%nat -> 0 <= _current_tab_nb self ->
  exists t s1,
    close_tab_which tab self = (Return t, s1) /\
    tabs s1 = tabs self /\ create_gaps s1 = create_gaps self /\
    0 <= _current_tab_nb s1 /\
    ((s1 = self /\ tab = Some t /\ tab_bool t = true) \/
     (exists c : nat, _current_tab_nb s1 = Z.of_nat c /\
                      tabs s1 !! c = Some t)).
Proof.
  intros Hlen Hcur.
  assert (exists t s1,
    current_tab self = (Return t, s1) /\
    tabs s1 = tabs self /\ create_gaps s1 = create_gaps self /\
    0 <= _current_tab_nb s1 /\
    exists c : nat, _current_tab_nb s1 = Z.of_nat c /\
                    tabs s1 !! c = Some t) as Hcurrent.
  { destruct (current_tab_normalises self Hlen) as (c & t & Hrun & Ht & _).
    exists t, (set__current_tab_nb (Z.of_nat c) self).
    split; [done|]. psimpl. repeat split; try done; try lia.
    by exists c. }
  destruct tab as [t|]; cbn [close_tab_which].
  - destruct (tab_bool t) eqn:Hbt.
    + exists t, self. repeat split; try done. left. done.
    + destruct Hcurrent as (t' & s1 & ? & ? & ? & ? & ?).
      exists t', s1. repeat split; try done. by right.
  - destruct Hcurrent as (t' & s1 & ? & ? & ? & ? & ?).
    exists t', s1. repeat split; try done. by right.
Qed.

Lemma index_not_roster l t k r :
  l !! 0%nat = Some r -> isinstance r RosterInfoTab = true ->
  isinstance t RosterInfoTab = false ->
  PyList.index t l = Some k -> (0 < k < length l)%nat.
Proof.
  intros Hr Hroster Ht Hk. apply index_Some in Hk as [Hk _].
  split; [|by eapply lookup_lt_Some].
  destruct k; [|lia]. congruence.
Qed.

(** What [close_tab] leaves when it returns. *)
Lemma close_tab_returns self tab r self' :
  tabs self !! 0%nat = Some r -> isinstance r RosterInfoTab = true ->
  0 <= _current_tab_nb self ->
  close_tab tab self = (Return tt, self') ->
  cursor_ok self' \/
  (exists t, tab = Some t /\ isinstance t RosterInfoTab = true /\
             self' = self).
Proof.
  intros Hr Hroster Hcur. apply lookup_lt_Some in Hr as Hlen.
  apply roster_tab_bool in Hroster as Hbool.
  rewrite close_tab_parts.
  destruct (close_tab_which_returns self tab Hlen Hcur)
    as (t & s1 & Hwhich & Htabs & Hgaps & Hcur1 & Horigin).
  mstep Hwhich.
  destruct (isinstance t RosterInfoTab) eqn:Ht.
  - intros [= <-]. destruct Horigin as [(-> & -> & _)|(c & Hc & Hct)].
    + right. by exists t.
    + left. split.
      * apply lookup_lt_Some in Hct. lia.
      * exists t. rewrite Hc, Nat2Z.id. split; [done|].
        by apply roster_tab_bool.
  - msimpl.
    destruct (PyList.index t (tabs s1)) as [k|] eqn:Hk.
    + destruct (index_not_roster (tabs s1) t k r) as [Hpos Hklen];
        try done; try (psimpl; congruence).
      destruct (close_tab_list_closes
                  (set_calls (calls s1 ++ [on_close t]) s1) t k r)
        as (s3 & Hlist & Htabs3 & Hcur3 & _); try done; try (psimpl; congruence).
      mstep Hlist. psimpl_all.
      destruct (close_tab_cursor_ok s3 r)
        as (s4 & Hcursor & _ & _ & Hok); try done.
      * rewrite Htabs3. apply closed_tabs_first; try done. congruence.
      * lia.
      * rewrite Hcursor. intros [= <-]. by left.
    + rewrite (bind_Raise _ _ _ _ _
                 (close_tab_list_absent
                    (set_calls (calls s1 ++ [on_close t]) s1) t Hk)).
      done.
Qed.

(** [close_tab] returns when the tab given is in the list (and when none
    is given). *)
Lemma close_tab_total self tab r :
  tabs self !! 0%nat = Some r -> isinstance r RosterInfoTab = true ->
  0 <= _current_tab_nb self ->
  (forall t, tab = Some t -> t ∈ tabs self) ->
  exists self', close_tab tab self = (Return tt, self').
Proof.
  intros Hr Hroster Hcur Hin. apply lookup_lt_Some in Hr as Hlen.
  apply roster_tab_bool in Hroster as Hbool.
  rewrite close_tab_parts.
  destruct (close_tab_which_returns self tab Hlen Hcur)
    as (t & s1 & Hwhich & Htabs & Hgaps & Hcur1 & Horigin).
  mstep Hwhich.
  destruct (isinstance t RosterInfoTab) eqn:Ht; [by eexists|].
  msimpl.
  assert (t ∈ tabs s1) as Hmem.
  { destruct Horigin as [(-> & -> & _)|(c & _ & Hct)]; [by apply Hin|].
    by eapply list_elem_of_lookup_2. }
  destruct (index_elem_of t (tabs s1) Hmem) as [k Hk].
  destruct (index_not_roster (tabs s1) t k r) as [Hpos Hklen];
    try done; try (psimpl; congruence).
  destruct (close_tab_list_closes
              (set_calls (calls s1 ++ [on_close t]) s1) t k r)
    as (s3 & Hlist & Htabs3 & Hcur3 & _); try done; try (psimpl; congruence).
  mstep Hlist. psimpl_all.
  destruct (close_tab_cursor_ok s3 r)
    as (s4 & Hcursor & _); try done.
  - rewrite Htabs3. apply closed_tabs_first; try done. congruence.
  - lia.
  - by exists s4.
Qed.

(** In gap mode [close_tab] keeps the invariant of the list, whatever its
    outcome. *)
Lemma close_tab_tabs_inv self tab :
  create_gaps self = true -> tabs_inv (tabs self) ->
  tabs_inv (tabs (snd (close_tab tab self))) /\
  create_gaps (snd (close_tab tab self)) = true.
Proof.
  intros Hgaps Hinv. rewrite close_tab_parts.
  destruct (keeps_tabs_close_tab_which tab self) as [Htabs1 Hgaps1].
  destruct (close_tab_which tab self) as [[t|e|] s1] eqn:Hwhich;
    cbn [snd] in *.
  2:{ rewrite (bind_Raise _ _ _ _ _ Hwhich). cbn [snd]. by rewrite Htabs1, Hgaps1. }
  2:{ rewrite (bind_Diverge _ _ _ _ Hwhich). cbn [snd]. by rewrite Htabs1, Hgaps1. }
  mstep Hwhich.
  rewrite <- Htabs1 in Hinv. rewrite <- Hgaps1 in Hgaps.
  clear Htabs1 Hgaps1.
  destruct (isinstance t RosterInfoTab) eqn:Ht; [done|].
  msimpl.
  destruct (PyList.index t (tabs s1)) as [k|] eqn:Hk.
  - destruct Hinv as [(r & Hr & Hroster) Hlast].
    destruct (index_not_roster (tabs s1) t k r) as [Hpos Hklen]; try done.
    destruct (close_tab_list_closes
                (set_calls (calls s1 ++ [on_close t]) s1) t k r)
      as (s3 & Hlist & Htabs3 & _ & Hgaps3); try done.
    { by apply roster_tab_bool. }
    mstep Hlist. psimpl_all.
    destruct (keeps_tabs_close_tab_cursor s3) as [-> ->].
    rewrite Htabs3, Hgaps3, Hgaps. split; [|done].
    apply closed_tabs_inv; [|done]. split; [by exists r|done].
  - by rewrite (bind_Raise _ _ _ _ _
                  (close_tab_list_absent
                     (set_calls (calls s1 ++ [on_close t]) s1) t Hk)).
Qed.

Lemma insert_tab_cases self old_pos new_pos :
  (old_pos <= 0 \/ Z.of_nat (length (tabs self)) <= old_pos \/
   new_pos <= 0 \/ new_pos = old_pos \/
   (exists t, tabs self !! Z.to_nat old_pos = Some t /\ tab_bool t = false))
  \/
  (exists (old : nat) tab,
     old_pos = Z.of_nat old /\ tabs self !! old = Some tab /\
     tab_bool tab = true /\ (0 < old)%nat /\ 0 < new_pos /\
     new_pos <> Z.of_nat old).
Proof.
  destruct (decide (old_pos <= 0)); [by auto|].
  destruct (decide (Z.of_nat (length (tabs self)) <= old_pos)); [by auto|].
  destruct (decide (new_pos <= 0)); [by auto 6|].
  destruct (decide (new_pos = old_pos)); [by auto 6|].
  destruct (lookup_lt_is_Some_2 (tabs self) (Z.to_nat old_pos)) as [t Ht];
    [lia|].
  destruct (tab_bool t) eqn:Hbt.
  - right. exists (Z.to_nat old_pos), t. repeat split; try done; lia.
  - left. do 4 right. by exists t.
Qed.
End CloseTab.

Section MoveExact.
Implicit Types (self : Core) (l : list Tab) (t : Tab).

(** The loop that removes the first Gap after [i] removes the one at [p]
    when the tabs between are no Gaps, and nothing when no Gap follows. *)
Lemma delete_gap_after_first l : forall (d i p : nat) g,
  p = S (i + d) -> l !! p = Some g -> tab_bool g = false ->
  (forall k t, (i < k < p)%nat -> l !! k = Some t -> tab_bool t = true) ->
  delete_gap_after i l = delete p l.
Proof.
  induction d as [|d IH]; intros i p g Hp Hg Hbg Htabs.
  - subst p. rewrite Nat.add_0_r in *. by apply (delete_gap_after_gap i l g).
  - destruct (lookup_lt_is_Some_2 l (S i)) as [t Ht].
    { apply lookup_lt_Some in Hg. lia. }
    rewrite (delete_gap_after_tab i l t);
      [|done|apply (Htabs (S i)); [lia|done]].
    apply (IH (S i) p g); try done; [lia|].
    intros k t' Hk. apply Htabs. lia.
Qed.

Lemma delete_gap_after_none l : forall (d i : nat),
  (length l <= S (i + d))%nat ->
  (forall k t, (i < k)%nat -> l !! k = Some t -> tab_bool t = true) ->
  delete_gap_after i l = l.
Proof.
  induction d as [|d IH]; intros i Hlen Htabs.
  - apply delete_gap_after_ge. lia.
  - destruct (decide (length l <= S i)%nat);
      [by apply delete_gap_after_ge|].
    destruct (lookup_lt_is_Some_2 l (S i)) as [t Ht]; [lia|].
    rewrite (delete_gap_after_tab i l t);
      [|done|apply (Htabs (S i)); [lia|done]].
    apply IH; [lia|]. intros k t' Hk. apply Htabs. lia.
Qed.

Lemma first_free_search l old (n : nat) : forall d start,
  (start + d = length l)%nat -> (n <= start)%nat ->
  (forall j t, (n <= j < start)%nat -> l !! j = Some t ->
               j <> old /\ tab_bool t = true) ->
  exists g,
    (start <= g <= length l)%nat /\
    (forall j t, (n <= j < g)%nat -> l !! j = Some t ->
                 j <> old /\ tab_bool t = true) /\
    (g = old \/ g = length l \/
     exists t, l !! g = Some t /\ tab_bool t = false).
Proof.
  induction d as [|d IH]; intros start Hd Hn Hok.
  - exists start. split; [lia|]. split; [done|]. right. left. lia.
  - destruct (lookup_lt_is_Some_2 l start) as [t Ht]; [lia|].
    destruct (decide (start = old)) as [->|Hne].
    { exists old. split; [lia|]. split; [done|]. by left. }
    destruct (tab_bool t) eqn:Hbt; cycle 1.
    { exists start. split; [lia|]. split; [done|]. right. right.
      by exists t. }
    destruct (IH (S start)) as (g & Hg & Hok' & Hend); [lia|lia| |].
    + intros j t' Hj Ht'. destruct (decide (j = start)) as [->|].
      * split; [done|congruence].
      * apply Hok; [lia|done].
    + exists g. split; [lia|done].
Qed.

Lemma first_free_exists l old new : exists g, first_free l old new g.
Proof.
  set (n := Z.to_nat (Z.min new (Z.of_nat (length l)))).
  destruct (first_free_search l old n (length l - n) n)
    as (g & Hg & Hok & Hend); [lia|lia|intros; lia|].
  exists g. split; [lia|]. split; [lia|]. split; [|done].
  intros j t Hnew Hj Ht. apply Hok; [lia|done].
Qed.

Lemma first_free_unique l old new g g' :
  first_free l old new g -> first_free l old new g' -> g = g'.
Proof.
  assert (forall g g', first_free l old new g -> first_free l old new g' ->
                       ~ (g < g')%nat) as Hlt.
  { clear g g'. intros g g' (Hmin & Hlen & _ & Hend) (_ & Hlen' & Hok' & _) Hlt.
    destruct (lookup_lt_is_Some_2 l g) as [t Ht]; [lia|].
    destruct (Hok' g t) as [Hne Hbt]; [lia|done|done|].
    destruct Hend as [?|[?|(t' & Ht' & Hbt')]]; [done|lia|congruence]. }
  intros Hg Hg'. pose proof (Hlt _ _ Hg Hg'). pose proof (Hlt _ _ Hg' Hg).
  lia.
Qed.

(** Where every tab stands after a move in gap mode, before the Gaps at
    the end of the list are removed. *)
Lemma insert_tab_gaps_exact self (old : nat) new tab r g :
  tabs self !! old = Some tab -> tab_bool tab = true ->
  (0 < old)%nat -> 0 < new -> new <> Z.of_nat old ->
  tabs self !! 0%nat = Some r -> tab_bool r = true ->
  (forall j, tabs self !! j = Some tab -> j = old) ->
  first_free (tabs self) old new g ->
  exists L,
    insert_tab_gaps (Z.of_nat old) new self =
      (Return true, set_tabs (strip_gaps L) (allocate self)) /\
    (forall j t, j <> old -> tabs self !! j = Some t -> tab_bool t = true ->
       L !! (if decide (new <= Z.of_nat j /\ (j < g)%nat) then S j else j)
       = Some t) /\
    L !! Z.to_nat (Z.min new (Z.of_nat (length (tabs self)))) = Some tab /\
    (g <> old -> L !! old = Some (next_gap self)) /\
    length L = (if decide (g = length (tabs self)) then S (length (tabs self))
                else length (tabs self)).
Proof.
  intros Hold Htab Hpos Hnew Hne Hr Hbool Huniq (Hmin & Hglen & Hok & Hend).
  apply lookup_lt_Some in Hold as Hlt.
  set (l := tabs self) in *. set (gap := next_gap self).
  assert (tab_bool gap = false) as Hgap by done.
  destruct (decide (Z.of_nat (length l) <= new)) as [Hbeyond|Hin].
  { (* beyond the end *)
    assert (g = length l) as -> by lia.
    exists (<[old := gap]> l ++ [tab]). split; [|split; [|split; [|split]]].
    - rewrite (insert_tab_gaps_end self old new tab) by done.
      subst l gap. by rewrite strip_gaps_snoc, Htab.
    - intros j t Hj Ht _. apply lookup_lt_Some in Ht as Hjlen.
      rewrite decide_False by lia.
      rewrite lookup_app_l by (rewrite length_insert; lia).
      by rewrite list_lookup_insert_ne by done.
    - rewrite Z.min_r by lia. rewrite Nat2Z.id.
      rewrite lookup_app_r by (rewrite length_insert; lia).
      by rewrite length_insert, Nat.sub_diag.
    - intros _. rewrite lookup_app_l by (rewrite length_insert; lia).
      by apply list_lookup_insert_eq.
    - rewrite decide_True by done. rewrite length_app, length_insert.
      cbn. lia. }
  assert (exists n : nat, new = Z.of_nat n) as [n ->].
  { exists (Z.to_nat new). lia. }
  assert (n < length l)%nat as Hn by lia.
  assert (n <> old) as Hne' by lia.
  assert (n <= g)%nat as Hng by lia.
  rewrite Z.min_l by lia. rewrite Nat2Z.id.
  destruct (lookup_lt_is_Some_2 l n Hn) as [target Htarget].
  destruct (tab_bool target) eqn:Hbt; cycle 1.
  { (* onto a Gap *)
    assert (g = n) as ->.
    { destruct (decide (g = n)) as [|Hgn]; [done|].
      destruct (Hok n target) as [_ ?]; [lia|lia|done|congruence]. }
    exists (<[old := gap]> (<[n := tab]> l)).
    split; [|split; [|split; [|split]]].
    - apply (insert_tab_gaps_into_gap self old n tab target r);
        try done; lia.
    - intros j t Hj Ht Hnongap. rewrite decide_False by lia.
      rewrite !list_lookup_insert_ne; [done| |done]. intros ->. congruence.
    - rewrite list_lookup_insert_ne by lia. by apply list_lookup_insert_eq.
    - intros _. apply list_lookup_insert_eq. by rewrite length_insert.
    - rewrite decide_False by lia. by rewrite !length_insert. }
  (* onto a tab *)
  assert (n < g)%nat as Hng'.
  { destruct (decide (g = n)) as [->|]; [|lia].
    destruct Hend as [?|[?|(t' & Ht' & Hbt')]]; [done|lia|congruence]. }
  assert (forall L l1,
    (forall j, (j < n)%nat -> j <> old -> l1 !! j = l !! j) ->
    (forall j, (n <= j)%nat -> j <> old -> l1 !! S j = l !! j) ->
    l1 !! n = Some tab ->
    length l1 = S (length l) ->
    (g <> old -> (if decide (old < n)%nat then l1 !! old else l1 !! S old)
                 = Some gap) ->
    (g < length l)%nat -> (exists t, l1 !! S g = Some t /\ tab_bool t = false) ->
    L = delete (S g) l1 ->
    (forall j t, j <> old -> l !! j = Some t -> tab_bool t = true ->
       L !! (if decide (Z.of_nat n <= Z.of_nat j /\ (j < g)%nat)
             then S j else j) = Some t) /\
    L !! n = Some tab /\
    (g <> old -> L !! old = Some gap) /\
    length L = (if decide (g = length l) then S (length l) else length l))
    as Hdeleted.
  { intros L l1 Hl1lt Hl1ge Hl1n Hlen1 Hl1old Hg _ ->.
    split; [|split; [|split]].
    - intros j t Hj Ht Hnongap.
      assert (j <> g) as Hjg.
      { intros ->.
        destruct Hend as [?|[?|(t' & Ht' & Hbt')]]; [done|lia|congruence]. }
      destruct (decide (Z.of_nat n <= Z.of_nat j /\ (j < g)%nat))
        as [[Hnj Hjg']|Hout].
      + rewrite list_lookup_delete_lt by lia. rewrite Hl1ge by (lia || done).
        done.
      + destruct (decide (j < n)%nat).
        * rewrite list_lookup_delete_lt by lia. by rewrite Hl1lt.
        * rewrite list_lookup_delete_ge by lia. rewrite Hl1ge by (lia || done).
          done.
    - rewrite list_lookup_delete_lt by lia. done.
    - intros Hgo. specialize (Hl1old Hgo).
      destruct (decide (old < n)%nat).
      + by rewrite list_lookup_delete_lt by lia.
      + assert (g < old)%nat.
        { destruct (decide (g < old)%nat); [done|].
          destruct (Hok old tab) as [? _]; [lia|lia|done|done]. }
        by rewrite list_lookup_delete_ge by lia.
    - rewrite decide_False by lia.
      rewrite length_delete by (apply lookup_lt_is_Some; lia). lia. }
  destruct (decide (old < n)%nat) as [Hright|Hleft].
  - set (l1 := <[old := gap]> (take n l ++ tab :: drop n l)).
    assert (length l1 = S (length l)) as Hlen1.
    { subst l1. rewrite length_insert, length_app, length_take, length_cons,
        length_drop. lia. }
    assert (l1 !! n = Some tab) as Hl1n.
    { subst l1. rewrite list_lookup_insert_ne by lia.
      rewrite lookup_app_r by (rewrite length_take; lia).
      rewrite length_take.
      by replace (n - n `min` length l)%nat with 0%nat by lia. }
    assert (forall j, (j < n)%nat -> j <> old -> l1 !! j = l !! j) as Hl1lt.
    { intros j Hj Hjo. subst l1. rewrite list_lookup_insert_ne by lia.
      rewrite lookup_app_l by (rewrite length_take; lia).
      by rewrite lookup_take_lt by lia. }
    assert (forall j, (n <= j)%nat -> j <> old -> l1 !! S j = l !! j)
      as Hl1ge.
    { intros j Hj _. subst l1. rewrite list_lookup_insert_ne by lia.
      rewrite lookup_app_r by (rewrite length_take; lia).
      rewrite length_take.
      replace (S j - n `min` length l)%nat with (S (j - n)) by lia.
      change ((tab :: drop n l) !! S (j - n)) with (drop n l !! (j - n)%nat).
      rewrite lookup_drop. f_equal. lia. }
    assert (l1 !! old = Some gap) as Hl1old.
    { subst l1. apply list_lookup_insert_eq.
      rewrite length_app, length_take. cbn. lia. }
    assert (g <> old) as Hgo by lia.
    assert (PyList.index tab l1 = Some n) as Hi.
    { apply index_Some. split; [done|]. intros j Hj Hjt.
      destruct (decide (j = old)) as [->|Hjo]; [congruence|].
      rewrite Hl1lt in Hjt by done. apply Huniq in Hjt. lia. }
    rewrite (insert_tab_gaps_right self old n tab target r l1 n);
      try done; try lia.
    assert (forall k t, (n < k < S g)%nat -> l1 !! k = Some t ->
                        tab_bool t = true) as Hbetween.
    { intros k t Hk Ht. destruct k as [|k]; [lia|].
      rewrite Hl1ge in Ht by lia.
      by destruct (Hok k t) as [_ ?]; [lia|lia|done|]. }
    destruct Hend as [?|[Hnone|(tg & Htg & Hbtg)]]; [lia| |].
    + (* no Gap follows: the list is longer by one *)
      subst g. exists l1. split; [|split; [|split; [|split]]].
      * do 3 f_equal. apply (delete_gap_after_none l1 (length l1)); [lia|].
        intros k t Hk Ht. apply lookup_lt_Some in Ht as Hklen.
        apply (Hbetween k t); [lia|done].
      * intros j t Hj Ht Hnongap. apply lookup_lt_Some in Ht as Hjlen.
        destruct (decide (Z.of_nat n <= Z.of_nat j /\ (j < length l)%nat))
          as [[Hnj _]|Hout].
        -- rewrite Hl1ge by (lia || done). done.
        -- rewrite Hl1lt by (lia || done). done.
      * done.
      * done.
      * by rewrite decide_True.
    + apply lookup_lt_Some in Htg as Hglt.
      exists (delete (S g) l1). split.
      * do 3 f_equal. apply (delete_gap_after_first l1 (g - n) n (S g) tg);
          try done; [lia|]. by rewrite Hl1ge by lia.
      * apply (Hdeleted (delete (S g) l1) l1 Hl1lt Hl1ge Hl1n Hlen1);
          [by intros _|done
          |exists tg; by rewrite Hl1ge by lia|done].
  - assert (n < old)%nat as Hlt' by lia.
    set (l' := <[old := gap]> l).
    set (l1 := take n l' ++ tab :: drop n l').
    assert (length l' = length l) as Hlen' by apply length_insert.
    assert (length l1 = S (length l)) as Hlen1.
    { subst l1. rewrite length_app, length_take, length_cons, length_drop.
      lia. }
    assert (l1 !! n = Some tab) as Hl1n.
    { subst l1. rewrite lookup_app_r by (rewrite length_take; lia).
      rewrite length_take.
      by replace (n - n `min` length l')%nat with 0%nat by lia. }
    assert (forall j, (j < n)%nat -> j <> old -> l1 !! j = l !! j) as Hl1lt.
    { intros j Hj _. subst l1 l'.
      rewrite lookup_app_l by (rewrite length_take; lia).
      rewrite lookup_take_lt by lia.
      by rewrite list_lookup_insert_ne by lia. }
    assert (forall j, (n <= j)%nat -> l1 !! S j = l' !! j) as Hl1ge'.
    { intros j Hj. subst l1.
      rewrite lookup_app_r by (rewrite length_take; lia).
      rewrite length_take.
      replace (S j - n `min` length l')%nat with (S (j - n)) by lia.
      change ((tab :: drop n l') !! S (j - n)) with (drop n l' !! (j - n)%nat).
      rewrite lookup_drop. f_equal. lia. }
    assert (forall j, (n <= j)%nat -> j <> old -> l1 !! S j = l !! j)
      as Hl1ge.
    { intros j Hj Hjo. rewrite Hl1ge' by done. subst l'.
      by rewrite list_lookup_insert_ne by lia. }
    assert (l1 !! S old = Some gap) as Hl1old.
    { rewrite Hl1ge' by lia. subst l'. by apply list_lookup_insert_eq. }
    assert (g <= old)%nat as Hgo.
    { destruct (decide (g <= old)%nat); [done|].
      destruct (Hok old tab) as [? _]; [lia|lia|done|done]. }
    assert (PyList.index tab l1 = Some n) as Hi.
    { apply index_Some. split; [done|]. intros j Hj Hjt.
      rewrite Hl1lt in Hjt by lia. apply Huniq in Hjt. lia. }
    rewrite (insert_tab_gaps_left self old n tab target r l1 n);
      try done; try lia.
    assert (forall k t, (n < k < S g)%nat -> l1 !! k = Some t ->
                        tab_bool t = true) as Hbetween.
    { intros k t Hk Ht. destruct k as [|k]; [lia|].
      rewrite Hl1ge in Ht by lia.
      by destruct (Hok k t) as [_ ?]; [lia|lia|done|]. }
    assert (exists tg, l1 !! S g = Some tg /\ tab_bool tg = false)
      as (tg & Htg & Hbtg).
    { destruct (decide (g = old)) as [->|Hgne]; [by exists gap|].
      destruct Hend as [?|[?|(tg & Htg & Hbtg)]]; [done|lia|].
      exists tg. by rewrite Hl1ge by lia. }
    exists (delete (S g) l1). split.
    + do 3 f_equal. apply (delete_gap_after_first l1 (g - n) n (S g) tg);
        try done. lia.
    + apply (Hdeleted (delete (S g) l1) l1 Hl1lt Hl1ge Hl1n Hlen1);
        [by intros _|lia|by exists tg|done].
Qed.

End MoveExact.

Section CoreFacts.
Implicit Types self : Core.

Lemma insert_tab_guards :
  forall self old_pos new_pos,
    old_pos <= 0 \/ Z.of_nat (length (tabs self)) <= old_pos \/
    new_pos <= 0 \/ new_pos = old_pos \/
    (exists t, tabs self !! Z.to_nat old_pos = Some t /\ tab_bool t = false) ->
    insert_tab old_pos new_pos self = (Return false, self).
Proof.
  intros self old_pos new_pos Hcase.
  unfold insert_tab, len_tabs, bind, get, ret.
  destruct (Z.leb_spec old_pos 0) as [|Hold]; [done|].
  destruct (Z.geb_spec old_pos (Z.of_nat (length (tabs self)))) as [|Hlen];
    [done|]. cbn [orb].
  destruct (Z.leb_spec new_pos 0) as [|Hnew]; [done|].
  destruct (Z.eqb_spec new_pos old_pos) as [|Hne]; [done|].
  destruct Hcase as [?|[?|[?|[?|(t & Ht & Hgap)]]]]; try lia.
  unfold tabs_getitem, bind, get, lift_option.
  rewrite getitem_inrange by lia. rewrite Ht. unfold ret.
  by rewrite Hgap.
Qed.


Lemma delete_snoc {A} (l : list A) (x : A) : forall k,
  (k < length l)%nat -> delete k (l ++ [x]) = delete k l ++ [x].
Proof.
  induction l as [|y l IH]; intros k Hk; cbn in Hk; [lia|].
  destruct k as [|k]; [done|]. cbn. f_equal. apply IH. lia.
Qed.

(** A destination beyond the end of the list: the tab becomes the last. *)
Lemma insert_tab_to_end self (old : nat) new_pos tab :
  tabs self !! old = Some tab -> tab_bool tab = true -> (0 < old)%nat ->
  Z.of_nat (length (tabs self)) <= new_pos ->
  exists self',
    insert_tab (Z.of_nat old) new_pos self = (Return true, self') /\
    last (tabs self') = Some tab.
Proof.
  intros Hold Htab Hpos Hnew. apply lookup_lt_Some in Hold as Hlt.
  rewrite (insert_tab_accepted self old new_pos tab) by (done || lia).
  destruct (create_gaps self).
  - rewrite (insert_tab_gaps_end self old new_pos tab) by done.
    eexists. split; [reflexivity|]. psimpl. apply last_snoc.
  - unfold insert_tab_nogaps.
    mstep (tabs_getitem_nat _ _ _ Hold).
    destruct (Z.ltb_spec new_pos (Z.of_nat old)); [lia|].
    destruct (Z.gtb_spec new_pos (Z.of_nat old)); [|lia].
    msimpl. rewrite insert_beyond by done.
    destruct (index_elem_of tab (tabs self ++ [tab])) as [k Hk].
    { apply elem_of_app. right. left. }
    assert (k < length (tabs self))%nat as Hklt.
    { apply index_Some in Hk as [_ Hfirst].
      destruct (decide (k <= old)%nat); [lia|].
      destruct (Hfirst old); [lia|]. by rewrite lookup_app_l by lia. }
    mstep_by ltac:(apply tabs_remove_index; psimpl; exact Hk).
    eexists. split; [reflexivity|]. psimpl.
    rewrite delete_snoc by done. apply last_snoc.
Qed.

(** C5, amended. [insert_tab] returns [False] and leaves the core as it
    was when [old_pos] is outside of [1, len), when [new_pos] is below 1,
    when the two are equal and when [old_pos] is the place of a Gap; a
    [new_pos] at or beyond the length of the list is accepted, and the tab
    moved becomes the last of the list. *)
Theorem insert_tab_failure_cases :
  forall self old_pos new_pos,
    (old_pos <= 0 \/ Z.of_nat (length (tabs self)) <= old_pos \/
     new_pos <= 0 \/ new_pos = old_pos \/
     (exists t, tabs self !! Z.to_nat old_pos = Some t /\
                tab_bool t = false) ->
     insert_tab old_pos new_pos self = (Return false, self)) /\
    (forall tab,
       0 < old_pos -> tabs self !! Z.to_nat old_pos = Some tab ->
       tab_bool tab = true ->
       Z.of_nat (length (tabs self)) <= new_pos ->
       exists self',
         insert_tab old_pos new_pos self = (Return true, self') /\
         last (tabs self') = Some tab).
Proof.
  intros self old_pos new_pos. split.
  - apply insert_tab_guards.
  - intros tab Hpos Hold Htab Hnew.
    rewrite <- (Z2Nat.id old_pos) by lia.
    apply insert_tab_to_end; try done. lia.
Qed.

(** C5, as stated, fails: a [new_pos] at or beyond the length of the list
    is accepted, and the tab moves to the end. *)
Lemma insert_tab_beyond_end_accepted :
  let self := sample_core [Roster; tab_A; tab_B] 0 false in
  Z.of_nat (length (tabs self)) <= 5 /\
  insert_tab 1 5 self = (Return true, set_tabs [Roster; tab_B; tab_A] self) /\
  insert_tab 1 5 self <> (Return false, self).
Proof. cbv zeta. split; [cbn; lia|]. split; [reflexivity|discriminate]. Qed.

Lemma insert_tab_tabs_inv self old_pos new_pos :
  create_gaps self = true -> tabs_inv (tabs self) ->
  tabs_inv (tabs (snd (insert_tab old_pos new_pos self))) /\
  create_gaps (snd (insert_tab old_pos new_pos self)) = true.
Proof.
  intros Hgaps Hinv.
  destruct (insert_tab_cases self old_pos new_pos)
    as [Hrej|(old & tab & -> & Hold & Htab & Hpos & Hnew & Hne)].
  - by rewrite (insert_tab_guards _ _ _ Hrej).
  - rewrite (insert_tab_accepted self old new_pos tab) by done.
    rewrite Hgaps. destruct Hinv as [(r & Hr & Hroster) _].
    destruct (insert_tab_gaps_moves self old new_pos tab r)
      as (L & -> & HL & _); try done.
    { by apply roster_tab_bool. }
    psimpl. cbn [snd]. psimpl. split; [|done].
    by apply (tabs_inv_strip_gaps _ r).
Qed.

(** C3. In gap mode, from a list of tabs that has the roster tab at index
    0 and no Gap at its end, every sequence of calls of [close_tab] and
    [insert_tab] leaves such a list: no Gap at the end, and the roster
    tab, which is no Gap, at index 0. *)
Theorem gap_invariant :
  forall ops self,
    create_gaps self = true ->
    tabs_inv (tabs self) ->
    tabs_inv (tabs (run_ops ops self)) /\
    (forall t, last (tabs (run_ops ops self)) = Some t ->
               isinstance t GapTab = false) /\
    (forall t, tabs (run_ops ops self) !! 0%nat = Some t ->
               isinstance t GapTab = false).
Proof.
  assert (forall ops self, create_gaps self = true -> tabs_inv (tabs self) ->
            tabs_inv (tabs (run_ops ops self))) as Hinv.
  { induction ops as [|op ops IH]; intros self Hgaps Hinv; [done|].
    cbn [run_ops]. destruct op as [tab|old_pos new_pos]; cbn [run_op].
    - destruct (close_tab_tabs_inv self tab Hgaps Hinv). by apply IH.
    - destruct (insert_tab_tabs_inv self old_pos new_pos Hgaps Hinv)
        as [Hinv' Hgaps'].
      apply IH.
      + unfold bind. by destruct (insert_tab _ _ _) as [[?|?|] ?].
      + unfold bind. by destruct (insert_tab _ _ _) as [[?|?|] ?]. }
  intros ops self Hgaps Hstart.
  specialize (Hinv ops self Hgaps Hstart).
  split; [done|]. destruct Hinv as [(r & Hr & Hroster) Hlast]. split.
  - intros t Ht. rewrite tab_bool_isinstance. by rewrite (Hlast t Ht).
  - intros t Ht. rewrite tab_bool_isinstance.
    assert (t = r) as -> by congruence.
    by rewrite (roster_tab_bool r Hroster).
Qed.

(** C4, as stated, fails: on [Roster, A, B, C] the move of A to 3 leaves
    [Roster, Gap, B, A, C], where C has the number 4. *)
Lemma insert_tab_gaps_shifts_next :
  let self := sample_core [Roster; tab_A; tab_B; tab_C] 0 true in
  let self' := snd (insert_tab 1 3 self) in
  insert_tab 1 3 self =
    (Return true,
     set_tabs [Roster; Gap 10; tab_B; tab_A; tab_C] (allocate self)) /\
  nb tab_C (tabs self) = 3 /\ nb tab_C (tabs self') = 4 /\
  nb tab_C (tabs self') <> nb tab_C (tabs self) /\
  nb tab_B (tabs self') = 2 /\ tabs self' !! 1%nat = Some (Gap 10).
Proof. cbv zeta. repeat split. discriminate. Qed.

(** C4, amended. In gap mode a move that [insert_tab] accepts, of a tab
    that stands once in the list, returns [True]. Let [g] be the first
    position, from the destination on, that holds a Gap or is the place
    that the tab leaves, or the length of the list when there is none.
    The tab moved stands at the destination, or at the end when the
    destination is beyond; every other tab that is no Gap keeps its index,
    but for those from the destination up to [g], which get the next one:
    the tabs before the destination and those after [g] keep theirs, and
    all do when the destination is the place of a Gap or beyond the end.
    The Gap at [g] is taken away, so that the list does not grow unless
    [g] is its length; and a new Gap stands at the place that the tab
    left, unless that place is [g] or the Gap was at the end of the list
    and removed with the others there. *)
Theorem gap_move_numbering :
  forall self (old : nat) new_pos tab r,
    create_gaps self = true ->
    tabs self !! 0%nat = Some r -> tab_bool r = true ->
    tabs self !! old = Some tab -> tab_bool tab = true ->
    (0 < old)%nat -> 0 < new_pos -> new_pos <> Z.of_nat old ->
    (forall j, tabs self !! j = Some tab -> j = old) ->
    exists self' g,
      insert_tab (Z.of_nat old) new_pos self = (Return true, self') /\
      (forall j t, j <> old -> tabs self !! j = Some t ->
                   tab_bool t = true ->
         (tabs self' !! j = Some t \/ tabs self' !! S j = Some t) /\
         (Z.of_nat j < new_pos -> tabs self' !! j = Some t) /\
         (Z.of_nat (length (tabs self)) <= new_pos \/
          (exists target, tabs self !! Z.to_nat new_pos = Some target /\
                          tab_bool target = false) ->
          tabs self' !! j = Some t)) /\
      tabs self' !!
        Z.to_nat (Z.min new_pos (Z.of_nat (length (tabs self)))) = Some tab /\
      first_free (tabs self) old new_pos g /\
      (forall j t, j <> old -> tabs self !! j = Some t ->
                   tab_bool t = true ->
         tabs self' !!
           (if decide (new_pos <= Z.of_nat j /\ (j < g)%nat) then S j else j)
         = Some t) /\
      (g <> old ->
       tabs self' !! old = Some (next_gap self) \/
       (new_pos < Z.of_nat old /\ (length (tabs self') <= old)%nat)) /\
      (length (tabs self') <=
       if decide (g = length (tabs self)) then S (length (tabs self))
       else length (tabs self))%nat.
Proof.
  intros self old new_pos tab r Hgaps Hr Hbool Hold Htab Hpos Hnew Hne Huniq.
  rewrite (insert_tab_accepted self old new_pos tab) by done.
  rewrite Hgaps.
  destruct (first_free_exists (tabs self) old new_pos) as [g Hg].
  destruct (insert_tab_gaps_exact self old new_pos tab r g)
    as (L & -> & Hexact & Hmoved & Hleft & Hlen); try done.
  pose proof Hg as (Hmin & Hglen & Hok & Hend).
  apply lookup_lt_Some in Hold as Holdlen.
  assert (forall j t, j <> old -> tabs self !! j = Some t ->
            tab_bool t = true ->
            strip_gaps L !!
              (if decide (new_pos <= Z.of_nat j /\ (j < g)%nat) then S j
               else j) = Some t) as Hstrip.
  { intros j t Hj Ht Hbt. apply strip_gaps_lookup; [|done]. by apply Hexact. }
  exists (set_tabs (strip_gaps L) (allocate self)), g.
  split; [reflexivity|]. psimpl.
  split; [|split; [|split; [|split; [|split]]]]; try done.
  - intros j t Hj Ht Hbt. specialize (Hstrip j t Hj Ht Hbt).
    split; [|split].
    + destruct (decide (new_pos <= Z.of_nat j /\ (j < g)%nat));
        [by right|by left].
    + intros Hlt. by rewrite decide_False in Hstrip by lia.
    + intros Hdest. rewrite decide_False in Hstrip; [done|].
      intros [Hnj Hjg]. destruct Hdest as [?|(target & Htarget & Hgap)].
      * apply lookup_lt_Some in Ht. lia.
      * destruct (Hok (Z.to_nat new_pos) target) as [_ ?];
          [lia|lia|done|congruence].
  - by apply strip_gaps_lookup.
  - intros Hgo. specialize (Hleft Hgo).
    destruct (strip_gaps_prefix L) as [k Hk]. rewrite Hk.
    destruct (decide (old < k)%nat) as [Hin|Hout].
    + left. by rewrite lookup_take_lt.
    + destruct (decide (new_pos < Z.of_nat old)) as [Hlt|Hge].
      * right. split; [done|]. rewrite length_take. lia.
      * exfalso.
        assert (strip_gaps L
                  !! Z.to_nat (Z.min new_pos (Z.of_nat (length (tabs self))))
                = Some tab) as Hm by by apply strip_gaps_lookup.
        rewrite Hk in Hm. apply lookup_lt_Some in Hm.
        rewrite length_take in Hm. lia.
  - destruct (strip_gaps_prefix L) as [k Hk]. rewrite Hk, length_take.
    rewrite <- Hlen. lia.
Qed.

(** C7, as stated, fails for an assignment: the setter stores the index of
    a Gap as it is. *)
Lemma current_tab_nb_setter_on_gap :
  let self := sample_core [Roster; Gap 4; tab_A] 0 true in
  let self' := snd (current_tab_nb_setter 1 self) in
  tabs self !! 0%nat = Some Roster /\ tab_bool Roster = true /\
  _current_tab_nb self' = 1 /\
  tabs self' !! 1%nat = Some (Gap 4) /\ tab_bool (Gap 4) = false /\
  ~ cursor_ok self'.
Proof.
  cbv zeta. repeat split.
  intros [_ (t & Ht & Hbt)]. cbn in Ht. by injection Ht as <-.
Qed.

(** C7, amended. With a tab that is no Gap at index 0: an assignment to
    the current-tab index leaves it in [0, len), wrapping to 0 from a
    value at or above the length and to the last index from a negative
    one, and stores a value of the range as it is; after
    [rotate_rooms_right] and [rotate_rooms_left], which return, the index
    is in the range and that of a tab that is no Gap; and so it is after
    any [close_tab] that returns, with the roster tab at index 0 and an
    index that was not negative, but for the call on the roster tab
    itself, which changes nothing. *)
Theorem focus_cursor_invariant :
  forall self r,
    tabs self !! 0%nat = Some r -> tab_bool r = true ->
    (forall value,
       exists self',
         current_tab_nb_setter value self = (Return tt, self') /\
         tabs self' = tabs self /\
         0 <= _current_tab_nb self' < Z.of_nat (length (tabs self)) /\
         (Z.of_nat (length (tabs self)) <= value ->
          _current_tab_nb self' = 0) /\
         (value < 0 ->
          _current_tab_nb self' = Z.of_nat (length (tabs self)) - 1) /\
         (0 <= value < Z.of_nat (length (tabs self)) ->
          _current_tab_nb self' = value)) /\
    (exists self',
       rotate_rooms_right self = (Return tt, self') /\
       tabs self' = tabs self /\ cursor_ok self') /\
    (exists self',
       rotate_rooms_left self = (Return tt, self') /\
       tabs self' = tabs self /\ cursor_ok self') /\
    (isinstance r RosterInfoTab = true -> 0 <= _current_tab_nb self ->
     forall tab,
       ((forall t, tab = Some t -> t ∈ tabs self) ->
        exists self', close_tab tab self = (Return tt, self')) /\
       (forall self',
          close_tab tab self = (Return tt, self') ->
          (cursor_ok self' \/
           exists t, tab = Some t /\ isinstance t RosterInfoTab = true /\
                     self' = self) /\
          (cursor_ok self -> cursor_ok self'))).
Proof.
  intros self r Hr Hbool. apply lookup_lt_Some in Hr as Hlen.
  split; [|split; [|split]].
  - intros value.
    destruct (current_tab_nb_setter_wraps self value Hlen)
      as (c & -> & Hc & Hge & Hneg & Hin).
    eexists. split; [reflexivity|]. psimpl. split; [done|].
    split; [lia|]. split; [|split].
    + intros Hv. rewrite (Hge Hv). done.
    + intros Hv. rewrite (Hneg Hv). lia.
    + done.
  - by apply (rotate_rooms_right_cursor self r).
  - by apply (rotate_rooms_left_cursor self r).
  - intros Hroster Hcur tab. split.
    + by apply (close_tab_total self tab r).
    + intros self' Hclose.
      pose proof (close_tab_returns self tab r self' Hr Hroster Hcur Hclose)
        as Hafter.
      split; [done|]. intros Hok.
      destruct Hafter as [?|(t & _ & _ & ->)]; done.
Qed.

Lemma set_calls_id self : set_calls (calls self) self = self.
Proof. by destruct self. Qed.

Lemma check_timed_events_loop_kept now : forall pending self,
  (forall e, e ∈ pending -> has_timed_out e now = true ->
             callback e = true) ->
  check_timed_events_loop now pending self =
  (Return tt,
   set_calls (calls self ++ map event_call (expired now pending)) self).
Proof.
  induction pending as [|e pending IH]; intros self Hkept.
  - cbn. by rewrite app_nil_r, set_calls_id.
  - cbn [check_timed_events_loop]. unfold expired.
    destruct (has_timed_out e now) eqn:Hout.
    + rewrite filter_cons_True by done. msimpl.
      rewrite (Hkept e) by (done || left). cbn [negb].
      rewrite IH by (intros e' He'; apply Hkept; by right).
      psimpl. cbn [map]. by rewrite <- app_assoc.
    + rewrite filter_cons_False by (by rewrite Hout).
      apply IH. intros e' He'. apply Hkept. by right.
Qed.

Lemma check_timed_events_loop_removed now e post : forall pre self,
  has_timed_out e now = true -> callback e = false ->
  (forall e', e' ∈ pre -> has_timed_out e' now = true ->
              callback e' = true) ->
  check_timed_events_loop now (pre ++ e :: post) self =
  (Return tt,
   set_timed_events
     (filter (fun e' => event_id e' <> event_id e) (timed_events self))
     (set_calls
        (calls self ++ map event_call (expired now pre) ++ [event_call e])
        self)).
Proof.
  intros pre self Hout Hres. revert self.
  induction pre as [|e0 pre IH]; intros self Hkept.
  - cbn [app check_timed_events_loop]. rewrite Hout. msimpl.
    rewrite Hres. cbn [negb]. done.
  - cbn [app check_timed_events_loop]. unfold expired.
    destruct (has_timed_out e0 now) eqn:Hout0.
    + rewrite filter_cons_True by done. msimpl.
      rewrite (Hkept e0) by (done || left). cbn [negb].
      rewrite IH by (intros e' He'; apply Hkept; by right).
      psimpl. cbn [map]. by rewrite <- !app_assoc.
    + rewrite filter_cons_False by (by rewrite Hout0).
      apply IH. intros e' He'. apply Hkept. by right.
Qed.

(** C8, as stated, fails: of two expired events whose callbacks return a
    falsy value, one call fires and removes the first only. *)
Lemma check_timed_events_stops_at_first_removal :
  let e1 := sample_event 1 5 false in
  let e2 := sample_event 2 6 false in
  let self := sample_core_events [e1; e2] in
  let self' := snd (check_timed_events 10 self) in
  has_timed_out e2 10 = true /\ callback e2 = false /\
  calls self' = [event_call e1] /\ timed_events self' = [e2].
Proof. cbv zeta. repeat split. Qed.

(** C8, amended. One call of [check_timed_events] calls the expired events
    in the order of the iteration, up to the first whose callback returns a
    falsy value: that event is removed and the call ends, so that the
    events after it are neither called nor removed; when the callback of
    every expired event returns a truthy value, every expired event is
    called and the set is left as it was. *)
Theorem check_timed_events_fires :
  forall self now,
    ((forall e, e ∈ timed_events self -> has_timed_out e now = true ->
                callback e = true) ->
     check_timed_events now self =
     (Return tt,
      set_calls
        (calls self ++ map event_call (expired now (timed_events self)))
        self)) /\
    (forall pre e post,
       timed_events self = pre ++ e :: post ->
       has_timed_out e now = true -> callback e = false ->
       (forall e', e' ∈ pre -> has_timed_out e' now = true ->
                   callback e' = true) ->
       check_timed_events now self =
       (Return tt,
        set_timed_events
          (filter (fun e' => event_id e' <> event_id e) (timed_events self))
          (set_calls
             (calls self ++ map event_call (expired now pre)
              ++ [event_call e])
             self))).
Proof.
  intros self now. unfold check_timed_events. split.
  - intros Hkept. msimpl. by apply check_timed_events_loop_kept.
  - intros pre e post Hevents Hout Hres Hkept. msimpl. rewrite Hevents.
    rewrite check_timed_events_loop_removed by done.
    by rewrite Hevents.
Qed.

(** C9. While the core is paused, of the keys "a" and "b" read together
    only "a" goes to the input of the current tab: the loop passes the
    first key of each list of keys and drops the others. *)
Theorem paused_batch_first_key_only :
  separate_chars_from_bindings ["a"; "b"] = Return [["a"; "b"]] /\
  main_loop_turn ∅ [keys ["a"; "b"]] sample_core_paused =
  (Return tt,
   set_calls [input_do_command tab_A "a"; input_prompt tab_A; event_set;
              doupdate]
     sample_core_paused).
Proof. split; reflexivity. Qed.

End CoreFacts.

(** ** The properties at the sample data *)

Section Samples.
Existing Instance sample_env.

Lemma lookup_beyond {A} (l : list A) (j n : nat) (x : A) :
  l !! j = Some x -> length l = n -> (n <= j)%nat -> False.
Proof. intros Hj%lookup_lt_Some <-. lia. Qed.

(** The example of the specification: with the limit 3, "a", "b", "c" and
    "d" leave "b", "c" and "d". *)
Example sample_buffer_messages :
  map Message.identifier (messages sample_buffer) =
  [Some "b"; Some "c"; Some "d"].
Proof. reflexivity. Qed.

Lemma bounded_log_witness :
  exists b',
    append_all (map sample_addition ["a"; "b"; "c"; "d"])
      (TextBuffer_init 3) = (Return tt, b') /\
    Z.of_nat (length (messages b')) = 3 /\
    map Message.identifier (messages b') = [Some "b"; Some "c"; Some "d"].
Proof.
  destruct (bounded_log (TextBuffer_init 3)
              (map sample_addition ["a"; "b"; "c"; "d"]))
    as (b' & Hrun & _ & [Hmsgs _] & _ & Hfull).
  - cbn. lia.
  - cbn. lia.
  - exists b'. split; [exact Hrun|]. split.
    + apply Hfull. cbn. lia.
    + rewrite Hmsgs. reflexivity.
Defined.

Lemma sample_latest_match (b : TextBuffer) (id : string) (msg : Message) :
  length (messages b) = 3%nat ->
  messages b !! 2%nat = Some msg ->
  Message.identifier msg = Some id ->
  latest_match (messages b) (Some id) 2 msg.
Proof.
  intros Hlen Hmsg Hid. split; [done|]. split; [done|].
  intros j m Hj Hm. exfalso. apply (lookup_beyond _ _ _ _ Hm Hlen). lia.
Qed.

Lemma correction_chain_integrity_witness :
  let b1 := snd (correct (sample_correction "d" "d2") sample_buffer) in
  let b2 := snd (correct (sample_correction "d2" "d3") b1) in
  (exists m1,
     messages b1 !! 2%nat = Some m1 /\
     Message.revisions m1 = 1 /\
     (Message.txt <$> Message.old_message m1) =
       (Message.txt <$> messages sample_buffer !! 2%nat)) /\
  (exists m root,
     messages b2 !! 2%nat = Some m /\
     Message.revisions m = 2 /\
     previous_revision 2 m = Some root /\
     Message.old_message root = None).
Proof.
  cbv zeta. destruct correction_chain_integrity as (Hstep & Hchain & _). split.
  - destruct (correct (sample_correction "d" "d2") sample_buffer)
      as [out b1] eqn:Hcall.
    assert (exists msg, messages sample_buffer !! 2%nat = Some msg /\
                        Message.identifier msg = Some "d" /\
                        Message.revisions msg = 0)
      as (msg & Hmsg & Hid & Hrev0).
    { eexists. repeat split; reflexivity. }
    assert (exists message, out = Return message) as [message ->].
    { eexists. apply (f_equal fst) in Hcall. symmetry. exact Hcall. }
    destruct (Hstep sample_buffer 2%nat msg 0 "d2" (Some "d") (Some "d2")
                false None None message b1)
      as (Hold & Hrev & _ & Hslot & _).
    + by apply sample_latest_match.
    + exact Hcall.
    + exists message. cbn [snd]. split; [exact Hslot|].
      split; [by rewrite Hrev, Hrev0|]. rewrite Hold, Hmsg. reflexivity.
  - eapply (Hchain 2%nat
             [sample_correction "d" "d2"; sample_correction "d2" "d3"]
             sample_buffer).
    + eapply corrections_of_step.
      * apply sample_latest_match; reflexivity.
      * eexists. lazy. reflexivity.
      * eapply corrections_of_step.
        -- apply sample_latest_match; reflexivity.
        -- eexists. lazy. reflexivity.
        -- apply corrections_nil.
    + reflexivity.
    + reflexivity.
    + reflexivity.
Defined.

Lemma correction_rejected_unchanged_witness :
  modify_message 0 "e2" (Some "e") (Some "e2") false None None sample_buffer
  = (Raise (CorrectionError "nothing to replace"), sample_buffer).
Proof.
  destruct (correction_rejected_unchanged sample_buffer 0 "e2" (Some "e")
              (Some "e2") false None None) as (Hnone & _).
  apply Hnone. intros [|[|[|j]]] m Hm; cbn in Hm; try discriminate;
    injection Hm as <-; discriminate.
Defined.

Lemma supplied_str_time_discarded_witness :
  let msg := make_message 0 "hello" None (Some "nick") None true None
               (Some "h") (Some "2014-03-07 21:15:02") false None 0 in
  Message.str_time msg = "" /\
  fst (modify_message 0 "hallo" (Some "h") (Some "h2") false None None
         (mkTextBuffer 3 [msg] []))
  <> Raise (CorrectionError "delayed message").
Proof.
  cbv zeta.
  destruct (supplied_str_time_discarded 0 "hello" None (Some "nick") None
              true None (Some "h") "2014-03-07 21:15:02" false None 0)
    as [Hempty Hnever].
  split; [exact Hempty|].
  apply (Hnever _ 0%nat). split; [reflexivity|]. split; [reflexivity|].
  intros [|j] m Hj Hm; [lia|discriminate].
Defined.

Lemma sample_tabs_inv : tabs_inv [Roster; tab_A; tab_B; tab_C].
Proof.
  split.
  - exists Roster. split; reflexivity.
  - intros t [= <-]. reflexivity.
Qed.

Lemma gap_invariant_witness :
  tabs_inv
    (tabs (run_ops [op_insert_tab 1 3; op_close_tab (Some tab_C);
                    op_close_tab (Some tab_A)]
             (sample_core [Roster; tab_A; tab_B; tab_C] 0 true))).
Proof.
  apply gap_invariant.
  - reflexivity.
  - exact sample_tabs_inv.
Defined.

Lemma gap_move_numbering_witness :
  exists self',
    insert_tab 1 2
      (sample_core [Roster; tab_A; tab_B; Gap 4; tab_C] 0 true) =
      (Return true, self') /\
    tabs self' !! 2%nat = Some tab_A /\
    tabs self' !! 3%nat = Some tab_B /\
    tabs self' !! 4%nat = Some tab_C /\
    tabs self' !! 1%nat = Some (Gap 10) /\
    (length (tabs self') <= 5)%nat.
Proof.
  destruct (gap_move_numbering
              (sample_core [Roster; tab_A; tab_B; Gap 4; tab_C] 0 true)
              1%nat 2 tab_A Roster)
    as (self' & g & Hrun & _ & Hmoved & Hg & Hothers & Hleft & Hlen);
    try reflexivity; try lia.
  - intros [|[|[|[|[|j]]]]] Hj; cbn in Hj; try discriminate; reflexivity.
  - assert (g = 3%nat) as ->.
    { apply (first_free_unique _ _ _ _ _ Hg).
      split; [cbn; lia|]. split; [cbn; lia|]. split.
      - intros [|[|[|j]]] t Hnew Hj Ht; try lia.
        cbn in Ht. injection Ht as <-. split; [lia|reflexivity].
      - right. right. exists (Gap 4). split; reflexivity. }
    exists self'. split; [exact Hrun|]. split; [exact Hmoved|].
    split; [apply (Hothers 2%nat tab_B); [lia|reflexivity|reflexivity]|].
    split; [apply (Hothers 4%nat tab_C); [lia|reflexivity|reflexivity]|].
    split; [|exact Hlen].
    destruct Hleft as [Hgap|[? _]]; [lia|exact Hgap|lia].
Defined.

Lemma insert_tab_failure_cases_witness :
  insert_tab 2 2 (sample_core [Roster; tab_A; tab_B] 0 true) =
  (Return false, sample_core [Roster; tab_A; tab_B] 0 true).
Proof.
  destruct (insert_tab_failure_cases (sample_core [Roster; tab_A; tab_B] 0 true) 2 2)
    as [Hrejected _].
  apply Hrejected. right. right. right. left. reflexivity.
Defined.

Lemma focus_cursor_invariant_witness :
  exists self',
    rotate_rooms_right (sample_core [Roster; Gap 4; tab_A] 0 true) =
      (Return tt, self') /\
    tabs self' = [Roster; Gap 4; tab_A] /\ cursor_ok self'.
Proof.
  destruct (focus_cursor_invariant
              (sample_core [Roster; Gap 4; tab_A] 0 true) Roster)
    as (_ & Hright & _); [reflexivity|reflexivity|].
  exact Hright.
Defined.

Lemma check_timed_events_fires_witness :
  let e0 := sample_event 0 3 true in
  let e1 := sample_event 1 5 false in
  let e2 := sample_event 2 6 false in
  let self := sample_core_events [e0; e1; e2] in
  check_timed_events 10 self =
  (Return tt,
   set_timed_events [e0; e2]
     (set_calls [event_call e0; event_call e1] self)).
Proof.
  cbv zeta.
  destruct (check_timed_events_fires
              (sample_core_events
                 [sample_event 0 3 true; sample_event 1 5 false;
                  sample_event 2 6 false]) 10) as [_ Hremoved].
  rewrite (Hremoved [sample_event 0 3 true] (sample_event 1 5 false)
             [sample_event 2 6 false]).
  - reflexivity.
  - reflexivity.
  - reflexivity.
  - reflexivity.
  - intros e' He' _. apply list_elem_of_singleton in He'. by subst e'.
Defined.
End Samples.


(** ** Further properties of the message buffer *)

Section TextBufferMore.
Context {env : TextEnv}.

Lemma append_String c s1 s2 : String c s1 +:+ s2 = String c (s1 +:+ s2).
Proof. done. Qed.

Lemma append_empty s : "" +:+ s = s.
Proof. done. Qed.

Lemma has_char_app c s1 s2 :
  has_char c (s1 +:+ s2) = has_char c s1 || has_char c s2.
Proof.
  induction s1 as [|c' s1 IH].
  - by rewrite append_empty.
  - rewrite append_String. cbn [has_char]. rewrite IH. by rewrite orb_assoc.
Qed.

Lemma replace_tabs_no_tab s : has_char "009"%char (replace_tabs s) = false.
Proof.
  induction s as [|c s IH]; cbn [replace_tabs]; [done|].
  destruct (Ascii.eqb c "009"%char) eqn:Hc.
  - rewrite has_char_app, IH. done.
  - cbn [has_char]. by rewrite Hc, IH.
Qed.

(** X1. [make_message] sets [me] exactly for a text that starts with
    "/me ", and the text it stores has no tab character left. *)
Theorem make_message_me_and_tabs :
  forall now txt time nickname nick_color history user identifier str_time
         highlight old revisions,
    let m := make_message now txt time nickname nick_color history user
               identifier str_time highlight old revisions in
    Message.me m = String.prefix "/me " txt /\
    (Message.me m = false ->
     Message.txt m = replace_tabs txt +:+ x19 +:+ "o") /\
    has_char "009"%char (Message.txt m) = false.
Proof.
  intros now txt time nickname nick_color history user identifier str_time
    highlight old revisions m. subst m. unfold make_message.
  destruct (String.prefix "/me " txt) eqn:Hme; cbn [Message.me Message.txt].
  - split; [done|]. split; [done|].
    rewrite has_char_app, replace_tabs_no_tab. done.
  - split; [done|]. split; [done|].
    rewrite has_char_app, replace_tabs_no_tab. done.
Qed.

Lemma notify_windows_value msg history highlight : forall ws r,
  fst (notify_windows msg history highlight ws r) =
  match r, ws with
  | Some _, _ => r
  | None, [] => None
  | None, w :: _ =>
      Some (fst (build_new_message w msg history highlight show_timestamps))
  end /\
  length (snd (notify_windows msg history highlight ws r)) = length ws.
Proof.
  induction ws as [|w ws IH]; intros r; cbn [notify_windows].
  - by destruct r.
  - destruct (build_new_message w msg history highlight show_timestamps)
      as [n w'] eqn:Hbuild.
    destruct (notify_windows msg history highlight ws
                match r with Some _ => r | None => Some n end)
      as [r' ws'] eqn:Hrest.
    pose proof (IH match r with Some _ => r | None => Some n end) as [Hv Hl].
    rewrite Hrest in Hv, Hl. cbn [fst snd] in *. split.
    + rewrite Hv. by destruct r.
    + cbn [length]. by rewrite Hl.
Qed.

(** X2. The value of [add_message] is never 0: it is the number of lines
    the first window has built, or 1 when that number is 0 and when the
    buffer has no window; every window is kept. *)
Theorem add_message_value :
  forall a b,
    0 <= messages_nb_limit b ->
    exists nb b',
      append a b = (Return nb, b') /\
      nb <> 0 /\
      length (windows b') = length (windows b) /\
      nb = match windows b with
           | [] => 1
           | w :: _ =>
               let n := fst (build_new_message w (appended a) (a_history a)
                               (a_highlight a) show_timestamps) in
               if n =? 0 then 1 else n
           end.
Proof.
  intros a b Hlimit. unfold append, add_message, appended.
  unfold bind at 1, get at 1. unfold bind at 1, put at 1.
  unfold bind at 1, get at 1. cbn [messages messages_nb_limit set_messages].
  rewrite evict_drop by done.
  unfold bind, get, put, ret. cbn [windows set_messages].
  match goal with
  | |- context [notify_windows ?m ?h ?hl ?ws None] =>
      pose proof (notify_windows_value m h hl ws None) as [Hv Hl];
      destruct (notify_windows m h hl ws None) as [ret_val ws']
  end.
  cbn [fst snd] in Hv, Hl. eexists _, _. split; [reflexivity|].
  cbn [windows set_windows]. split; [|split; [done|]].
  - destruct ret_val as [n|]; [|done].
    destruct (Z.eqb_spec n 0); [done|done].
  - rewrite Hv. by destruct (windows b).
Qed.

(** X3. After [add_message], with a limit of 1 at least, [last_message] is
    the message added; with the limit 0 the buffer is empty and
    [last_message] is [None]. *)
Theorem last_message_after_add :
  forall a b,
    0 <= messages_nb_limit b ->
    exists nb b',
      append a b = (Return nb, b') /\
      (1 <= messages_nb_limit b -> last_message b' = Some (appended a)) /\
      (messages_nb_limit b = 0 ->
       messages b' = [] /\ last_message b' = None).
Proof.
  intros a b Hlimit.
  destruct (append_messages a b Hlimit) as (nb & b' & Hrun & _ & Hmsgs).
  exists nb, b'. split; [done|]. unfold last_message. rewrite Hmsgs.
  rewrite length_app. cbn [length]. split.
  - intros Hone. rewrite drop_app_le by lia. apply last_snoc.
  - intros Hzero. rewrite Hzero. cbn [Z.to_nat].
    rewrite drop_ge by (rewrite length_app; cbn; lia). done.
Qed.

(** X4. With a negative limit [add_message] raises [IndexError], and leaves
    the buffer without any message. *)
Theorem add_message_negative_limit :
  forall a b,
    messages_nb_limit b < 0 ->
    exists b',
      append a b = (Raise IndexError, b') /\
      messages b' = [] /\ windows b' = windows b /\
      messages_nb_limit b' = messages_nb_limit b.
Proof.
  intros a b Hlimit. unfold append, add_message.
  unfold bind at 1, get at 1. unfold bind at 1, put at 1.
  unfold bind at 1, get at 1. cbn [messages messages_nb_limit set_messages].
  rewrite evict_negative by done.
  eexists. split; [reflexivity|]. done.
Qed.

Lemma modify_message_length now txt old_id new_id highlight time user b :
  length (messages (snd (modify_message now txt old_id new_id highlight time
                           user b))) = length (messages b) /\
  messages_nb_limit (snd (modify_message now txt old_id new_id highlight
                            time user b)) = messages_nb_limit b.
Proof.
  destruct (latest_match_or_none (messages b) old_id)
    as [(i & msg & Hlatest)|Hnone].
  - rewrite (modify_message_found _ _ _ _ _ _ _ _ _ _ Hlatest).
    destruct (replace_message now i msg txt new_id highlight time user b)
      as [[message|e|] b'] eqn:Hcall; cbn [snd].
    + apply replace_message_returns in Hcall as [_ ->].
      cbn [messages set_messages messages_nb_limit].
      by rewrite length_insert.
    + by apply replace_message_raises in Hcall as [-> _].
    + pose proof (replace_message_total now i msg txt new_id highlight time
                    user b) as Hnd. by rewrite Hcall in Hnd.
  - by rewrite modify_message_not_found.
Qed.

(** X5. Additions and corrections in any order keep the buffer within its
    limit: a correction never changes the number of messages. *)
Theorem mixed_operations_bounded :
  forall ops b,
    0 <= messages_nb_limit b ->
    Z.of_nat (length (messages b)) <= messages_nb_limit b ->
    Z.of_nat (length (messages (run_buffer_ops ops b))) <= messages_nb_limit b
    /\ messages_nb_limit (run_buffer_ops ops b) = messages_nb_limit b.
Proof.
  induction ops as [|op ops IH]; intros b Hlimit Hlen; [done|].
  cbn [run_buffer_ops].
  assert (Z.of_nat (length (messages (snd (run_buffer_op op b))))
            <= messages_nb_limit b /\
          messages_nb_limit (snd (run_buffer_op op b)) = messages_nb_limit b)
    as [Hlen' Hlimit'].
  { destruct op as [a|c]; cbn [run_buffer_op]; unfold bind.
    - destruct (append_messages a b Hlimit) as (nb & b' & -> & Hl & Hm).
      cbn [snd ret]. rewrite Hl, Hm, length_drop. split; [lia|done].
    - pose proof (modify_message_length (c_now c) (c_txt c) (c_old_id c)
                    (c_new_id c) (c_highlight c) (c_time c) (c_user c) b)
        as [Hl Hm].
      unfold correct.
      destruct (modify_message _ _ _ _ _ _ _ b) as [[?|?|] b'];
        cbn [snd ret] in *; rewrite Hl, Hm; done. }
  destruct (IH (snd (run_buffer_op op b))) as [H1 H2]; [lia|lia|].
  rewrite Hlimit' in H1, H2. done.
Qed.

(** X6. A message that later arrivals have pushed out cannot be corrected
    any more: after as many additions as the limit, none of them with the
    identifier [old_id], [modify_message] raises the error of the message
    not found and leaves the buffer as it is. *)
Theorem evicted_message_not_corrected :
  forall b adds old_id now txt new_id highlight time user,
    0 <= messages_nb_limit b ->
    Z.of_nat (length (messages b)) <= messages_nb_limit b ->
    messages_nb_limit b <= Z.of_nat (length adds) ->
    (forall a, a ∈ adds -> a_identifier a <> old_id) ->
    exists b',
      append_all adds b = (Return tt, b') /\
      modify_message now txt old_id new_id highlight time user b' =
      (Raise (CorrectionError "nothing to replace"), b').
Proof.
  intros b adds old_id now txt new_id highlight time user Hlimit Hlen Hmany
    Hother.
  destruct (append_all_messages adds b Hlimit Hlen) as (b' & Hrun & _ & Hm).
  exists b'. split; [done|]. apply modify_message_not_found.
  intros j m Hj. rewrite Hm in Hj. rewrite lookup_drop in Hj.
  rewrite lookup_app_r in Hj by (rewrite length_app, length_map; lia).
  apply list_elem_of_lookup_2, list_elem_of_fmap in Hj as (a & -> & Ha).
  unfold appended.
  pose proof (make_message_fields (a_now a) (a_txt a) (a_time a)
    (a_nickname a) (a_nick_color a) (a_history a) (a_user a)
    (a_identifier a) (a_str_time a) (a_highlight a) None 0) as Hf.
  cbv zeta in Hf. destruct Hf as (_ & _ & -> & _). by apply Hother.
Qed.

(** X7. A correction never changes the author of a message: the message
    that [modify_message] stores has the user, the nickname and the colour
    of the one it replaces; and all the corrections accepted for a message
    that has a user were made with that user. *)
Theorem correction_keeps_author :
  (forall b i msg now txt old_id new_id highlight time user message b',
     latest_match (messages b) old_id i msg ->
     modify_message now txt old_id new_id highlight time user b =
       (Return message, b') ->
     Message.user message = Message.user msg /\
     Message.nickname message = Message.nickname msg /\
     Message.nick_color message = Message.nick_color msg /\
     (forall u, Message.user msg = Some u -> user = Some u)) /\
  (forall i cs b b' m0 u,
     corrections_of i cs b b' ->
     messages b !! i = Some m0 ->
     Message.user m0 = Some u ->
     (forall c, c ∈ cs -> c_user c = Some u) /\
     exists m, messages b' !! i = Some m /\ Message.user m = Some u).
Proof.
  assert (forall b i msg now txt old_id new_id highlight time user message b',
     latest_match (messages b) old_id i msg ->
     modify_message now txt old_id new_id highlight time user b =
       (Return message, b') ->
     (Message.user message = Message.user msg /\
      Message.nickname message = Message.nickname msg /\
      Message.nick_color message = Message.nick_color msg /\
      (forall u, Message.user msg = Some u -> user = Some u)) /\
     messages b' !! i = Some message) as Hstep.
  { intros b i msg now txt old_id new_id highlight time user message b'
      Hlatest Hcall.
    rewrite (modify_message_found _ _ _ _ _ _ _ _ _ _ Hlatest) in Hcall.
    assert (forall u, Message.user msg = Some u -> user = Some u) as Huser.
    { intros u Hu. unfold replace_message in Hcall. rewrite Hu in Hcall.
      rewrite bool_decide_eq_true_2 in Hcall by (by eexists).
      destruct (decide (Some u = user)) as [<-|Hne]; [done|].
      rewrite bool_decide_eq_false_2 in Hcall by done. discriminate. }
    apply replace_message_returns in Hcall as [-> ->].
    destruct Hlatest as (Hi%lookup_lt_Some & _).
    split.
    - unfold make_message.
      destruct (String.prefix "/me " txt); cbn; done.
    - cbn [messages set_messages]. by apply list_lookup_insert_eq. }
  split.
  - intros b i msg now txt old_id new_id highlight time user message b'
      Hlatest Hcall. by destruct (Hstep _ _ _ _ _ _ _ _ _ _ _ _ Hlatest Hcall).
  - intros i cs b b' m0 u Hrun. revert m0.
    induction Hrun as [b|c cs b b1 b2 msg message Hlatest Hcall _ IH];
      intros m0 Hm0 Hu.
    + split; [intros c Hc; by apply not_elem_of_nil in Hc|]. by exists m0.
    + unfold correct in Hcall.
      destruct (Hstep _ _ _ _ _ _ _ _ _ _ _ _ Hlatest Hcall)
        as [(Hsame & _ & _ & Hby) Hslot].
      destruct Hlatest as (Hi & _).
      assert (msg = m0) as -> by congruence.
      destruct (IH message Hslot) as [Hall Hend]; [congruence|].
      split; [|done]. intros c' [->|Hc']%elem_of_cons; [by apply Hby|].
      by apply Hall.
Qed.

End TextBufferMore.

(** ** Further properties of the tab list *)

Section TabsMore.
Implicit Types (self : Core) (l : list Tab) (t : Tab).

Lemma get_tab_by_number_value self number :
  get_tab_by_number number self =
  (Return (if decide (0 <= number) then tabs self !! Z.to_nat number
           else None), self).
Proof.
  unfold get_tab_by_number. msimpl.
  destruct (decide (0 <= number)) as [Hpos|Hneg].
  - destruct (Z.leb_spec 0 number); [|lia].
    destruct (tabs self !! Z.to_nat number) as [t|] eqn:Ht.
    + pose proof (lookup_lt_Some _ _ _ Ht).
      destruct (Z.ltb_spec number (Z.of_nat (length (tabs self)))); [|lia].
      cbn. mstep (tabs_getitem_inrange _ _ _ Hpos Ht). done.
    + apply lookup_ge_None in Ht.
      destruct (Z.ltb_spec number (Z.of_nat (length (tabs self)))); [lia|].
      done.
  - destruct (Z.leb_spec 0 number); [lia|]. done.
Qed.

(** X8. [get_tab_by_number] never raises and leaves the core as it was:
    it returns the tab at a number of the range [0, len), and [None] for
    every other number, a negative one too, which [self.tabs[number]]
    would count from the end; at the position that [self.tabs.index]
    gives for a tab it returns that tab. *)
Theorem get_tab_by_number_total :
  forall self number,
    (exists res,
       get_tab_by_number number self = (Return res, self) /\
       (number < 0 \/ Z.of_nat (length (tabs self)) <= number ->
        res = None) /\
       (0 <= number < Z.of_nat (length (tabs self)) ->
        res = tabs self !! Z.to_nat number /\ res <> None /\
        PyList.getitem (tabs self) number = res)) /\
    (number < 0 -> - Z.of_nat (length (tabs self)) <= number ->
     PyList.getitem (tabs self) number <> None) /\
    (forall tab k,
       PyList.index tab (tabs self) = Some k ->
       get_tab_by_number (Z.of_nat k) self = (Return (Some tab), self)).
Proof.
  intros self number. split; [|split].
  - eexists. split; [apply get_tab_by_number_value|]. split.
    + intros [Hneg|Hge]; destruct (decide (0 <= number)); try done; try lia.
      apply lookup_ge_None. lia.
    + intros Hin. destruct (decide (0 <= number)); [|lia].
      split; [done|]. split.
      * intros Hnone%lookup_ge_None. lia.
      * by rewrite getitem_inrange.
  - intros Hneg Hge. unfold PyList.getitem, PyList.norm_index.
    destruct (Z.leb_spec 0 number),
      (Z.ltb_spec number (Z.of_nat (length (tabs self)))); cbn; try lia.
    destruct (Z.leb_spec (- Z.of_nat (length (tabs self))) number),
      (Z.ltb_spec number 0); cbn; try lia.
    intros Hnone%lookup_ge_None. lia.
  - intros tab k [Hk _]%index_Some.
    rewrite get_tab_by_number_value.
    destruct (decide (0 <= Z.of_nat k)); [|lia]. by rewrite Nat2Z.id, Hk.
Qed.

Lemma index_filter l : forall t k,
  PyList.index t l = Some k -> tab_bool t = true ->
  PyList.index t (List.filter tab_bool l) =
  Some (length (List.filter tab_bool (take k l))).
Proof.
  induction l as [|y l IH]; intros t k Hk Ht; [done|].
  cbn in Hk. destruct (decide (y = t)) as [->|Hne].
  - injection Hk as <-. cbn. rewrite Ht. cbn. by rewrite decide_True.
  - destruct (PyList.index t l) as [k'|] eqn:Hk'; [|done].
    cbn in Hk. injection Hk as <-.
    cbn. destruct (tab_bool y); cbn.
    + rewrite decide_False by done. by rewrite (IH t k').
    + by apply IH.
Qed.

Lemma filter_sublist l : List.filter tab_bool l `sublist_of` l.
Proof.
  induction l as [|y l IH]; cbn; [constructor|].
  destruct (tab_bool y); by constructor.
Qed.

Lemma elem_of_filter l t :
  t ∈ List.filter tab_bool l <-> t ∈ l /\ tab_bool t = true.
Proof. rewrite !list_elem_of_In. apply filter_In. Qed.

Lemma tabs_inv_filter l : tabs_inv l -> tabs_inv (List.filter tab_bool l).
Proof.
  intros [(r & Hr & Hroster) _]. split.
  - exists r. split; [|done]. destruct l as [|y l]; [done|].
    cbn in Hr. injection Hr as ->. cbn.
    by rewrite (roster_tab_bool _ Hroster).
  - intros t Ht%last_Some_elem_of. by apply elem_of_filter in Ht as [_ ?].
Qed.

(** X9. [on_gaps_config_change] with a value that is "false" in any case
    of its letters leaves the tabs that are no Gap, in their order: each
    gets as number the count of the tabs that are no Gap before it; the
    roster tab stays at index 0 and the cursor is not changed. With any
    other value nothing changes. *)
Theorem on_gaps_config_change_removes_gaps :
  forall self option value,
    (lower value = "false" ->
     exists self',
       on_gaps_config_change option value self = (Return tt, self') /\
       (forall t, t ∈ tabs self' <-> t ∈ tabs self /\ tab_bool t = true) /\
       tabs self' `sublist_of` tabs self /\
       (forall t k,
          PyList.index t (tabs self) = Some k -> tab_bool t = true ->
          PyList.index t (tabs self') =
          Some (length (List.filter tab_bool (take k (tabs self))))) /\
       (tabs_inv (tabs self) -> tabs_inv (tabs self')) /\
       _current_tab_nb self' = _current_tab_nb self) /\
    (lower value <> "false" ->
     on_gaps_config_change option value self = (Return tt, self)).
Proof.
  intros self option value. unfold on_gaps_config_change. split.
  - intros Hfalse. rewrite bool_decide_eq_true_2 by done. msimpl.
    eexists. split; [reflexivity|]. psimpl.
    split; [apply elem_of_filter|]. split; [apply filter_sublist|].
    split; [apply index_filter|]. split; [apply tabs_inv_filter|done].
  - intros Hother. by rewrite bool_decide_eq_false_2.
Qed.

Lemma add_tab_value self new_tab focus :
  add_tab new_tab focus self =
  (Return tt,
   let self1 := set_tabs (tabs self ++ [new_tab]) self in
   if focus then
     set_calls
       (calls self ++
        [command_win (str_of_int (nb new_tab (tabs self ++ [new_tab])))])
       self1
   else self1).
Proof. unfold add_tab. msimpl. by destruct focus; msimpl. Qed.

Lemma index_app_l t l l' k :
  PyList.index t l = Some k -> PyList.index t (l ++ l') = Some k.
Proof.
  intros [Hk Hfirst]%index_Some. apply index_Some. split.
  - by apply lookup_app_l_Some.
  - intros j Hj. rewrite lookup_app_l by (apply lookup_lt_Some in Hk; lia).
    by apply Hfirst.
Qed.

Lemma index_snoc_new t l :
  t ∉ l -> PyList.index t (l ++ [t]) = Some (length l).
Proof.
  intros Hnew. apply index_Some. split.
  - by rewrite lookup_app_r, Nat.sub_diag.
  - intros j Hj. rewrite lookup_app_l by done.
    intros Hin%list_elem_of_lookup_2. done.
Qed.

Lemma tabs_inv_snoc l t : tabs_inv l -> tab_bool t = true -> tabs_inv (l ++ [t]).
Proof.
  intros [(r & Hr & Hroster) _] Ht. split.
  - exists r. split; [by apply lookup_app_l_Some|done].
  - intros t'. rewrite last_snoc. congruence.
Qed.

(** X10. [add_tab] puts the tab at the end of the list: every tab keeps
    its position, the new tab, when it was not in the list, gets the old
    length as its position, and a list that starts with the roster tab and
    ends with no Gap stays so when the new tab is no Gap. [command_win] is
    called, with the number of the new tab written in decimal, when
    [focus] is true and only then; the cursor is not changed. *)
Theorem add_tab_appends :
  forall self new_tab focus,
    exists self',
      add_tab new_tab focus self = (Return tt, self') /\
      tabs self' = tabs self ++ [new_tab] /\
      (forall t k, PyList.index t (tabs self) = Some k ->
                   PyList.index t (tabs self') = Some k) /\
      (new_tab ∉ tabs self ->
       PyList.index new_tab (tabs self') = Some (length (tabs self))) /\
      (tab_bool new_tab = true -> tabs_inv (tabs self) ->
       tabs_inv (tabs self')) /\
      calls self' =
        calls self ++
        (if focus then
           [command_win (str_of_int (nb new_tab (tabs self')))]
         else []) /\
      _current_tab_nb self' = _current_tab_nb self.
Proof.
  intros self new_tab focus. rewrite add_tab_value.
  eexists. split; [reflexivity|]. cbv zeta.
  assert (tabs (if focus then
     set_calls
       (calls self ++
        [command_win (str_of_int (nb new_tab (tabs self ++ [new_tab])))])
       (set_tabs (tabs self ++ [new_tab]) self)
   else set_tabs (tabs self ++ [new_tab]) self) = tabs self ++ [new_tab])
    as Htabs by by destruct focus.
  rewrite Htabs.
  split; [done|]. split; [intros t k; apply index_app_l|].
  split; [apply index_snoc_new|].
  split; [intros ? ?; by apply tabs_inv_snoc|].
  destruct focus; psimpl; [done|]. by rewrite app_nil_r.
Qed.

Lemma run_core_op_tabs_inv op self :
  create_gaps self = true -> tabs_inv (tabs self) ->
  (forall t, added_tab op = Some t -> tab_bool t = true) ->
  tabs_inv (tabs (snd (run_core_op op self))) /\
  create_gaps (snd (run_core_op op self)) = true.
Proof.
  intros Hgaps Hinv Hadded. destruct op as [new_tab focus|[tab|old_pos new_pos]];
    cbn [run_core_op run_op].
  - rewrite add_tab_value. cbv zeta. cbn [snd].
    destruct focus; psimpl; (split; [|done]);
      apply tabs_inv_snoc; try done; by apply Hadded.
  - by apply close_tab_tabs_inv.
  - destruct (insert_tab_tabs_inv self old_pos new_pos Hgaps Hinv) as [H1 H2].
    unfold bind. destruct (insert_tab old_pos new_pos self) as [[b|e|] s];
      cbn in *; done.
Qed.

(** X11. In gap mode, from a list of tabs that starts with the roster tab
    and does not end with a Gap, every sequence of calls of [add_tab] with
    tabs that are no Gap, of [close_tab] and of [insert_tab], those that
    raise among them, leaves such a list, and the option as it was. *)
Theorem tab_list_invariant_with_add_tab :
  forall ops self,
    create_gaps self = true -> tabs_inv (tabs self) ->
    (forall op t, op ∈ ops -> added_tab op = Some t -> tab_bool t = true) ->
    tabs_inv (tabs (run_core_ops ops self)) /\
    create_gaps (run_core_ops ops self) = true.
Proof.
  induction ops as [|op ops IH]; intros self Hgaps Hinv Hadded; [done|].
  cbn [run_core_ops].
  destruct (run_core_op_tabs_inv op self Hgaps Hinv) as [Hinv' Hgaps'].
  { intros t. apply Hadded. by left. }
  apply IH; [done|done|]. intros op' t Hop'. apply Hadded. by right.
Qed.

(** What [close_tab] does with a tab of the list that is not the roster
    tab. *)
Lemma close_tab_closes self t k r :
  tabs self !! 0%nat = Some r -> isinstance r RosterInfoTab = true ->
  0 <= _current_tab_nb self ->
  tab_bool t = true -> isinstance t RosterInfoTab = false ->
  PyList.index t (tabs self) = Some k ->
  exists self',
    close_tab (Some t) self = (Return tt, self') /\
    tabs self' = closed_tabs (create_gaps self) (tabs self) k (next_gap self) /\
    create_gaps self' = create_gaps self /\
    cursor_ok self'.
Proof.
  intros Hr Hroster Hcur Hbt Ht Hk.
  pose proof (index_not_roster _ _ _ _ Hr Hroster Ht Hk) as Hrange.
  pose proof (roster_tab_bool _ Hroster) as Hbr.
  rewrite close_tab_parts. cbn [close_tab_which]. rewrite Hbt. msimpl.
  rewrite Ht. msimpl.
  set (s1 := set_calls _ self).
  destruct (close_tab_list_closes s1 t k r) as (s2 & Hrun & Htabs & Hc & Hg);
    try done; [lia|].
  mstep Hrun. subst s1. unfold next_gap in *. psimpl_all.
  destruct (close_tab_cursor_ok s2 r) as (s3 & Hrun3 & Htabs3 & Hg3 & Hok).
  { rewrite Htabs. by apply closed_tabs_first. }
  { done. }
  { lia. }
  exists s3. split; [done|]. split; [congruence|]. split; [congruence|done].
Qed.

Lemma not_elem_of_closed_tabs gaps l k g t :
  t ∉ delete k l -> tab_bool t = true -> tab_bool g = false ->
  t ∉ closed_tabs gaps l k g.
Proof.
  intros Hnot Ht Hg Hin. apply Hnot. unfold closed_tabs in Hin.
  destruct gaps; [|done].
  destruct (decide (S k = length l)) as [Hlast|Hmid].
  - destruct (strip_gaps_prefix (delete k l)) as [n Hn]. rewrite Hn in Hin.
    by apply subseteq_take in Hin.
  - apply list_elem_of_lookup in Hin as [j Hj].
    apply list_lookup_insert_Some in Hj as [(-> & <- & _)|[Hne Hj]];
      [congruence|].
    destruct (decide (j < k)%nat).
    + apply (list_elem_of_lookup_2 _ j). by rewrite list_lookup_delete_lt.
    + apply (list_elem_of_lookup_2 _ (j - 1)).
      rewrite list_lookup_delete_ge by lia. by replace (S (j - 1)) with j by lia.
Qed.

(** X12. [close_tab] on a tab of the list that is not the roster tab, with
    the roster tab at index 0 and a cursor that is not negative, returns,
    and the tabs that are no Gap stay at their index in gap mode, where a
    Gap takes the place of a tab that is not the last; without gaps the
    tabs before the closed one stay, the tabs after it go down by one and
    the list is shorter by one. The closed tab is in the list no more when
    it stood there once, and the cursor stands on a tab that is no Gap. *)
Theorem close_tab_numbering :
  forall self t k r,
    tabs self !! 0%nat = Some r -> isinstance r RosterInfoTab = true ->
    0 <= _current_tab_nb self ->
    tab_bool t = true -> isinstance t RosterInfoTab = false ->
    PyList.index t (tabs self) = Some k ->
    exists self',
      close_tab (Some t) self = (Return tt, self') /\
      (forall j t', (j < k)%nat -> tabs self !! j = Some t' ->
                    tab_bool t' = true -> tabs self' !! j = Some t') /\
      (forall j t', (k < j)%nat -> tabs self !! j = Some t' ->
         tabs self' !! (if create_gaps self then j else (j - 1)%nat)
         = Some t') /\
      (create_gaps self = true -> (S k < length (tabs self))%nat ->
       tabs self' !! k = Some (next_gap self) /\
       length (tabs self') = length (tabs self)) /\
      (create_gaps self = false ->
       S (length (tabs self')) = length (tabs self)) /\
      (t ∉ delete k (tabs self) -> t ∉ tabs self') /\
      cursor_ok self'.
Proof.
  intros self t k r Hr Hroster Hcur Hbt Ht Hk.
  destruct (close_tab_closes self t k r) as (self' & Hrun & Htabs & _ & Hok);
    try done.
  pose proof (index_not_roster _ _ _ _ Hr Hroster Ht Hk) as Hrange.
  exists self'. split; [done|]. rewrite Htabs. unfold closed_tabs.
  split; [|split; [|split; [|split; [|split]]]]; try done.
  - intros j t' Hj Hj' Hbt'. destruct (create_gaps self).
    + destruct (decide (S k = length (tabs self))).
      * apply strip_gaps_lookup; [|done]. by rewrite list_lookup_delete_lt.
      * rewrite list_lookup_insert_ne by lia. done.
    + by rewrite list_lookup_delete_lt.
  - intros j t' Hj Hj'. pose proof (lookup_lt_Some _ _ _ Hj').
    destruct (create_gaps self).
    + destruct (decide (S k = length (tabs self))); [lia|].
      rewrite list_lookup_insert_ne by lia. done.
    + rewrite list_lookup_delete_ge by lia.
      by replace (S (j - 1)) with j by lia.
  - intros -> Hmid. destruct (decide (S k = length (tabs self))); [lia|].
    split; [|by rewrite length_insert].
    apply list_lookup_insert_eq. lia.
  - intros ->. rewrite length_delete by (by apply lookup_lt_is_Some; lia).
    lia.
  - intros Hnot. fold (closed_tabs (create_gaps self) (tabs self) k
                         (next_gap self)).
    by apply not_elem_of_closed_tabs.
Qed.

(** X13. [close_tab] on the roster tab returns at once and changes
    nothing. On another tab that has lost its attributes, as one that
    [close_tab] has closed before, it raises [AttributeError] and changes
    nothing: [on_close] is not called. On another tab that has them and is
    not in the list it deletes them, calls the tab's [on_close] and then
    raises [ValueError], from [self.tabs.remove], with the list, the
    cursor and the count of objects as they were. On every tab that has
    its attributes and is not the roster tab, it deletes them and does
    what [close_tab] without the deletion does. *)
Theorem close_tab_not_in_list :
  forall s t,
    tab_bool t = true ->
    (isinstance t RosterInfoTab = true ->
     close_tab_whole (Some t) s = (Return tt, s)) /\
    (isinstance t RosterInfoTab = false -> tab_id t ∈ deleted s ->
     close_tab_whole (Some t) s = (Raise AttributeError, s)) /\
    (isinstance t RosterInfoTab = false -> tab_id t ∉ deleted s ->
     t ∉ tabs (core s) ->
     close_tab_whole (Some t) s =
     (Raise ValueError,
      mkCoreTabs (set_calls (calls (core s) ++ [on_close t]) (core s))
        ({[tab_id t]} ∪ deleted s))) /\
    (isinstance t RosterInfoTab = false -> tab_id t ∉ deleted s ->
     close_tab_whole (Some t) s =
     (fst (close_tab (Some t) (core s)),
      mkCoreTabs (snd (close_tab (Some t) (core s)))
        ({[tab_id t]} ∪ deleted s))).
Proof.
  intros s t Hbt.
  assert (in_core (close_tab_which (Some t)) s = (Return t, s)) as Hwhich.
  { unfold in_core. cbn [close_tab_which]. rewrite Hbt. by destruct s. }
  unfold close_tab_whole. rewrite (bind_Return _ _ _ _ _ Hwhich). cbv beta.
  assert (isinstance t RosterInfoTab = false ->
          close_tab (Some t) (core s) =
          (emit (on_close t) ;;; close_tab_list t ;;; close_tab_cursor)%py
            (core s)) as Hparts.
  { intros Hroster. rewrite close_tab_parts. cbn [close_tab_which].
    rewrite Hbt, bind_ret. by rewrite Hroster. }
  assert (isinstance t RosterInfoTab = false -> tab_id t ∉ deleted s ->
          (if isinstance t RosterInfoTab then ret tt
           else
             del_attributes t ;;;
             in_core
               (emit (on_close t) ;;; close_tab_list t ;;; close_tab_cursor))%py
            s =
          (fst (close_tab (Some t) (core s)),
           mkCoreTabs (snd (close_tab (Some t) (core s)))
             ({[tab_id t]} ∪ deleted s))) as Hwhole.
  { intros Hroster Hhas. rewrite (Hparts Hroster), Hroster.
    assert (del_attributes t s =
            (Return tt, mkCoreTabs (core s) ({[tab_id t]} ∪ deleted s)))
      as Hdel.
    { unfold del_attributes, bind, get, put.
      by rewrite bool_decide_eq_false_2. }
    rewrite (bind_Return _ _ _ _ _ Hdel). cbv beta.
    unfold in_core. cbn [core deleted].
    by destruct ((emit (on_close t);;; close_tab_list t;;; close_tab_cursor)%py
                   (core s)). }
  split; [|split; [|split]]; [| | |exact Hwhole].
  - by intros ->.
  - intros Hroster Hdel. rewrite Hroster.
    assert (del_attributes t s = (Raise AttributeError, s)) as Hraise.
    { unfold del_attributes, bind, get, raise.
      by rewrite bool_decide_eq_true_2. }
    by rewrite (bind_Raise _ _ _ _ _ Hraise).
  - intros Hroster Hhas Hnot. rewrite (Hwhole Hroster Hhas).
    rewrite (Hparts Hroster). msimpl.
    erewrite bind_Raise; [reflexivity|].
    apply close_tab_list_absent. psimpl. by apply index_None.
Qed.

Lemma index_insert_right t l (old n : nat) :
  PyList.index t l = Some old -> (old < n <= length l)%nat ->
  PyList.index t (take n l ++ t :: drop n l) = Some old.
Proof.
  intros [Hold Hfirst]%index_Some Hn. apply index_Some.
  assert (length (take n l) = n) as Hlen by (apply length_take_le; lia).
  split.
  - rewrite lookup_app_l by lia. by rewrite lookup_take_lt by lia.
  - intros j Hj. rewrite lookup_app_l by lia. rewrite lookup_take_lt by lia.
    by apply Hfirst.
Qed.

Lemma delete_insert_right {A} (l : list A) (x : A) : forall old n : nat,
  (old < n <= length l)%nat ->
  delete old (take n l ++ x :: drop n l) =
  take (n - 1) (delete old l) ++ x :: drop (n - 1) (delete old l).
Proof.
  induction l as [|y l IH]; intros old n Hn; cbn in Hn; [lia|].
  destruct n as [|n]; [lia|]. destruct old as [|old]; cbn.
  - by rewrite Nat.sub_0_r.
  - rewrite IH by lia. destruct n as [|n]; [lia|]. cbn.
    by rewrite Nat.sub_0_r.
Qed.

Lemma insert_delete_same {A} (l : list A) (x : A) : forall old : nat,
  l !! old = Some x ->
  take old (delete old l) ++ x :: drop old (delete old l) = l.
Proof.
  induction l as [|y l IH]; intros old Hold; [done|].
  destruct old as [|old]; cbn in *.
  - by simplify_eq/=.
  - f_equal. by apply IH.
Qed.

(** X14. Without gaps a move that [insert_tab] accepts, of a tab at the
    position that [self.tabs.index] gives for it, returns [True] and leaves
    the other tabs in their order, makes no Gap and does not change the
    cursor. Moved to the left the tab stands at [new_pos]; moved to the
    right it stands one before [new_pos], cut to the length of the list,
    since it is inserted there and then removed from its old place: a move
    to the next position leaves the list as it was. *)
Theorem insert_tab_nogaps_moves :
  forall self (old : nat) new_pos tab,
    create_gaps self = false ->
    PyList.index tab (tabs self) = Some old -> tab_bool tab = true ->
    (0 < old)%nat -> 0 < new_pos -> new_pos <> Z.of_nat old ->
    exists self' (d : nat),
      insert_tab (Z.of_nat old) new_pos self = (Return true, self') /\
      tabs self' !! d = Some tab /\
      delete d (tabs self') = delete old (tabs self) /\
      (new_pos < Z.of_nat old -> Z.of_nat d = new_pos) /\
      (Z.of_nat old < new_pos ->
       Z.of_nat d =
       Z.min new_pos (Z.of_nat (length (tabs self))) - 1) /\
      (new_pos = Z.of_nat old + 1 -> tabs self' = tabs self) /\
      tabs self' ≡ₚ tabs self /\
      _current_tab_nb self' = _current_tab_nb self /\
      allocated self' = allocated self.
Proof.
  intros self old new_pos tab Hgaps Hindex Htab Hpos Hnew Hne.
  pose proof Hindex as [Hold _]%index_Some.
  apply lookup_lt_Some in Hold as Hlt.
  rewrite (insert_tab_accepted self old new_pos tab) by (done || lia).
  rewrite Hgaps. unfold insert_tab_nogaps.
  mstep (tabs_getitem_nat _ _ _ Hold).
  set (rest := delete old (tabs self)).
  assert (length rest = (length (tabs self) - 1)%nat) as Hrest.
  { unfold rest. rewrite length_delete by (by apply lookup_lt_is_Some). lia. }
  assert (forall d : nat, (d <= length rest)%nat ->
            (take d rest ++ tab :: drop d rest) !! d = Some tab /\
            delete d (take d rest ++ tab :: drop d rest) = rest /\
            take d rest ++ tab :: drop d rest ≡ₚ tabs self) as Hplace.
  { intros d Hd.
    assert (length (take d rest) = d) as Hlen by by apply length_take_le.
    split; [|split].
    - rewrite lookup_app_r by lia. by rewrite Hlen, Nat.sub_diag.
    - rewrite <- Hlen at 1. rewrite delete_middle. apply take_drop.
    - rewrite <- Permutation_middle, take_drop. symmetry.
      by apply delete_Permutation. }
  destruct (Z.ltb_spec new_pos (Z.of_nat old)) as [Hleft|Hright].
  - mstep (tabs_pop_at_nat self old Hlt). msimpl. fold rest.
    replace new_pos with (Z.of_nat (Z.to_nat new_pos)) by lia.
    rewrite insert_nat by lia.
    destruct (Hplace (Z.to_nat new_pos)) as (? & ? & ?); [lia|].
    eexists _, (Z.to_nat new_pos). split; [reflexivity|]. psimpl.
    repeat split; try done; lia.
  - destruct (Z.gtb_spec new_pos (Z.of_nat old)); [|lia]. msimpl.
    set (n := Z.to_nat (Z.min new_pos (Z.of_nat (length (tabs self))))).
    assert (PyList.insert (tabs self) new_pos tab =
            take n (tabs self) ++ tab :: drop n (tabs self)) as ->.
    { destruct (decide (new_pos <= Z.of_nat (length (tabs self)))).
      - replace new_pos with (Z.of_nat n) at 1 by lia.
        apply insert_nat. lia.
      - rewrite insert_beyond by lia. replace n with (length (tabs self))
          by lia. by rewrite take_ge, drop_ge by lia. }
    erewrite bind_Return; cycle 1.
    { apply tabs_remove_index. psimpl. apply index_insert_right; [done|lia]. }
    cbv beta. psimpl. rewrite delete_insert_right by lia. fold rest.
    destruct (Hplace (n - 1)%nat) as (? & ? & ?); [lia|].
    eexists _, (n - 1)%nat. split; [reflexivity|]. psimpl.
    repeat split; try done; try lia.
    intros ->. replace (n - 1)%nat with old by lia.
    by apply insert_delete_same.
Qed.

(** One run of the loop of [check_timed_events]: it returns, having called
    the first of the expired events, and removes at most the last of those
    it has called. *)
Lemma check_timed_events_loop_runs now : forall pending self,
  exists fired evs,
    check_timed_events_loop now pending self =
      (Return tt,
       set_timed_events evs
         (set_calls (calls self ++ map event_call fired) self)) /\
    fired `prefix_of` expired now pending /\
    evs `sublist_of` timed_events self /\
    (fired = [] -> evs = timed_events self).
Proof.
  induction pending as [|e pending IH]; intros self; cbn [check_timed_events_loop].
  - exists [], (timed_events self). split; [|done].
    destruct self. cbn. by rewrite app_nil_r.
  - unfold expired. destruct (has_timed_out e now) eqn:He.
    + rewrite filter_cons_True by done. msimpl.
      destruct (callback e); cbn [negb].
      * destruct (IH (set_calls (calls self ++ [event_call e]) self))
          as (fired & evs & -> & Hpre & Hsub & _).
        exists (e :: fired), evs. psimpl_all.
        split; [by rewrite <- app_assoc|].
        split; [by apply prefix_cons|]. done.
      * exists [e], (filter (fun e' => event_id e' <> event_id e)
                       (timed_events self)).
        split; [done|]. split; [by apply prefix_cons, prefix_nil|].
        split; [apply sublist_filter|done].
    + rewrite filter_cons_False by (by rewrite He).
      apply IH.
Qed.

Lemma filter_all {A} (P : A -> Prop) `{!forall x, Decision (P x)} (l : list A) :
  Forall P l -> filter P l = l.
Proof.
  induction 1 as [|x l Hx _ IH]; [done|].
  rewrite filter_cons_True by done. by rewrite IH.
Qed.

Lemma elem_of_event_calls e (l : list TimedEvent) :
  event_call e ∈ map event_call l -> e ∈ l.
Proof.
  intros (e' & [= ->] & He')%list_elem_of_fmap. done.
Qed.

(** X15. [remove_timed_event] returns and changes nothing but the set of
    events: without an event, or with one that is not pending, it leaves
    the set as it was; otherwise the event is pending no more, the others
    stay in their order, and no later [check_timed_events] calls it. *)
Theorem remove_timed_event_removes :
  forall self event,
    exists evs,
      remove_timed_event event self =
        (Return tt, set_timed_events evs self) /\
      (forall e, e ∈ evs <->
                 e ∈ timed_events self /\
                 forall ev, event = Some ev -> event_id e <> event_id ev) /\
      evs `sublist_of` timed_events self /\
      ((forall ev, event = Some ev ->
                   event_id ev ∉ map event_id (timed_events self)) ->
       evs = timed_events self) /\
      (forall ev now e,
         event = Some ev ->
         event_call e ∈
           calls (snd (check_timed_events now (set_timed_events evs self))) ->
         event_call e ∈ calls self \/ event_id e <> event_id ev).
Proof.
  intros self [ev|]; cbn [remove_timed_event].
  - msimpl.
    assert (exists evs,
      (if bool_decide (event_id ev ∈ map event_id (timed_events self))
       then timed_events_remove ev else ret tt) self =
        (Return tt, set_timed_events evs self) /\
      evs = filter (fun e => event_id e <> event_id ev) (timed_events self))
      as (evs & -> & Hevs).
    { case_bool_decide as Hin.
      - eexists. split; [reflexivity|done].
      - exists (timed_events self). split; [by destruct self|].
        symmetry. apply filter_all, Forall_forall. intros e He Heq. apply Hin.
        rewrite <- Heq. by apply list_elem_of_fmap_2. }
    exists evs. split; [done|].
    assert (forall e, e ∈ evs <->
              e ∈ timed_events self /\
              forall ev', Some ev = Some ev' -> event_id e <> event_id ev')
      as Hmem.
    { intros e. rewrite Hevs, list_elem_of_filter. split.
      - intros [Hne He]. split; [done|]. by intros ev' [= <-].
      - intros [He Hne]. split; [|done]. by apply Hne. }
    split; [done|]. split; [rewrite Hevs; apply sublist_filter|].
    split.
    + intros Habsent. rewrite Hevs. apply filter_all, Forall_forall.
      intros e He Heq. apply (Habsent ev eq_refl).
      rewrite <- Heq. by apply list_elem_of_fmap_2.
    + intros ev' now e [= <-]. unfold check_timed_events. rewrite bind_get.
      destruct (check_timed_events_loop_runs now
                  (timed_events (set_timed_events evs self))
                  (set_timed_events evs self))
        as (fired & evs' & -> & Hpre & _). psimpl.
      intros [Hold|Hnew%elem_of_event_calls]%elem_of_app; [by left|].
      right. destruct Hpre as [k Hk].
      assert (e ∈ expired now (timed_events (set_timed_events evs self)))
        as Hexp by (rewrite Hk; apply elem_of_app; by left).
      clear Hnew. rename Hexp into Hnew. psimpl_all.
      unfold expired in Hnew. apply list_elem_of_filter in Hnew as [_ Hnew].
      apply Hmem in Hnew as [_ Hne]. by apply Hne.
  - exists (timed_events self). split; [by destruct self|].
    split; [by intros e; split; [intros ?|intros [? _]]|].
    split; [done|]. split; [done|]. by intros ev now e.
Qed.

Lemma check_timed_events_runs now self :
  exists fired evs,
    check_timed_events now self =
      (Return tt,
       set_timed_events evs
         (set_calls (calls self ++ map event_call fired) self)) /\
    fired `prefix_of` expired now (timed_events self) /\
    evs `sublist_of` timed_events self /\
    (fired = [] -> evs = timed_events self).
Proof.
  unfold check_timed_events. rewrite bind_get.
  apply check_timed_events_loop_runs.
Qed.

(** What the timeouts before the keys leave: nothing changes but the
    pending events and the calls made. *)
Lemma read_keyboard_frame :
  forall nows res rest self,
    exists fired evs,
      read_keyboard (map timeout nows ++ keys res :: rest) self =
        (Return res,
         set_timed_events evs
           (set_calls (calls self ++ map event_call fired) self)) /\
      evs `sublist_of` timed_events self /\
      (forall e, e ∈ fired ->
         e ∈ timed_events self /\
         exists now, now ∈ nows /\ has_timed_out e now = true) /\
      ((forall e now, e ∈ timed_events self -> now ∈ nows ->
                      has_timed_out e now = false) ->
       read_keyboard (map timeout nows ++ keys res :: rest) self =
         (Return res, self)).
Proof.
  induction nows as [|now nows IH]; intros res rest self.
  - exists [], (timed_events self). cbn.
    assert (set_timed_events (timed_events self)
              (set_calls (calls self ++ []) self) = self) as ->
      by (destruct self; cbn; by rewrite app_nil_r).
    split; [done|]. split; [done|]. split; [|done].
    by intros e He%elem_of_nil.
  - cbn [map app read_keyboard].
    destruct (check_timed_events_runs now self)
      as (fired1 & evs1 & Hrun1 & [k Hpre] & Hsub1 & Hnone1).
    mstep Hrun1.
    set (s1 := set_timed_events evs1 _) in *.
    destruct (IH res rest s1) as (fired2 & evs2 & Hrun2 & Hsub2 & Hin2 & Hnone2).
    assert (forall e, e ∈ fired1 ->
              e ∈ timed_events self /\ has_timed_out e now = true) as Hin1.
    { intros e He.
      assert (e ∈ expired now (timed_events self)) as Hexp
        by (rewrite Hpre; apply elem_of_app; by left).
      unfold expired in Hexp.
      by apply list_elem_of_filter in Hexp as [? ?]. }
    exists (fired1 ++ fired2), evs2. split; [|split; [|split]].
    + rewrite Hrun2. subst s1. psimpl.
      by rewrite map_app, app_assoc.
    + by transitivity evs1.
    + intros e [He|He]%elem_of_app.
      * destruct (Hin1 e He). split; [done|]. exists now. split; [by left|done].
      * destruct (Hin2 e He) as [Hev (now' & Hnow' & Hout)].
        split.
        -- subst s1. psimpl_all. by apply (sublist_subseteq _ _ Hsub1).
        -- exists now'. split; [by right|done].
    + intros Hnever.
      assert (fired1 = []) as ->.
      { destruct fired1 as [|e fired1]; [done|].
        destruct (Hin1 e) as [He Hout]; [by left|].
        rewrite (Hnever e now He) in Hout by by left. done. }
      subst s1. rewrite (Hnone1 eq_refl) in *. cbn [map] in *.
      rewrite app_nil_r in *.
      assert (set_timed_events (timed_events self)
                (set_calls (calls self) self) = self) as Hs1
        by by destruct self.
      rewrite Hs1 in *. apply Hnone2.
      intros e now' He Hnow'. apply Hnever; [done|by right].
Qed.

(** [read_keyboard] runs [check_timed_events] at every timeout, one after
    the other, and returns the keys. *)
Lemma read_keyboard_checks : forall nows res rest self,
  read_keyboard (map timeout nows ++ keys res :: rest) self =
  (Return res, foldl (fun s now => snd (check_timed_events now s)) self nows).
Proof.
  induction nows as [|now nows IH]; intros res rest self; [done|].
  cbn [map app read_keyboard foldl].
  destruct (check_timed_events_runs now self)
    as (fired & evs & Hrun & _).
  rewrite (bind_Return _ _ _ _ _ Hrun). cbv beta.
  rewrite Hrun. cbn [snd]. apply IH.
Qed.

(** The first of the pending events that has expired is called, and
    removed when its callback returns a false value. *)
Lemma check_timed_events_loop_first now : forall pre self e post,
  (forall e', e' ∈ pre -> has_timed_out e' now = false) ->
  has_timed_out e now = true ->
  exists fired evs,
    check_timed_events_loop now (pre ++ e :: post) self =
      (Return tt,
       set_timed_events evs
         (set_calls (calls self ++ event_call e :: map event_call fired)
            self)) /\
    evs `sublist_of` timed_events self /\
    (callback e = false ->
     evs = filter (fun e' => event_id e' <> event_id e) (timed_events self)).
Proof.
  induction pre as [|e0 pre IH]; intros self e post Hpre He.
  - cbn [app check_timed_events_loop]. rewrite He. msimpl.
    destruct (callback e) eqn:Hcb; cbn [negb].
    + destruct (check_timed_events_loop_runs now post
                  (set_calls (calls self ++ [event_call e]) self))
        as (fired & evs & -> & _ & Hsub & _).
      exists fired, evs. psimpl_all. split; [|done].
      by rewrite <- app_assoc.
    + exists [], (filter (fun e' => event_id e' <> event_id e)
                   (timed_events self)).
      split; [done|]. split; [apply sublist_filter|done].
  - cbn [app check_timed_events_loop].
    rewrite (Hpre e0) by by left.
    apply IH; [|done]. intros e' He'. apply Hpre. by right.
Qed.

(** X16. [read_keyboard] returns the first keys that are read, whatever
    is read after them, and leaves the core that [check_timed_events]
    leaves when it is run once at every timeout before, in their order. So
    the first pending event that has expired at the first timeout is
    called, and it is pending no more when its callback returns a false
    value. Nothing changes but the pending events, of which some are
    removed, and the calls made, to which calls of events are added that
    were pending and had expired at one of the timeouts; when no pending
    event has expired at any of them the core is left as it was. *)
Theorem read_keyboard_returns_keys :
  forall nows res rest self,
    let checked :=
      foldl (fun s now => snd (check_timed_events now s)) self nows in
    read_keyboard (map timeout nows ++ keys res :: rest) self =
      (Return res, checked) /\
    (exists fired evs,
       checked =
         set_timed_events evs
           (set_calls (calls self ++ map event_call fired) self) /\
       evs `sublist_of` timed_events self /\
       (forall e, e ∈ fired ->
          e ∈ timed_events self /\
          exists now, now ∈ nows /\ has_timed_out e now = true)) /\
    ((forall e now, e ∈ timed_events self -> now ∈ nows ->
                    has_timed_out e now = false) ->
     checked = self) /\
    (forall now nows' pre e post,
       nows = now :: nows' -> timed_events self = pre ++ e :: post ->
       (forall e', e' ∈ pre -> has_timed_out e' now = false) ->
       has_timed_out e now = true ->
       event_call e ∈ calls checked /\
       (callback e = false -> e ∉ timed_events checked)).
Proof.
  intros nows res rest self checked.
  assert (forall nows self,
    exists fired evs,
      foldl (fun s now => snd (check_timed_events now s)) self nows =
        set_timed_events evs
          (set_calls (calls self ++ map event_call fired) self) /\
      evs `sublist_of` timed_events self /\
      (forall e, e ∈ fired ->
         e ∈ timed_events self /\
         exists now, now ∈ nows /\ has_timed_out e now = true) /\
      ((forall e now, e ∈ timed_events self -> now ∈ nows ->
                      has_timed_out e now = false) ->
       foldl (fun s now => snd (check_timed_events now s)) self nows = self))
    as Hframe.
  { clear. intros nows self.
    destruct (read_keyboard_frame nows [] [] self)
      as (fired & evs & Hrun & Hsub & Hfired & Hnever).
    rewrite read_keyboard_checks in Hrun, Hnever.
    exists fired, evs. split; [congruence|]. split; [done|].
    split; [done|]. intros Hno. specialize (Hnever Hno). congruence. }
  split; [apply read_keyboard_checks|].
  destruct (Hframe nows self) as (fired & evs & Hchecked & Hsub & Hfired & Hno).
  split; [by exists fired, evs|]. split; [done|].
  intros now nows' pre e post -> Hsplit Hpre He. subst checked.
  cbn [foldl]. unfold check_timed_events at 2 4. rewrite bind_get, Hsplit.
  destruct (check_timed_events_loop_first now pre self e post Hpre He)
    as (fired1 & evs1 & -> & Hsub1 & Hremoved). cbn [snd].
  match goal with
  | |- context [foldl _ ?s1 nows'] =>
      destruct (Hframe nows' s1) as (fired2 & evs2 & -> & Hsub2 & _)
  end.
  psimpl_all. split.
  - apply elem_of_app. left. apply elem_of_app. right. by left.
  - intros Hcb Hin. apply (sublist_subseteq _ _ Hsub2) in Hin.
    rewrite (Hremoved Hcb) in Hin.
    by apply list_elem_of_filter in Hin as [? _].
Qed.

Lemma length_1_not_bound char :
  len char = 1%nat -> char <> "^I".
Proof. intros Hlen ->. vm_compute in Hlen. discriminate. Qed.

Lemma len_not_empty char : (0 < len char)%nat -> char <> "".
Proof. intros Hlen ->. cbn in Hlen. lia. Qed.

Lemma separated_key_plain n char :
  char <> String "031"%char EmptyString -> len char = 1%nat ->
  separated_key n char = char.
Proof.
  intros Hc Hlen. unfold separated_key.
  rewrite bool_decide_eq_false_2 by done.
  rewrite bool_decide_eq_false_2 by by apply length_1_not_bound. done.
Qed.

Lemma alternate_cons g lists :
  (forall g', head lists = Some g' -> ~ (plain g /\ plain g')) ->
  alternate lists -> alternate (g :: lists).
Proof.
  intros Hhead Halt. cbn [alternate]. split; [|done].
  destruct lists as [|g' lists]; [done|]. by apply Hhead.
Qed.

Lemma alternate_lookup lists : alternate lists ->
  forall i g g', lists !! i = Some g -> lists !! S i = Some g' ->
                 ~ (plain g /\ plain g').
Proof.
  induction lists as [|g0 lists IH]; intros Halt i g g' Hg Hg'; [done|].
  destruct Halt as [Hfirst Halt]. destruct i as [|i].
  - cbn in Hg, Hg'. injection Hg as <-.
    destruct lists as [|g1 lists]; [done|]. cbn in Hg'. by injection Hg' as <-.
  - by apply (IH Halt i).
Qed.

Lemma run_of_concat keys : concat (run_of keys) = keys.
Proof. destruct keys; [done|]. cbn. by rewrite app_nil_r. Qed.

Lemma run_of_shape keys :
  plain keys ->
  Forall (fun g => g <> [] /\
            (plain g \/
             exists key, g = [key] /\ (1 < len key)%nat))
    (run_of keys).
Proof.
  intros Hp. destruct keys; [constructor|]. cbn [run_of].
  apply Forall_cons. split; [|constructor]. split; [done|by left].
Qed.

Lemma alternate_run_of keys rest :
  plain keys -> alternate rest ->
  (forall g, head rest = Some g -> ~ plain g) ->
  alternate (run_of keys ++ rest).
Proof.
  intros Hp Halt Hhead. destruct keys; [done|]. cbn [run_of app].
  apply alternate_cons; [|done]. intros g' Hg' [_ Hp']. by apply (Hhead g').
Qed.

Lemma separate_groups_special n char char' char_list run rest :
  separated_key n char = char' -> (1 < len char')%nat ->
  plain run -> run ++ concat rest = map (separated_key n) char_list ->
  Forall (fun g => g <> [] /\
            (plain g \/
             exists key, g = [key] /\ (1 < len key)%nat)) rest ->
  alternate rest -> (forall g, head rest = Some g -> ~ plain g) ->
  [] ++ concat ([char'] :: run_of run ++ rest) =
    map (separated_key n) (char :: char_list) /\
  Forall (fun g => g <> [] /\
            (plain g \/
             exists key, g = [key] /\ (1 < len key)%nat))
    ([char'] :: run_of run ++ rest) /\
  alternate ([char'] :: run_of run ++ rest) /\
  (forall g, head ([char'] :: run_of run ++ rest) = Some g -> ~ plain g).
Proof.
  intros Hkey Hlong Hrun Hcat Hall Halt Hhead.
  assert (~ plain [char']) as Hnot.
  { intros Hp. apply Forall_cons in Hp as [Hp _]. lia. }
  split; [|split; [|split]].
  - cbn [app concat map]. rewrite Hkey. f_equal.
    by rewrite concat_app, run_of_concat.
  - constructor.
    + split; [done|]. right. by exists char'.
    + apply Forall_app. split; [by apply run_of_shape|done].
  - apply alternate_cons; [by intros g' _ [? _]|].
    by apply alternate_run_of.
  - by intros g [= <-].
Qed.

Ltac separate_special IH Hne char' :=
  match goal with
  | |- context [separate_loop ?n ?l ?r []] =>
      destruct (IH r []) as (run & rest & -> & Hrun & Hcat & Hall & Halt & Hhead);
        [exact Hne|constructor|];
      exists [], ([char'] :: run_of run ++ rest);
      rewrite ?app_nil_r; cbn [run_of app]; rewrite <- ?app_assoc;
      split; [done|split; [constructor|]]
  end.

(** The lists that are made of the keys [char_list], read after the plain
    keys [current]: a run of plain keys that goes on the one of [current],
    and then lists that start with a single key of several characters. *)
Lemma separate_loop_groups n : forall char_list res current,
  Forall (fun key => (0 < len key)%nat) char_list -> plain current ->
  exists run rest,
    separate_loop n char_list res current =
      Return (res ++ run_of (current ++ run) ++ rest) /\
    plain run /\
    run ++ concat rest = map (separated_key n) char_list /\
    Forall (fun g => g <> [] /\
              (plain g \/
               exists key, g = [key] /\ (1 < len key)%nat)) rest /\
    alternate rest /\
    (forall g, head rest = Some g -> ~ plain g).
Proof.
  induction char_list as [|char char_list IH]; intros res current Hne Hcur.
  - exists [], []. cbn [separate_loop]. rewrite !app_nil_r.
    split; [|split; [constructor|by repeat split]].
    destruct current as [|key current].
    + rewrite bool_decide_eq_true_2 by done. by rewrite app_nil_r.
    + by rewrite bool_decide_eq_false_2.
  - apply Forall_cons in Hne as [Hchar Hne]. cbn [separate_loop].
    assert ((0 <? String.length char)%nat = true) as ->.
    { apply Nat.ltb_lt. apply len_not_empty in Hchar.
      destruct char; [done|cbn; lia]. }
    cbn [negb].
    destruct (decide (char = String "031"%char EmptyString)) as [Hc|Hc].
    + subst char. rewrite bool_decide_eq_true_2 by done.
      change (len "^/") with 2%nat. cbn [Nat.eqb andb].
      rewrite (bool_decide_eq_false_2 ("^/" = "^I")) by done. cbn [andb].
      destruct current as [|key current];
        [rewrite bool_decide_eq_true_2 by done
        |rewrite bool_decide_eq_false_2 by done];
        separate_special IH Hne "^/";
        by apply separate_groups_special;
          [|change (len "^/") with 2%nat; lia|..].
    + rewrite bool_decide_eq_false_2 by done.
      destruct (len char =? 1)%nat eqn:Hlen.
      { apply Nat.eqb_eq in Hlen.
        destruct (IH res (current ++ [char]))
          as (run & rest & -> & Hrun & Hcat & Hok);
          [done|by apply Forall_app; split; [|repeat constructor]|].
        exists (char :: run), rest. rewrite <- !app_assoc. cbn [app].
        split; [done|]. split; [by constructor|]. split; [|done].
        cbn [map app]. by rewrite separated_key_plain, Hcat. }
      apply Nat.eqb_neq in Hlen.
      destruct (bool_decide (char = "^I") && negb (n =? 1)%nat) eqn:Htab.
      { apply andb_prop in Htab as [Htab%bool_decide_eq_true Hn]. subst char.
        destruct (IH res (current ++ [String "009"%char EmptyString]))
          as (run & rest & -> & Hrun & Hcat & Hok);
          [done|by apply Forall_app; split; [|repeat constructor]|].
        exists (String "009"%char EmptyString :: run), rest.
        rewrite <- !app_assoc. cbn [app].
        split; [done|]. split; [by constructor|]. split; [|done].
        cbn [map app]. rewrite <- Hcat. unfold separated_key at 1.
        rewrite bool_decide_eq_false_2 by done.
        rewrite bool_decide_eq_true_2 by done. by rewrite Hn. }
      assert (separated_key n char = char) as Hkey.
      { unfold separated_key. rewrite bool_decide_eq_false_2 by done.
        by rewrite Htab. }
      assert (1 < len char)%nat as Hlong by lia.
      destruct current as [|key current];
        [rewrite bool_decide_eq_true_2 by done
        |rewrite bool_decide_eq_false_2 by done];
        separate_special IH Hne char;
        by apply separate_groups_special.
Qed.

(** X17. [separate_chars_from_bindings] on keys that all have a
    character returns lists of which none is empty; put one after the
    other they give the keys read, in their order, with "^/" for the key
    of code 31 and, when several keys were read, a tabulation for "^I";
    every list is a run of keys of one character, counted as [len] counts
    them, or holds one key of several characters, and no two runs stand
    next to each other. On a list that has an empty key the assertion
    fails. *)
Theorem separate_chars_from_bindings_groups :
  forall char_list,
    (Forall (fun key => (0 < len key)%nat) char_list ->
     exists lists,
       separate_chars_from_bindings char_list = Return lists /\
       concat lists = map (separated_key (length char_list)) char_list /\
       Forall (fun g => g <> [] /\
                 (plain g \/
                  exists key, g = [key] /\ (1 < len key)%nat))
         lists /\
       (forall i g g', lists !! i = Some g -> lists !! S i = Some g' ->
                       ~ (plain g /\ plain g'))) /\
    ("" ∈ char_list ->
     separate_chars_from_bindings char_list = Raise AssertionError).
Proof.
  intros char_list. split.
  - intros Hne. unfold separate_chars_from_bindings.
    destruct (separate_loop_groups (length char_list) char_list [] [] Hne)
      as (run & rest & -> & Hrun & Hcat & Hall & Halt & Hhead);
      [constructor|].
    cbn [app] in *. eexists. split; [reflexivity|].
    split; [|split].
    + by rewrite concat_app, run_of_concat.
    + apply Forall_app. split; [by apply run_of_shape|done].
    + by apply alternate_lookup, alternate_run_of.
  - unfold separate_chars_from_bindings. generalize (length char_list).
    intros n. generalize (@nil (list string)), (@nil string).
    induction char_list as [|char char_list IH]; intros res current Hin;
      [by apply elem_of_nil in Hin|].
    cbn [separate_loop]. apply elem_of_cons in Hin as [<-|Hin]; [done|].
    destruct (negb (0 <? String.length char)%nat); [done|].
    repeat match goal with
           | |- context [if ?b then _ else _] => destruct b
           end; by apply IH.
Qed.

Lemma separate_loop_returns n : forall char_list res current,
  Forall (fun key => key <> "") char_list ->
  exists lists, separate_loop n char_list res current = Return lists.
Proof.
  induction char_list as [|char char_list IH]; intros res current Hne;
    [by eexists|].
  apply Forall_cons in Hne as [Hchar Hne]. cbn [separate_loop].
  assert ((0 <? String.length char)%nat = true) as ->.
  { apply Nat.ltb_lt. destruct char; [done|cbn; lia]. }
  cbn [negb].
  repeat match goal with
         | |- context [if ?b then _ else _] => destruct b
         end; by apply IH.
Qed.

Lemma separate_chars_from_bindings_returns char_list :
  Forall (fun key => key <> "") char_list ->
  exists lists, separate_chars_from_bindings char_list = Return lists.
Proof. apply separate_loop_returns. Qed.

Lemma replace_key_with_bound_value bindings key :
  replace_key_with_bound bindings key =
  match bindings !! key with
  | Some bind => if decide (bind = "") then key else bind
  | None => key
  end.
Proof.
  unfold replace_key_with_bound. destruct (bindings !! key) as [bind|]; cbn.
  - destruct (decide (bind = "")).
    + by rewrite bool_decide_eq_true_2.
    + by rewrite bool_decide_eq_false_2.
  - destruct (decide (key = "")).
    + by rewrite bool_decide_eq_true_2.
    + by rewrite bool_decide_eq_false_2.
Qed.

(** X18. [replace_key_with_bound] gives the string bound to the key when
    there is one that is not empty, and the key itself when it is not
    bound or bound to the empty string: a key that is not empty never
    becomes empty, so that the assertion of [separate_chars_from_bindings]
    holds for the keys of [main_loop] when none of the keys read is
    empty. *)
Theorem replace_key_with_bound_not_empty :
  forall bindings key,
    (bindings !! key = None \/ bindings !! key = Some "" ->
     replace_key_with_bound bindings key = key) /\
    (forall bind, bindings !! key = Some bind -> bind <> "" ->
                  replace_key_with_bound bindings key = bind) /\
    (key <> "" -> replace_key_with_bound bindings key <> "") /\
    (forall res,
       Forall (fun key => key <> "") res ->
       exists lists,
         separate_chars_from_bindings
           (map (replace_key_with_bound bindings) res) = Return lists).
Proof.
  intros bindings key.
  assert (forall key, key <> "" -> replace_key_with_bound bindings key <> "")
    as Hne.
  { intros k Hk. rewrite replace_key_with_bound_value.
    destruct (bindings !! k) as [bind|]; [|done]. by destruct (decide _). }
  split; [|split; [|split]].
  - rewrite replace_key_with_bound_value. by intros [->| ->].
  - intros bind Hbind Hb. rewrite replace_key_with_bound_value, Hbind.
    by destruct (decide _).
  - apply Hne.
  - intros res Hres. apply separate_chars_from_bindings_returns.
    apply Forall_forall. intros k (k' & -> & Hk')%list_elem_of_fmap.
    apply Hne. by apply (proj1 (Forall_forall _ _) Hres).
Qed.

(** Keys of one character, none of code 31, make one run. *)
Lemma separate_loop_plain n : forall char_list res current,
  Forall (fun key => len key = 1%nat /\
                     key <> String "031"%char EmptyString) char_list ->
  separate_loop n char_list res current =
  Return (res ++ run_of (current ++ char_list)).
Proof.
  induction char_list as [|char char_list IH]; intros res current Hall.
  - cbn [separate_loop]. rewrite app_nil_r. destruct current.
    + rewrite bool_decide_eq_true_2 by done. by rewrite app_nil_r.
    + by rewrite bool_decide_eq_false_2.
  - apply Forall_cons in Hall as [[Hlen Hc] Hall]. cbn [separate_loop].
    assert ((0 <? String.length char)%nat = true) as ->.
    { apply Nat.ltb_lt. destruct char; [cbn in Hlen; lia|cbn; lia]. }
    cbn [negb].
    rewrite bool_decide_eq_false_2 by done. rewrite Hlen. cbn [Nat.eqb].
    rewrite IH by done. by rewrite <- app_assoc.
Qed.

Lemma concat_not_empty key char_list :
  key <> "" -> String.concat "" (key :: char_list) <> "".
Proof.
  intros Hkey. destruct key as [|a key]; [done|].
  destruct char_list; cbn [String.concat]; [done|].
  by rewrite append_String.
Qed.

(** X19. When the core is not paused, two or more keys of one character
    each, counted as [len] counts them, that are read together, none of
    code 31 and none bound, go to the current tab as one text, all of them
    and in their order, with [raw] true, in one call of [on_input]; then
    the screen is updated. *)
Theorem plain_batch_passed_whole :
  forall self bindings res rest (c : nat) t,
    paused self = false ->
    _current_tab_nb self = Z.of_nat c -> tabs self !! c = Some t ->
    (2 <= length res)%nat ->
    Forall (fun key => len key = 1%nat /\
                       key <> String "031"%char EmptyString /\
                       bindings !! key = None) res ->
    main_loop_turn bindings (keys res :: rest) self =
    (Return tt,
     set_calls
       (calls self ++ [on_input t (String.concat "" res) true; doupdate])
       self).
Proof.
  intros self bindings res rest c t Hpaused Hc Ht Hlen Hall.
  unfold main_loop_turn. cbn [read_keyboard]. msimpl.
  assert (map (replace_key_with_bound bindings) res = res) as ->.
  { clear Hlen. induction Hall as [|key res (_ & _ & Hkey) _ IH]; [done|].
    cbn [map]. rewrite IH, replace_key_with_bound_value. by rewrite Hkey. }
  unfold separate_chars_from_bindings.
  rewrite separate_loop_plain; cycle 1.
  { eapply Forall_impl; [exact Hall|]. by intros key (? & ? & _). }
  cbn [app]. destruct res as [|key res]; [cbn in Hlen; lia|].
  cbn [run_of main_loop_for]. msimpl. unfold main_loop_body at 1. msimpl.
  rewrite Hpaused.
  destruct res as [|key' res]; [cbn in Hlen; lia|].
  cbn [length Nat.eqb]. unfold do_command.
  rewrite bool_decide_eq_false_2; cycle 1.
  { apply concat_not_empty. apply Forall_cons in Hall as [[Hk _] _].
    apply len_not_empty. lia. }
  msimpl. mstep (current_tab_at self c t Hc Ht). msimpl.
  unfold emit. msimpl. unfold put. psimpl.
  by rewrite <- app_assoc.
Qed.

(** Upwards, the loop goes over the Gaps to the first tab that is none. *)
Lemma skip_gaps_up_to fuel : forall self (c j : nat) t,
  _current_tab_nb self = Z.of_nat c -> (c <= j)%nat ->
  tabs self !! j = Some t -> tab_bool t = true ->
  (forall i g, (c <= i < j)%nat -> tabs self !! i = Some g ->
               tab_bool g = false) ->
  (j - c < fuel)%nat ->
  skip_gaps 1 fuel self =
  (Return tt, set__current_tab_nb (Z.of_nat j) self).
Proof.
  induction fuel as [|fuel IH]; intros self c j t Hc Hle Ht Hbt Hgaps Hfuel;
    [lia|].
  apply lookup_lt_Some in Ht as Hj.
  destruct (decide (c = j)) as [->|Hne].
  - rewrite (skip_gaps_at_tab _ _ _ j t) by done.
    by rewrite <- Hc, set__current_tab_nb_id.
  - destruct (lookup_lt_is_Some_2 (tabs self) c) as [g Hg]; [lia|].
    assert (tab_bool g = false) as Hbg by (apply (Hgaps c); [lia|done]).
    cbn [skip_gaps]. msimpl. rewrite Hc.
    mstep (tabs_getitem_nat _ c g Hg). rewrite Hbg. cbn [negb]. msimpl.
    rewrite Hc. replace (Z.of_nat c + 1) with (Z.of_nat (S c)) by lia.
    mstep_by ltac:(apply current_tab_nb_setter_inrange; lia).
    rewrite (IH (set__current_tab_nb (Z.of_nat (S c)) self) (S c) j t);
      psimpl; try done; try lia.
    intros i g' Hi. apply Hgaps. lia.
Qed.

(** Downwards too. *)
Lemma skip_gaps_down_to fuel : forall self (c j : nat) t,
  _current_tab_nb self = Z.of_nat c -> (j <= c)%nat ->
  (c < length (tabs self))%nat ->
  tabs self !! j = Some t -> tab_bool t = true ->
  (forall i g, (j < i <= c)%nat -> tabs self !! i = Some g ->
               tab_bool g = false) ->
  (c - j < fuel)%nat ->
  skip_gaps (-1) fuel self =
  (Return tt, set__current_tab_nb (Z.of_nat j) self).
Proof.
  induction fuel as [|fuel IH];
    intros self c j t Hc Hle Hlen Ht Hbt Hgaps Hfuel; [lia|].
  destruct (decide (c = j)) as [->|Hne].
  - rewrite (skip_gaps_at_tab _ _ _ j t) by done.
    by rewrite <- Hc, set__current_tab_nb_id.
  - destruct (lookup_lt_is_Some_2 (tabs self) c) as [g Hg]; [lia|].
    assert (tab_bool g = false) as Hbg by (apply (Hgaps c); [lia|done]).
    cbn [skip_gaps]. msimpl. rewrite Hc.
    mstep (tabs_getitem_nat _ c g Hg). rewrite Hbg. cbn [negb]. msimpl.
    rewrite Hc. replace (Z.of_nat c + -1) with (Z.of_nat (c - 1)) by lia.
    mstep_by ltac:(apply current_tab_nb_setter_inrange; lia).
    rewrite (IH (set__current_tab_nb (Z.of_nat (c - 1)) self)
               (c - 1)%nat j t);
      psimpl; try done; try lia.
    intros i g' Hi. apply Hgaps. lia.
Qed.

Lemma rotate_rooms_right_to self (c j : nat) t t' :
  _current_tab_nb self = Z.of_nat c -> tabs self !! c = Some t ->
  tabs self !! j = Some t' -> tab_bool t' = true ->
  next_right (tabs self) c j ->
  rotate_rooms_right self =
  (Return tt,
   set_calls
     (calls self ++ [on_lose_focus t; on_gain_focus t'; refresh_window])
     (set__current_tab_nb (Z.of_nat j) self)).
Proof.
  intros Hc Ht Ht' Hbt' Hnext. unfold rotate_rooms_right.
  apply lookup_lt_Some in Ht as Hclen. apply lookup_lt_Some in Ht' as Hjlen.
  mstep (current_tab_at self c t Hc Ht). msimpl. rewrite Hc.
  assert (exists c' : nat,
    current_tab_nb_setter (Z.of_nat c + 1)
      (set_calls (calls self ++ [on_lose_focus t]) self) =
    (Return tt,
     set__current_tab_nb (Z.of_nat c')
       (set_calls (calls self ++ [on_lose_focus t]) self)) /\
    (c' <= j)%nat /\
    forall i g, (c' <= i < j)%nat -> tabs self !! i = Some g ->
                tab_bool g = false) as (c' & Hset & Hle & Hgaps).
  { destruct Hnext as [[Hlt Hgaps]|[Hlast ->]].
    - exists (S c). split; [|split; [lia|]].
      + replace (Z.of_nat c + 1) with (Z.of_nat (S c)) by lia.
        apply current_tab_nb_setter_inrange. psimpl. lia.
      + intros i g Hi. apply Hgaps. lia.
    - exists 0%nat. split; [|split; [lia|intros; lia]].
      unfold current_tab_nb_setter. msimpl.
      destruct (Z.geb_spec (Z.of_nat c + 1) (Z.of_nat (length (tabs self))));
        [done|lia]. }
  mstep Hset. msimpl.
  erewrite bind_Return; cycle 1.
  { apply (skip_gaps_up_to _ _ c' j t'); psimpl; try done. lia. }
  cbv beta.
  mstep_by ltac:(apply (current_tab_at _ j t'); psimpl; done).
  msimpl. unfold emit, put. msimpl.
  by rewrite <- !app_assoc.
Qed.

Lemma rotate_rooms_left_to self (c j : nat) t t' :
  _current_tab_nb self = Z.of_nat c -> tabs self !! c = Some t ->
  tabs self !! j = Some t' -> tab_bool t' = true ->
  next_left (tabs self) c j ->
  rotate_rooms_left self =
  (Return tt,
   set_calls
     (calls self ++ [on_lose_focus t; on_gain_focus t'; refresh_window])
     (set__current_tab_nb (Z.of_nat j) self)).
Proof.
  intros Hc Ht Ht' Hbt' Hnext. unfold rotate_rooms_left.
  apply lookup_lt_Some in Ht as Hclen. apply lookup_lt_Some in Ht' as Hjlen.
  mstep (current_tab_at self c t Hc Ht). msimpl. rewrite Hc.
  assert (exists c' : nat,
    current_tab_nb_setter (Z.of_nat c - 1)
      (set_calls (calls self ++ [on_lose_focus t]) self) =
    (Return tt,
     set__current_tab_nb (Z.of_nat c')
       (set_calls (calls self ++ [on_lose_focus t]) self)) /\
    (j <= c')%nat /\ (c' < length (tabs self))%nat /\
    forall i g, (j < i <= c')%nat -> tabs self !! i = Some g ->
                tab_bool g = false) as (c' & Hset & Hle & Hlt' & Hgaps).
  { destruct Hnext as [[Hlt Hgaps]|[-> Hlast]].
    - exists (c - 1)%nat. split; [|split; [lia|split; [lia|]]].
      + replace (Z.of_nat c - 1) with (Z.of_nat (c - 1)) by lia.
        apply current_tab_nb_setter_inrange. psimpl. lia.
      + intros i g Hi. apply Hgaps. lia.
    - exists j. split; [|split; [lia|split; [lia|intros; lia]]].
      unfold current_tab_nb_setter. msimpl.
      destruct (Z.geb_spec (Z.of_nat 0 - 1) (Z.of_nat (length (tabs self))));
        [lia|].
      destruct (Z.ltb_spec (Z.of_nat 0 - 1) 0); [|lia].
      unfold put. do 3 f_equal. lia. }
  mstep Hset. msimpl.
  erewrite bind_Return; cycle 1.
  { apply (skip_gaps_down_to _ _ c' j t'); psimpl; try done. lia. }
  cbv beta.
  mstep_by ltac:(apply (current_tab_at _ j t'); psimpl; done).
  msimpl. unfold emit, put. msimpl.
  by rewrite <- !app_assoc.
Qed.

Lemma next_right_left l c j : next_right l c j <-> next_left l j c.
Proof. unfold next_right, next_left. tauto. Qed.

(** After a position that is not the last there is a tab that is no Gap,
    when the last tab is none. *)
Lemma first_tab_after l : forall n (c j0 : nat) t0,
  l !! j0 = Some t0 -> tab_bool t0 = true -> (c < j0)%nat ->
  (j0 - c <= n)%nat ->
  exists (j : nat) t,
    (c < j)%nat /\ gaps_between l c j /\ l !! j = Some t /\
    tab_bool t = true.
Proof.
  induction n as [|n IH]; intros c j0 t0 Hj0 Hbt0 Hlt Hn; [lia|].
  apply lookup_lt_Some in Hj0 as Hlen.
  destruct (lookup_lt_is_Some_2 l (S c)) as [g Hg]; [lia|].
  destruct (tab_bool g) eqn:Hbg.
  - exists (S c), g. split; [lia|]. split; [|done]. intros i g' Hi. lia.
  - assert (S c <> j0) as Hne by (intros <-; congruence).
    destruct (IH (S c) j0 t0) as (j & t & Hj & Hgaps & Ht & Hbt);
      try done; try lia.
    exists j, t. split; [lia|]. split; [|done].
    intros i g' Hi Hg'. destruct (decide (i = S c)) as [->|Hi'].
    + congruence.
    + apply (Hgaps i); [lia|done].
Qed.

Lemma first_tab_before l : forall n (c j0 : nat) t0,
  l !! j0 = Some t0 -> tab_bool t0 = true -> (j0 < c)%nat ->
  (c <= length l)%nat -> (c - j0 <= n)%nat ->
  exists (j : nat) t,
    (j < c)%nat /\ gaps_between l j c /\ l !! j = Some t /\
    tab_bool t = true.
Proof.
  induction n as [|n IH]; intros c j0 t0 Hj0 Hbt0 Hlt Hlen Hn; [lia|].
  destruct (lookup_lt_is_Some_2 l (c - 1)) as [g Hg]; [lia|].
  destruct (tab_bool g) eqn:Hbg.
  - exists (c - 1)%nat, g. split; [lia|]. split; [|done].
    intros i g' Hi. lia.
  - assert ((c - 1)%nat <> j0) as Hne by (intros <-; congruence).
    destruct (IH (c - 1)%nat j0 t0) as (j & t & Hj & Hgaps & Ht & Hbt);
      try done; try lia.
    exists j, t. split; [lia|]. split; [|done].
    intros i g' Hi Hg'. destruct (decide (i = (c - 1)%nat)) as [->|Hi'].
    + congruence.
    + apply (Hgaps i); [lia|done].
Qed.

Lemma next_right_exists l c :
  tabs_inv l -> (c < length l)%nat ->
  exists (j : nat) t, next_right l c j /\ l !! j = Some t /\ tab_bool t = true.
Proof.
  intros [(r & Hr & Hroster) Hlast] Hc.
  destruct (decide (S c = length l)) as [Hend|Hmid].
  - exists 0%nat, r. split; [by right|]. split; [done|].
    by apply roster_tab_bool.
  - destruct (lookup_lt_is_Some_2 l (length l - 1)) as [t0 Ht0]; [lia|].
    assert (tab_bool t0 = true) as Hbt0.
    { apply Hlast. rewrite last_lookup.
      by replace (pred (length l)) with (length l - 1)%nat by lia. }
    destruct (first_tab_after l (length l) c (length l - 1) t0)
      as (j & t & Hj & Hgaps & Ht & Hbt); try done; try lia.
    exists j, t. split; [by left|done].
Qed.

Lemma next_left_exists l c :
  tabs_inv l -> (c < length l)%nat ->
  exists (j : nat) t, next_left l c j /\ l !! j = Some t /\ tab_bool t = true.
Proof.
  intros [(r & Hr & Hroster) Hlast] Hc.
  destruct (decide (c = 0)%nat) as [->|Hpos].
  - destruct (lookup_lt_is_Some_2 l (length l - 1)) as [t0 Ht0]; [lia|].
    exists (length l - 1)%nat, t0. split; [right; lia|]. split; [done|].
    apply Hlast. rewrite last_lookup.
    by replace (pred (length l)) with (length l - 1)%nat by lia.
  - destruct (first_tab_before l (length l) c 0%nat r)
      as (j & t & Hj & Hgaps & Ht & Hbt); try done; try lia.
    { by apply roster_tab_bool. }
    exists j, t. split; [by left|done].
Qed.

(** X20. [rotate_rooms_right] moves the cursor from [c] to the next
    position that has a tab that is no Gap, with Gaps only between, and
    from the last position to 0: it returns, calls [on_lose_focus] of the
    tab left, [on_gain_focus] of the tab reached and [refresh_window], in
    this order, and leaves the list as it was. *)
Theorem rotate_rooms_right_next :
  forall self (c j : nat) t t',
    _current_tab_nb self = Z.of_nat c -> tabs self !! c = Some t ->
    tabs self !! j = Some t' -> tab_bool t' = true ->
    next_right (tabs self) c j ->
    exists self',
      rotate_rooms_right self = (Return tt, self') /\
      _current_tab_nb self' = Z.of_nat j /\
      tabs self' = tabs self /\
      calls self' =
        calls self ++ [on_lose_focus t; on_gain_focus t'; refresh_window].
Proof.
  intros self c j t t' Hc Ht Ht' Hbt' Hnext.
  rewrite (rotate_rooms_right_to self c j t t') by done.
  by eexists.
Qed.

(** X21. [rotate_rooms_left] moves the cursor from [c] to the position
    before it that has a tab that is no Gap, with Gaps only between, and
    from 0 to the last position: it returns, calls [on_lose_focus] of the
    tab left, [on_gain_focus] of the tab reached and [refresh_window], in
    this order, and leaves the list as it was. *)
Theorem rotate_rooms_left_previous :
  forall self (c j : nat) t t',
    _current_tab_nb self = Z.of_nat c -> tabs self !! c = Some t ->
    tabs self !! j = Some t' -> tab_bool t' = true ->
    next_left (tabs self) c j ->
    exists self',
      rotate_rooms_left self = (Return tt, self') /\
      _current_tab_nb self' = Z.of_nat j /\
      tabs self' = tabs self /\
      calls self' =
        calls self ++ [on_lose_focus t; on_gain_focus t'; refresh_window].
Proof.
  intros self c j t t' Hc Ht Ht' Hbt' Hnext.
  rewrite (rotate_rooms_left_to self c j t t') by done.
  by eexists.
Qed.

(** X22. With the roster tab at index 0, no Gap at the end of the list
    and the cursor on a tab that is no Gap, [rotate_rooms_left] after
    [rotate_rooms_right] brings the cursor back, and so does
    [rotate_rooms_right] after [rotate_rooms_left]: the core is then as it
    was, but for the six calls made on the two tabs and the screen. *)
Theorem rotate_rooms_round_trip :
  forall self,
    tabs_inv (tabs self) -> cursor_ok self ->
    (exists s1 t t',
       rotate_rooms_right self = (Return tt, s1) /\
       rotate_rooms_left s1 =
       (Return tt,
        set_calls
          (calls self ++
           [on_lose_focus t; on_gain_focus t'; refresh_window;
            on_lose_focus t'; on_gain_focus t; refresh_window])
          self)) /\
    (exists s1 t t',
       rotate_rooms_left self = (Return tt, s1) /\
       rotate_rooms_right s1 =
       (Return tt,
        set_calls
          (calls self ++
           [on_lose_focus t; on_gain_focus t'; refresh_window;
            on_lose_focus t'; on_gain_focus t; refresh_window])
          self)).
Proof.
  intros self Hinv [Hrange (t & Ht & Hbt)].
  set (c := Z.to_nat (_current_tab_nb self)) in *.
  assert (_current_tab_nb self = Z.of_nat c) as Hc by lia.
  assert (c < length (tabs self))%nat as Hlen by lia.
  assert (forall cs,
    set_calls cs (set__current_tab_nb (Z.of_nat c) self) = set_calls cs self)
    as Hback by (intros cs; rewrite <- Hc; by destruct self).
  split.
  - destruct (next_right_exists (tabs self) c Hinv Hlen)
      as (j & t' & Hnext & Ht' & Hbt').
    eexists _, t, t'.
    split; [by apply (rotate_rooms_right_to self c j t t')|].
    rewrite (rotate_rooms_left_to _ j c t' t); psimpl; try done;
      [|by apply next_right_left].
    by rewrite <- app_assoc, <- Hback.
  - destruct (next_left_exists (tabs self) c Hinv Hlen)
      as (j & t' & Hnext & Ht' & Hbt').
    eexists _, t, t'.
    split; [by apply (rotate_rooms_left_to self c j t t')|].
    rewrite (rotate_rooms_right_to _ j c t' t); psimpl; try done;
      [|by apply next_right_left].
    by rewrite <- app_assoc, <- Hback.
Qed.

(** X23. [current_tab] first brings the cursor into the range of the
    list: with a list that is not empty it returns the tab at the cursor
    when the cursor is in the range, the first tab when it is at or beyond
    the length and the last when it is negative, and leaves the cursor
    there, so that a second call gives the same tab and changes nothing;
    with an empty list it raises [IndexError]. *)
Theorem current_tab_normalised :
  forall self,
    ((0 < length (tabs self))%nat ->
     exists (c : nat) t,
       current_tab self =
         (Return t, set__current_tab_nb (Z.of_nat c) self) /\
       tabs self !! c = Some t /\
       (0 <= _current_tab_nb self < Z.of_nat (length (tabs self)) ->
        Z.of_nat c = _current_tab_nb self) /\
       (Z.of_nat (length (tabs self)) <= _current_tab_nb self ->
        c = 0%nat) /\
       (_current_tab_nb self < 0 -> S c = length (tabs self)) /\
       current_tab (set__current_tab_nb (Z.of_nat c) self) =
         (Return t, set__current_tab_nb (Z.of_nat c) self)) /\
    (tabs self = [] ->
     exists self', current_tab self = (Raise IndexError, self') /\
                   tabs self' = []).
Proof.
  intros self. split.
  - intros Hlen.
    destruct (current_tab_nb_setter_wraps self (_current_tab_nb self) Hlen)
      as (c & Hset & Hc & Hzero & Hlast & Hin).
    destruct (lookup_lt_is_Some_2 (tabs self) c Hc) as [t Ht].
    exists c, t.
    assert (current_tab (set__current_tab_nb (Z.of_nat c) self) =
            (Return t, set__current_tab_nb (Z.of_nat c) self)) as Hagain
      by by apply (current_tab_at _ c t).
    split; [|repeat split; try done; lia].
    unfold current_tab. msimpl. mstep Hset. msimpl.
    by rewrite (tabs_getitem_nat _ c t).
  - intros Hnil.
    assert (exists v,
      current_tab_nb_setter (_current_tab_nb self) self =
      (Return tt, set__current_tab_nb v self)) as [v Hset].
    { unfold current_tab_nb_setter. msimpl.
      destruct (_ >=? _); [by eexists|]. destruct (_ <? _); by eexists. }
    unfold current_tab. msimpl. mstep Hset. msimpl.
    rewrite tabs_getitem_empty by done. by eexists.
Qed.
End TabsMore.

(** ** Properties of the information window *)

Section InfoWinFacts.
Implicit Types (w : InfoWin).

Lemma set_information_win_size_id w :
  set_information_win_size (information_win_size w) w = w.
Proof. by destruct w. Qed.

Lemma grow_information_win_value w height nb :
  let size := information_win_size w in
  let r :=
    if (size >=? height - 5) || (size + nb >=? height - 4) then 0
    else if size =? 14 then 0
    else if size + nb >? 14 then 14 - size else nb in
  grow_information_win height nb w =
  (Return r, set_information_win_size (size + r) w).
Proof.
  cbv zeta. unfold grow_information_win, bind, get, put, ret.
  destruct ((information_win_size w >=? height - 5)
            || (information_win_size w + nb >=? height - 4)).
  { by rewrite Z.add_0_r, set_information_win_size_id. }
  destruct (information_win_size w =? 14).
  { by rewrite Z.add_0_r, set_information_win_size_id. }
  cbn [information_win_size set_information_win_size snd fst].
  destruct (Z.gtb_spec (information_win_size w + nb) 14).
  - unfold set_information_win_size. cbn. do 2 f_equal; lia.
  - done.
Qed.

Lemma shrink_information_win_value w nb :
  shrink_information_win nb w =
  (Return tt,
   set_information_win_size
     (if information_win_size w =? 0 then 0
      else Z.max 0 (information_win_size w - nb)) w).
Proof.
  unfold shrink_information_win, bind, get, put, ret.
  destruct (Z.eqb_spec (information_win_size w) 0) as [Hz|Hnz].
  { by rewrite <- Hz, set_information_win_size_id. }
  cbn [information_win_size set_information_win_size snd fst].
  destruct (Z.ltb_spec (information_win_size w - nb) 0);
    unfold set_information_win_size; cbn; do 2 f_equal; lia.
Qed.

(** X24. [grow_information_win] returns the number of lines by which the
    window has grown: the new size is the old one plus the number
    returned. For a number of lines that is not negative and a size of at
    most 14 the number returned is between 0 and the number asked, and the
    new size is at most 14; when the window has grown its size is below
    the height of the tab less 4, and it does not grow from a size of the
    height less 5 or more. *)
Theorem grow_information_win_bounds :
  forall w height nb,
    exists r,
      grow_information_win height nb w =
        (Return r,
         set_information_win_size (information_win_size w + r) w) /\
      (0 <= nb -> information_win_size w <= 14 ->
       0 <= r <= nb /\ information_win_size w + r <= 14) /\
      (0 <= nb -> r <> 0 -> information_win_size w + r < height - 4) /\
      (height - 5 <= information_win_size w -> r = 0).
Proof.
  intros w height nb. eexists. split; [apply grow_information_win_value|].
  cbv zeta.
  destruct (Z.geb_spec (information_win_size w) (height - 5)),
    (Z.geb_spec (information_win_size w + nb) (height - 4)),
    (Z.eqb_spec (information_win_size w) 14),
    (Z.gtb_spec (information_win_size w + nb) 14); cbn [orb];
    repeat split; intros; lia.
Qed.

(** X25. [pop_information_win_up] does nothing for a size or a time that
    is not positive; otherwise it calls [grow_information_win] with the
    size, leaves the window as that call leaves it, and makes one delayed
    event, with the time and the number of lines that the call has
    returned. That number is the size asked when the window, so grown,
    stays below the height of the tab less 4 and within 14 lines; and,
    when the size of the window was not negative, [shrink_information_win]
    with that number brings the size back to what it was before. *)
Theorem pop_information_win_up_restores :
  forall w height size time,
    0 <= information_win_size w ->
    (time <= 0 \/ size <= 0 ->
     pop_information_win_up height size time w = (Return tt, w)) /\
    (0 < time -> 0 < size ->
     exists r w1,
       grow_information_win height size w = (Return r, w1) /\
       pop_information_win_up height size time w =
         (Return tt,
          mkInfoWin (information_win_size w1)
            (delayed_shrinks w1 ++ [(time, r)])) /\
       delayed_shrinks w1 = delayed_shrinks w /\
       information_win_size w1 = information_win_size w + r /\
       (information_win_size w + size < height - 4 ->
        information_win_size w + size <= 14 -> r = size) /\
       information_win_size
         (snd (shrink_information_win r
                 (mkInfoWin (information_win_size w1)
                    (delayed_shrinks w1 ++ [(time, r)])))) =
         information_win_size w).
Proof.
  intros w height size time Hsize. unfold pop_information_win_up. split.
  - intros Hnot.
    destruct (Z.leb_spec time 0), (Z.leb_spec size 0); cbn [orb]; done || lia.
  - intros Htime Hpos.
    destruct (Z.leb_spec time 0), (Z.leb_spec size 0); cbn [orb]; try lia.
    pose proof (grow_information_win_value w height size) as Hgrow.
    cbv zeta in Hgrow. rewrite (bind_Return _ _ _ _ _ Hgrow). cbv beta.
    match type of Hgrow with _ = (Return ?r, _) => set (res := r) in * end.
    exists res,
      (set_information_win_size (information_win_size w + res) w).
    split; [exact Hgrow|]. split; [done|]. split; [done|]. split; [done|].
    assert (res = 0 \/ res = size \/
            (res = 14 - information_win_size w /\
             14 < information_win_size w + size)) as Hres.
    { subst res.
      destruct (_ || _); [by left|]. destruct (_ =? 14); [by left|].
      destruct (Z.gtb_spec (information_win_size w + size) 14);
        [right; right; lia|right; by left]. }
    split.
    + intros Hroom Hmax. subst res.
      destruct (Z.geb_spec (information_win_size w) (height - 5)); [lia|].
      destruct (Z.geb_spec (information_win_size w + size) (height - 4));
        [lia|]. cbn [orb].
      destruct (Z.eqb_spec (information_win_size w) 14); [lia|].
      destruct (Z.gtb_spec (information_win_size w + size) 14); [lia|done].
    + rewrite shrink_information_win_value.
      cbn [snd information_win_size set_information_win_size].
      destruct (Z.eqb_spec (information_win_size w + res) 0); lia.
Qed.

Lemma run_info_op_bounded op w :
  0 <= information_win_size w <= 14 -> 0 <= info_op_nb op ->
  0 <= information_win_size (snd (run_info_op op w)) <= 14.
Proof.
  intros Hsize Hnb. destruct op as [height nb|nb]; cbn [run_info_op info_op_nb] in *.
  - pose proof (grow_information_win_value w height nb) as Hgrow.
    cbv zeta in Hgrow. rewrite (bind_Return _ _ _ _ _ Hgrow).
    cbn [ret snd information_win_size set_information_win_size].
    destruct (_ || _); [lia|]. destruct (_ =? 14); [lia|].
    destruct (Z.gtb_spec (information_win_size w + nb) 14); lia.
  - rewrite shrink_information_win_value.
    cbn [snd information_win_size set_information_win_size].
    destruct (_ =? 0); lia.
Qed.

(** X26. From a size between 0 and 14, every sequence of calls of
    [grow_information_win] and [shrink_information_win] with numbers of
    lines that are not negative leaves a size between 0 and 14. *)
Theorem information_win_size_bounded :
  forall ops w,
    0 <= information_win_size w <= 14 ->
    Forall (fun op => 0 <= info_op_nb op) ops ->
    0 <= information_win_size (run_info_ops ops w) <= 14.
Proof.
  induction ops as [|op ops IH]; intros w Hsize Hops; [done|].
  apply Forall_cons in Hops as [Hop Hops]. cbn [run_info_ops].
  apply IH; [|done]. by apply run_info_op_bounded.
Qed.

End InfoWinFacts.

(** ** Properties of the commands *)

Section CommandFacts.
Implicit Types (self : Commands) (s : string) (c : ascii).















Lemma register_command_value self name func desc shortdesc completion usage :
  register_command name func desc shortdesc completion usage self =
  (Return tt,
   match commands self !! name with
   | Some _ => self
   | None =>
       mkCommands
         (<[name := Command.mk func (if decide (desc = "") then shortdesc
                                     else desc)
                      completion shortdesc usage]> (commands self))
         (command_calls self)
   end).
Proof.
  unfold register_command, bind, get, put, ret.
  destruct (commands self !! name) as [cmd|] eqn:Hname.
  - by rewrite bool_decide_eq_true_2.
  - rewrite bool_decide_eq_false_2 by (by intros [? ?]).
    cbn [fst snd]. do 4 f_equal.
    destruct (decide (desc = "")) as [->|Hd].
    + rewrite bool_decide_eq_true_2 by done.
      destruct (decide (shortdesc = "")) as [->|Hs].
      * by rewrite bool_decide_eq_true_2.
      * by rewrite bool_decide_eq_false_2.
    + by rewrite bool_decide_eq_false_2.
Qed.

(** X28. [register_command] keeps the command that a name has already:
    the first one registered stays, whatever is registered after. For a
    new name it stores the command, with the short description in place
    of an empty description, and every other name keeps what it had;
    [execute] then calls the function registered first. *)
Theorem register_command_first_wins :
  forall self name func desc shortdesc completion usage,
    exists self',
      register_command name func desc shortdesc completion usage self =
        (Return tt, self') /\
      (forall cmd, commands self !! name = Some cmd -> self' = self) /\
      (commands self !! name = None ->
       commands self' !! name =
       Some (Command.mk func (if decide (desc = "") then shortdesc else desc)
               completion shortdesc usage)) /\
      (forall name', name' <> name ->
                     commands self' !! name' = commands self !! name') /\
      (forall func' desc' shortdesc' completion' usage',
         register_command name func' desc' shortdesc' completion' usage'
           self' = (Return tt, self')) /\
      command_calls self' = command_calls self.
Proof.
  intros self name func desc shortdesc completion usage.
  rewrite register_command_value. eexists. split; [reflexivity|].
  destruct (commands self !! name) as [cmd|] eqn:Hname.
  - split; [done|]. split; [done|]. split; [done|]. split; [|done].
    intros. by rewrite register_command_value, Hname.
  - split; [done|]. cbn [commands command_calls].
    split; [intros _; apply lookup_insert_eq|].
    split; [intros name' Hne; by apply lookup_insert_ne|].
    split; [|done]. intros. rewrite register_command_value.
    cbn [commands]. by rewrite lookup_insert_eq.
Qed.

End CommandFacts.

(** ** The further properties at the sample data *)

Section MoreSamples.
Existing Instance sample_env.

Lemma make_message_me_and_tabs_witness :
  Message.txt
    (make_message 0 "hello" None (Some "nick") None false None (Some "h")
       None false None 0)
  = replace_tabs "hello" +:+ x19 +:+ "o".
Proof.
  destruct (make_message_me_and_tabs 0 "hello" None (Some "nick") None false
              None (Some "h") None false None 0) as (Hme & Htxt & _).
  apply Htxt. rewrite Hme. reflexivity.
Defined.

Lemma add_message_value_witness :
  exists nb b',
    append (sample_addition "e") sample_buffer = (Return nb, b') /\
    nb <> 0.
Proof.
  destruct (add_message_value (sample_addition "e") sample_buffer)
    as (nb & b' & Hrun & Hnb & _).
  - vm_compute. discriminate.
  - exists nb, b'. split; [exact Hrun|exact Hnb].
Defined.

Lemma last_message_after_add_witness :
  exists nb b',
    append (sample_addition "e") sample_buffer = (Return nb, b') /\
    last_message b' = Some (appended (sample_addition "e")).
Proof.
  destruct (last_message_after_add (sample_addition "e") sample_buffer)
    as (nb & b' & Hrun & Hlast & _).
  - vm_compute. discriminate.
  - exists nb, b'. split; [exact Hrun|]. apply Hlast.
    vm_compute. discriminate.
Defined.

Lemma add_message_negative_limit_witness :
  exists b',
    append (sample_addition "a") (TextBuffer_init (-1)) =
      (Raise IndexError, b') /\
    messages b' = [].
Proof.
  destruct (add_message_negative_limit (sample_addition "a")
              (TextBuffer_init (-1))) as (b' & Hrun & Hnone & _).
  - cbn. lia.
  - exists b'. split; [exact Hrun|exact Hnone].
Defined.

Lemma mixed_operations_bounded_witness :
  Z.of_nat
    (length
       (messages
          (run_buffer_ops
             [op_add_message (sample_addition "e");
              op_modify_message (sample_correction "e" "e2");
              op_add_message (sample_addition "f")]
             sample_buffer)))
  <= messages_nb_limit sample_buffer.
Proof.
  apply mixed_operations_bounded.
  - vm_compute. discriminate.
  - vm_compute. discriminate.
Defined.

Lemma evicted_message_not_corrected_witness :
  exists b',
    append_all (map sample_addition ["e"; "f"; "g"]) sample_buffer =
      (Return tt, b') /\
    modify_message 0 "d2" (Some "d") (Some "d2") false None None b' =
      (Raise (CorrectionError "nothing to replace"), b').
Proof.
  apply evicted_message_not_corrected.
  - vm_compute. discriminate.
  - vm_compute. discriminate.
  - vm_compute. discriminate.
  - intros a Ha. cbn [map] in Ha.
    repeat (apply elem_of_cons in Ha as [->|Ha]; [discriminate|]).
    by apply elem_of_nil in Ha.
Defined.

Lemma correction_keeps_author_witness :
  exists message b',
    modify_message 0 "d2" (Some "d") (Some "d2") false None None
      sample_buffer = (Return message, b') /\
    Message.nickname message = Some "nick".
Proof.
  destruct correction_keeps_author as [Hstep _].
  destruct (modify_message 0 "d2" (Some "d") (Some "d2") false None None
              sample_buffer) as [out b'] eqn:Hcall.
  assert (exists message, out = Return message) as [message ->].
  { eexists. apply (f_equal fst) in Hcall. symmetry. exact Hcall. }
  assert (exists msg, messages sample_buffer !! 2%nat = Some msg /\
                      Message.identifier msg = Some "d" /\
                      Message.nickname msg = Some "nick")
    as (msg & Hmsg & Hid & Hnick).
  { eexists. repeat split; reflexivity. }
  destruct (Hstep sample_buffer 2%nat msg 0 "d2" (Some "d") (Some "d2")
              false None None message b') as (_ & Hsame & _).
  - by apply sample_latest_match.
  - exact Hcall.
  - exists message, b'. split; [reflexivity|]. by rewrite Hsame.
Defined.

Lemma get_tab_by_number_total_witness :
  get_tab_by_number (-1) (sample_core [Roster; tab_A] 0 true) =
  (Return None, sample_core [Roster; tab_A] 0 true).
Proof.
  destruct (get_tab_by_number_total (sample_core [Roster; tab_A] 0 true)
              (-1)) as ((res & Hrun & Hnone & _) & _).
  rewrite Hrun, Hnone; [reflexivity|]. left. lia.
Defined.

Lemma sample_gap_tabs_inv : tabs_inv [Roster; Gap 4; tab_A].
Proof.
  split.
  - exists Roster. split; reflexivity.
  - intros t [= <-]. reflexivity.
Qed.

Lemma on_gaps_config_change_removes_gaps_witness :
  exists self',
    on_gaps_config_change "create_gaps" "False"
      (sample_core [Roster; Gap 4; tab_A] 2 true) = (Return tt, self') /\
    PyList.index tab_A (tabs self') = Some 1%nat /\
    tabs_inv (tabs self').
Proof.
  destruct (on_gaps_config_change_removes_gaps
              (sample_core [Roster; Gap 4; tab_A] 2 true)
              "create_gaps" "False") as [Hfalse _].
  destruct Hfalse as (self' & Hrun & _ & _ & Hnb & Hinv & _);
    [reflexivity|].
  exists self'. split; [exact Hrun|]. split.
  - apply (Hnb tab_A 2%nat); reflexivity.
  - apply Hinv. exact sample_gap_tabs_inv.
Defined.

Lemma add_tab_appends_witness :
  exists self',
    add_tab tab_B true (sample_core [Roster; tab_A] 0 true) =
      (Return tt, self') /\
    PyList.index tab_B (tabs self') = Some 2%nat.
Proof.
  destruct (add_tab_appends (sample_core [Roster; tab_A] 0 true) tab_B true)
    as (self' & Hrun & _ & _ & Hnew & _).
  exists self'. split; [exact Hrun|]. apply Hnew.
  intros Hin. cbn in Hin.
  repeat (apply elem_of_cons in Hin as [Hin|Hin]; [discriminate|]).
  by apply elem_of_nil in Hin.
Defined.

Lemma sample_two_tabs_inv : tabs_inv [Roster; tab_A].
Proof.
  split.
  - exists Roster. split; reflexivity.
  - intros t [= <-]. reflexivity.
Qed.

Lemma tab_list_invariant_with_add_tab_witness :
  tabs_inv
    (tabs (run_core_ops
             [op_add_tab tab_B false; op_tab (op_close_tab (Some tab_A));
              op_add_tab tab_C true; op_tab (op_insert_tab 3 1)]
             (sample_core [Roster; tab_A] 0 true))).
Proof.
  apply tab_list_invariant_with_add_tab.
  - reflexivity.
  - exact sample_two_tabs_inv.
  - intros op t Hop Hadded.
    repeat (apply elem_of_cons in Hop as [->|Hop];
            [cbn in Hadded; try discriminate; by injection Hadded as <-|]).
    by apply elem_of_nil in Hop.
Defined.

Lemma close_tab_numbering_witness :
  exists self',
    close_tab (Some tab_A)
      (sample_core [Roster; tab_A; tab_B; tab_C] 0 true) =
      (Return tt, self') /\
    tabs self' !! 2%nat = Some tab_B.
Proof.
  destruct (close_tab_numbering
              (sample_core [Roster; tab_A; tab_B; tab_C] 0 true)
              tab_A 1%nat Roster)
    as (self' & Hrun & _ & Hafter & _); try reflexivity.
  exists self'. split; [exact Hrun|].
  apply (Hafter 2%nat tab_B); [lia|reflexivity].
Defined.

Lemma close_tab_not_in_list_witness :
  let s := mkCoreTabs (sample_core [Roster; tab_A] 0 true) {[tab_id tab_C]} in
  close_tab_whole (Some tab_C) s = (Raise AttributeError, s) /\
  close_tab_whole (Some tab_B) s =
  (Raise ValueError,
   mkCoreTabs (set_calls (calls (core s) ++ [on_close tab_B]) (core s))
     ({[tab_id tab_B]} ∪ deleted s)).
Proof.
  cbv zeta. split.
  - destruct (close_tab_not_in_list
                (mkCoreTabs (sample_core [Roster; tab_A] 0 true)
                   {[tab_id tab_C]}) tab_C) as (_ & Hdeleted & _);
      [reflexivity|].
    apply Hdeleted; [reflexivity|]. cbn. by apply elem_of_singleton.
  - destruct (close_tab_not_in_list
                (mkCoreTabs (sample_core [Roster; tab_A] 0 true)
                   {[tab_id tab_C]}) tab_B) as (_ & _ & Habsent & _);
      [reflexivity|].
    apply Habsent; [reflexivity| |].
    + cbn. intros Hin%elem_of_singleton. discriminate.
    + intros Hin. cbn in Hin.
      repeat (apply elem_of_cons in Hin as [Hin|Hin]; [discriminate|]).
      by apply elem_of_nil in Hin.
Defined.

Lemma insert_tab_nogaps_moves_witness :
  exists self' (d : nat),
    insert_tab (Z.of_nat 1) 3
      (sample_core [Roster; tab_A; tab_B; tab_C] 0 false) =
      (Return true, self') /\
    tabs self' !! d = Some tab_A /\ Z.of_nat d = 2.
Proof.
  destruct (insert_tab_nogaps_moves
              (sample_core [Roster; tab_A; tab_B; tab_C] 0 false)
              1%nat 3 tab_A)
    as (self' & d & Hrun & Hd & _ & _ & Hright & _);
    try reflexivity; try lia.
  exists self', d. split; [exact Hrun|]. split; [exact Hd|].
  rewrite Hright by lia. reflexivity.
Defined.

Lemma remove_timed_event_removes_witness :
  let e1 := sample_event 1 5 false in
  let e2 := sample_event 2 6 false in
  exists evs,
    remove_timed_event (Some e1) (sample_core_events [e1; e2]) =
      (Return tt, set_timed_events evs (sample_core_events [e1; e2])) /\
    e2 ∈ evs.
Proof.
  cbv zeta.
  destruct (remove_timed_event_removes
              (sample_core_events
                 [sample_event 1 5 false; sample_event 2 6 false])
              (Some (sample_event 1 5 false)))
    as (evs & Hrun & Hmem & _).
  exists evs. split; [exact Hrun|]. apply Hmem. split.
  - cbn. apply elem_of_cons. right. apply elem_of_cons. by left.
  - intros ev [= <-]. discriminate.
Defined.

Lemma read_keyboard_returns_keys_witness :
  let e1 := sample_event 1 5 false in
  let e2 := sample_event 2 1 false in
  let self := sample_core_events [e1; e2] in
  let checked :=
    foldl (fun s now => snd (check_timed_events now s)) self [2; 3] in
  read_keyboard (map timeout [2; 3] ++ [keys ["a"]]) self =
    (Return ["a"], checked) /\
  event_call e2 ∈ calls checked /\ e2 ∉ timed_events checked.
Proof.
  cbv zeta.
  destruct (read_keyboard_returns_keys [2; 3] ["a"] []
              (sample_core_events
                 [sample_event 1 5 false; sample_event 2 1 false]))
    as (Hrun & _ & _ & Hfirst).
  split; [exact Hrun|].
  destruct (Hfirst 2 [3] [sample_event 1 5 false] (sample_event 2 1 false) [])
    as [Hcalled Hremoved]; try reflexivity.
  - intros e' He'. apply list_elem_of_singleton in He' as ->. reflexivity.
  - split; [exact Hcalled|]. apply Hremoved. reflexivity.
Defined.

Lemma separate_chars_from_bindings_groups_witness :
  exists lists,
    separate_chars_from_bindings ["a"; euro_sign; "KEY_BACKSPACE"; "n"] =
      Return lists /\
    concat lists =
      map (separated_key 4) ["a"; euro_sign; "KEY_BACKSPACE"; "n"] /\
    lists !! 0%nat = Some ["a"; euro_sign].
Proof.
  destruct (separate_chars_from_bindings_groups
              ["a"; euro_sign; "KEY_BACKSPACE"; "n"]) as [Hgroups _].
  destruct Hgroups as (lists & Hrun & Hcat & _).
  - apply Forall_forall. intros key Hkey.
    repeat (apply elem_of_cons in Hkey as [->|Hkey]; [vm_compute; lia|]).
    by apply elem_of_nil in Hkey.
  - exists lists. split; [exact Hrun|]. split; [exact Hcat|].
    injection Hrun as <-. reflexivity.
Defined.

Lemma replace_key_with_bound_not_empty_witness :
  replace_key_with_bound (<["a" := ""]> ∅) "a" <> "".
Proof.
  destruct (replace_key_with_bound_not_empty (<["a" := ""]> ∅) "a")
    as (_ & _ & Hne & _).
  apply Hne. discriminate.
Defined.

Lemma plain_batch_passed_whole_witness :
  main_loop_turn ∅ [keys ["a"; euro_sign]]
    (sample_core [Roster; tab_A] 1 false) =
  (Return tt,
   set_calls
     (calls (sample_core [Roster; tab_A] 1 false) ++
      [on_input tab_A (String.concat "" ["a"; euro_sign]) true; doupdate])
     (sample_core [Roster; tab_A] 1 false)).
Proof.
  apply (plain_batch_passed_whole (sample_core [Roster; tab_A] 1 false) ∅
           ["a"; euro_sign] [] 1%nat tab_A).
  - reflexivity.
  - reflexivity.
  - reflexivity.
  - cbn. lia.
  - repeat constructor; (discriminate || reflexivity).
Defined.

Lemma sample_gaps_between : gaps_between [Roster; Gap 4; tab_A] 0 2.
Proof.
  intros i g Hi Hg. assert (i = 1%nat) as -> by lia.
  cbn in Hg. by injection Hg as <-.
Qed.

Lemma rotate_rooms_right_next_witness :
  exists self',
    rotate_rooms_right (sample_core [Roster; Gap 4; tab_A] 0 true) =
      (Return tt, self') /\
    _current_tab_nb self' = Z.of_nat 2.
Proof.
  destruct (rotate_rooms_right_next
              (sample_core [Roster; Gap 4; tab_A] 0 true)
              0%nat 2%nat Roster tab_A)
    as (self' & Hrun & Hcur & _); try reflexivity.
  - left. split; [lia|exact sample_gaps_between].
  - exists self'. split; [exact Hrun|exact Hcur].
Defined.

Lemma rotate_rooms_left_previous_witness :
  exists self',
    rotate_rooms_left (sample_core [Roster; Gap 4; tab_A] 2 true) =
      (Return tt, self') /\
    _current_tab_nb self' = Z.of_nat 0.
Proof.
  destruct (rotate_rooms_left_previous
              (sample_core [Roster; Gap 4; tab_A] 2 true)
              2%nat 0%nat tab_A Roster)
    as (self' & Hrun & Hcur & _); try reflexivity.
  - left. split; [lia|exact sample_gaps_between].
  - exists self'. split; [exact Hrun|exact Hcur].
Defined.

Lemma rotate_rooms_round_trip_witness :
  exists s1 t t',
    rotate_rooms_right (sample_core [Roster; Gap 4; tab_A] 0 true) =
      (Return tt, s1) /\
    rotate_rooms_left s1 =
    (Return tt,
     set_calls
       (calls (sample_core [Roster; Gap 4; tab_A] 0 true) ++
        [on_lose_focus t; on_gain_focus t'; refresh_window;
         on_lose_focus t'; on_gain_focus t; refresh_window])
       (sample_core [Roster; Gap 4; tab_A] 0 true)).
Proof.
  destruct (rotate_rooms_round_trip
              (sample_core [Roster; Gap 4; tab_A] 0 true)) as [Hright _].
  - exact sample_gap_tabs_inv.
  - split; [cbn; lia|]. exists Roster. split; reflexivity.
  - exact Hright.
Defined.

Lemma current_tab_normalised_witness :
  exists (c : nat) t,
    current_tab (sample_core [Roster; tab_A] 5 false) =
      (Return t,
       set__current_tab_nb (Z.of_nat c) (sample_core [Roster; tab_A] 5 false))
    /\ c = 0%nat.
Proof.
  destruct (current_tab_normalised (sample_core [Roster; tab_A] 5 false))
    as [Hsome _].
  destruct Hsome as (c & t & Hrun & _ & _ & Hzero & _); [cbn; lia|].
  exists c, t. split; [exact Hrun|]. apply Hzero. cbn. lia.
Defined.

Lemma grow_information_win_bounds_witness :
  exists r,
    grow_information_win 40 5 (mkInfoWin 13 []) =
      (Return r, set_information_win_size (13 + r) (mkInfoWin 13 [])) /\
    0 <= r <= 5 /\ 13 + r <= 14.
Proof.
  destruct (grow_information_win_bounds (mkInfoWin 13 []) 40 5)
    as (r & Hrun & Hbounds & _).
  exists r. split; [exact Hrun|]. apply Hbounds; cbn; lia.
Defined.

Lemma pop_information_win_up_restores_witness :
  exists r w1,
    grow_information_win 40 3 (mkInfoWin 2 []) = (Return r, w1) /\
    pop_information_win_up 40 3 4 (mkInfoWin 2 []) =
      (Return tt,
       mkInfoWin (information_win_size w1)
         (delayed_shrinks w1 ++ [(4, r)])) /\
    r = 3 /\
    information_win_size
      (snd (shrink_information_win r
              (mkInfoWin (information_win_size w1)
                 (delayed_shrinks w1 ++ [(4, r)])))) = 2.
Proof.
  destruct (pop_information_win_up_restores (mkInfoWin 2 []) 40 3 4)
    as [_ Hpop]; [cbn; lia|].
  destruct Hpop as (r & w1 & Hgrow & Hrun & _ & _ & Hfull & Hback);
    [lia|lia|].
  exists r, w1. split; [exact Hgrow|]. split; [exact Hrun|].
  split; [apply Hfull; cbn; lia|exact Hback].
Defined.

Lemma information_win_size_bounded_witness :
  0 <= information_win_size
         (run_info_ops [op_grow 40 20; op_shrink 3; op_shrink 30]
            (mkInfoWin 2 [])) <= 14.
Proof.
  apply information_win_size_bounded.
  - cbn. lia.
  - repeat constructor; cbn; lia.
Defined.


Lemma register_command_first_wins_witness :
  exists self',
    register_command "link" 7 "" "open a link" None "" (mkCommands ∅ []) =
      (Return tt, self') /\
    commands self' !! "link" =
    Some (Command.mk 7 (if decide ("" = "") then "open a link" else "")
            None "open a link" "").
Proof.
  destruct (register_command_first_wins (mkCommands ∅ []) "link" 7 ""
              "open a link" None "")
    as (self' & Hrun & _ & Hnew & _).
  exists self'. split; [exact Hrun|]. apply Hnew. reflexivity.
Defined.

End MoreSamples.
